(** * nucleus/io/sam_reader.cc: a shallow embedding and its properties

    The development follows the source file top-down: the aux-field
    decoder ([ParseAuxFields]), the record converter ([ConvertToPb]),
    the keep-predicate and the iteration engine ([KeepRead], [Next]),
    the reader entry points ([Iterate], [Query], [Close]) and the header
    parser run by the [SamReader] constructor.

    Conventions.
    - A [uint8_t] is a [Z] in [0, 256); an [int] is a [Z] wrapped to 32
      bits by [int32] wherever the source converts or overflows.
    - [b->data] is the list of its first [l_data] bytes, a pointer into it
      is a [Z] offset from [b->data], and every dereference goes through
      [load], which reports a read outside the buffer as a [Fault].
    - Code that can loop for ever takes fuel and reports [OutOfFuel]. *)

From Stdlib Require Import ZArith QArith Lia Bool List Ascii String.
From stdpp Require Import base numbers option list gmap strings.

Local Open Scope Z_scope.

(* ================================================================== *)
(** ** Outcomes of running a piece of the program *)

Inductive fault : Type :=
| ReadBeforeStart   (* dereference of a pointer below b->data *)
| ReadPastEnd       (* dereference of a pointer at or above b->data + l_data *)
| BadIndex          (* subscript outside a table or array *)
| NullDereference   (* use of a null handle *)
| CheckFailure      (* a CHECK(...) that does not hold: the process aborts *)
| OutOfRange.       (* substr past the end of a string: std::out_of_range *)

Inductive outcome (A : Type) : Type :=
| Ret (a : A)
| Fault (f : fault)
| OutOfFuel.
Arguments Ret {A} a.
Arguments Fault {A} f.
Arguments OutOfFuel {A}.

#[global] Instance outcome_ret : MRet outcome := fun A a => Ret a.
#[global] Instance outcome_bind : MBind outcome := fun A B k o =>
  match o with
  | Ret a => k a
  | Fault f => Fault f
  | OutOfFuel => OutOfFuel
  end.

(* ================================================================== *)
(** ** Bytes, characters and machine integers *)

Definition chr (c : ascii) : Z := Z.of_N (N_of_ascii c).
Definition char_of (b : Z) : ascii := ascii_of_N (Z.to_N b).

Fixpoint string_of_bytes (l : list Z) : string :=
  match l with
  | [] => EmptyString
  | b :: l' => String (char_of b) (string_of_bytes l')
  end.

(** Conversion to [int] (two's complement, 32 bits). *)
Definition int32 (z : Z) : Z := (z + 2 ^ 31) mod 2 ^ 32 - 2 ^ 31.
Definition int16 (z : Z) : Z := (z + 2 ^ 15) mod 2 ^ 16 - 2 ^ 15.
Definition int8 (z : Z) : Z := (z + 2 ^ 7) mod 2 ^ 8 - 2 ^ 7.

(** [*p] for a pointer [p = b->data + i]. *)
Definition load (data : list Z) (i : Z) : outcome Z :=
  if i <? 0 then Fault ReadBeforeStart
  else match data !! Z.to_nat i with
       | Some b => Ret b
       | None => Fault ReadPastEnd
       end.

(** htslib/hts_endian.h *)
Definition le_to_u16 (data : list Z) (i : Z) : outcome Z :=
  b0 ← load data i;
  b1 ← load data (i + 1);
  Ret (Z.lor b0 (Z.shiftl b1 8)).

Definition le_to_u32 (data : list Z) (i : Z) : outcome Z :=
  b0 ← load data i;
  b1 ← load data (i + 1);
  b2 ← load data (i + 2);
  b3 ← load data (i + 3);
  Ret (Z.lor (Z.lor b0 (Z.shiftl b1 8))
             (Z.lor (Z.shiftl b2 16) (Z.shiftl b3 24))).

(* ================================================================== *)
(** ** Status values (tensorflow::Status) *)

Inductive Code : Type :=
| OK | DataLoss | FailedPrecondition | NotFound | Internal
| InvalidArgument | Unknown.

Record Status : Type := mkStatus { code : Code; error_message : string }.

Definition Status_OK : Status := mkStatus OK "".
Definition errors_DataLoss (msg : string) : Status := mkStatus DataLoss msg.
Definition errors_FailedPrecondition (msg : string) : Status :=
  mkStatus FailedPrecondition msg.
Definition errors_NotFound (msg : string) : Status := mkStatus NotFound msg.
Definition errors_Internal (msg : string) : Status := mkStatus Internal msg.

Definition ok (st : Status) : bool :=
  match code st with OK => true | _ => false end.

(* ================================================================== *)
(** ** The output record (nucleus.genomics.v1.Read) *)

Inductive CigarUnit_Operation : Type :=
| ALIGNMENT_MATCH | INSERT | DELETE | SKIP | CLIP_SOFT | CLIP_HARD | PAD
| SEQUENCE_MATCH | SEQUENCE_MISMATCH.

Record CigarUnit : Type := mkCigarUnit {
  operation : CigarUnit_Operation;
  operation_length : Z
}.

Record Position : Type := mkPosition {
  reference_name : string;
  position : Z;
  reverse_strand : bool
}.

(** A freshly created submessage: every field at its default. *)
Definition Position_default : Position := mkPosition "" 0 false.

Record LinearAlignment : Type := mkLinearAlignment {
  mapping_quality : Z;
  cigar : list CigarUnit;
  alignment_position : option Position
}.

(** The value stored under a tag. A float is kept as its 32-bit pattern. *)
Inductive AuxValue : Type :=
| IntValue (n : Z)
| FloatValue (bits : Z)
| StringValue (s : string).

Record Read : Type := mkRead {
  fragment_name : string;
  fragment_length : Z;
  proper_placement : bool;
  duplicate_fragment : bool;
  failed_vendor_quality_checks : bool;
  secondary_alignment : bool;
  supplementary_alignment : bool;
  read_number : Z;
  number_reads : Z;
  aligned_sequence : string;
  aligned_quality : list Z;
  alignment : option LinearAlignment;
  next_mate_position : option Position;
  info : gmap string AuxValue
}.

(** [read_message->Clear()] *)
Definition Read_Clear : Read :=
  mkRead "" 0 false false false false false 0 0 "" [] None None ∅.

Definition set_aligned_sequence (v : string) (r : Read) : Read :=
  mkRead (fragment_name r) (fragment_length r) (proper_placement r)
    (duplicate_fragment r) (failed_vendor_quality_checks r)
    (secondary_alignment r) (supplementary_alignment r) (read_number r)
    (number_reads r) v (aligned_quality r) (alignment r)
    (next_mate_position r) (info r).

Definition set_aligned_quality (v : list Z) (r : Read) : Read :=
  mkRead (fragment_name r) (fragment_length r) (proper_placement r)
    (duplicate_fragment r) (failed_vendor_quality_checks r)
    (secondary_alignment r) (supplementary_alignment r) (read_number r)
    (number_reads r) (aligned_sequence r) v (alignment r)
    (next_mate_position r) (info r).

Definition set_alignment (v : option LinearAlignment) (r : Read) : Read :=
  mkRead (fragment_name r) (fragment_length r) (proper_placement r)
    (duplicate_fragment r) (failed_vendor_quality_checks r)
    (secondary_alignment r) (supplementary_alignment r) (read_number r)
    (number_reads r) (aligned_sequence r) (aligned_quality r) v
    (next_mate_position r) (info r).

Definition set_next_mate_position (v : option Position) (r : Read) : Read :=
  mkRead (fragment_name r) (fragment_length r) (proper_placement r)
    (duplicate_fragment r) (failed_vendor_quality_checks r)
    (secondary_alignment r) (supplementary_alignment r) (read_number r)
    (number_reads r) (aligned_sequence r) (aligned_quality r) (alignment r)
    v (info r).

Definition set_info (v : gmap string AuxValue) (r : Read) : Read :=
  mkRead (fragment_name r) (fragment_length r) (proper_placement r)
    (duplicate_fragment r) (failed_vendor_quality_checks r)
    (secondary_alignment r) (supplementary_alignment r) (read_number r)
    (number_reads r) (aligned_sequence r) (aligned_quality r) (alignment r)
    (next_mate_position r) v.

(** Modelled from the spec: [SetInfoField] (nucleus/util/utils.h) is not in
    this file; the record carries "a mapping of aux-field tag -> typed
    value", so setting a tag stores the value under it, replacing an
    earlier one. *)
Definition SetInfoField (tag : string) (v : AuxValue) (r : Read) : Read :=
  set_info (<[tag := v]> (info r)) r.

(* ================================================================== *)
(** ** The native record (htslib's bam1_t) and the options *)

Record bam1_core_t : Type := mkCore {
  tid : Z;
  pos : Z;
  qual : Z;
  l_qname : Z;
  flag : Z;
  n_cigar : Z;
  l_qseq : Z;
  mtid : Z;
  mpos : Z;
  isize : Z
}.

(** [data] holds the [l_data] bytes of the record: name, CIGAR, packed
    sequence, qualities, aux fields, in that order. *)
Record bam1_t : Type := mkBam { core : bam1_core_t; data : list Z }.

Definition l_data (b : bam1_t) : Z := Z.of_nat (length (data b)).

(** htslib/sam.h: offsets of the parts of [data]. *)
Definition bam_get_qname (b : bam1_t) : Z := 0.
Definition bam_get_cigar (b : bam1_t) : Z := l_qname (core b).
Definition bam_get_seq (b : bam1_t) : Z :=
  Z.shiftl (n_cigar (core b)) 2 + l_qname (core b).
Definition bam_get_qual (b : bam1_t) : Z :=
  Z.shiftl (n_cigar (core b)) 2 + l_qname (core b)
  + Z.shiftr (l_qseq (core b) + 1) 1.
Definition bam_get_aux (b : bam1_t) : Z :=
  Z.shiftl (n_cigar (core b)) 2 + l_qname (core b)
  + Z.shiftr (l_qseq (core b) + 1) 1 + l_qseq (core b).

Definition BAM_FPAIRED : Z := 1.
Definition BAM_FPROPER_PAIR : Z := 2.
Definition BAM_FUNMAP : Z := 4.
Definition BAM_FMUNMAP : Z := 8.
Definition BAM_FREVERSE : Z := 16.
Definition BAM_FMREVERSE : Z := 32.
Definition BAM_FREAD1 : Z := 64.
Definition BAM_FREAD2 : Z := 128.
Definition BAM_FSECONDARY : Z := 256.
Definition BAM_FQCFAIL : Z := 512.
Definition BAM_FDUP : Z := 1024.
Definition BAM_FSUPPLEMENTARY : Z := 2048.

(** [c->flag & MASK] used as a condition. *)
Definition has_flag (c : bam1_core_t) (mask : Z) : bool :=
  negb (Z.land (flag c) mask =? 0).

Inductive AuxFieldHandling : Type :=
| UNSPECIFIED_AUX_HANDLING | SKIP_AUX_FIELDS | PARSE_ALL_AUX_FIELDS.

Definition AuxFieldHandling_eqb (a b : AuxFieldHandling) : bool :=
  match a, b with
  | UNSPECIFIED_AUX_HANDLING, UNSPECIFIED_AUX_HANDLING
  | SKIP_AUX_FIELDS, SKIP_AUX_FIELDS
  | PARSE_ALL_AUX_FIELDS, PARSE_ALL_AUX_FIELDS => true
  | _, _ => false
  end.

(* ================================================================== *)
(** ** The aux-field decoder *)

(** Gets the size in bytes for a SAM/BAM aux tag based on its declared
    type; a value < 0 if the type is not one of the expected ones. *)
Definition HtslibAuxSize (type : Z) : Z :=
  if (type =? chr "A") || (type =? chr "c") || (type =? chr "C") then 1
  else if (type =? chr "s") || (type =? chr "S") then 2
  else if (type =? chr "f") || (type =? chr "i") || (type =? chr "I") then 4
  else -1.

(** htslib's [bam_aux2i]: [p] points at the type byte. The result is the
    value and whether [errno] was set to [EINVAL]. *)
Definition bam_aux2i (data : list Z) (p : Z) : outcome (Z * bool) :=
  type ← load data p;
  if type =? chr "c" then b ← load data (p + 1); Ret (int8 b, false)
  else if type =? chr "C" then b ← load data (p + 1); Ret (b, false)
  else if type =? chr "s" then v ← le_to_u16 data (p + 1); Ret (int16 v, false)
  else if type =? chr "S" then v ← le_to_u16 data (p + 1); Ret (v, false)
  else if type =? chr "i" then v ← le_to_u32 data (p + 1); Ret (int32 v, false)
  else if type =? chr "I" then v ← le_to_u32 data (p + 1); Ret (v, false)
  else Ret (0, true).

(** [for (; s < end && *s; ++s) {}] over the bytes from [s] on: the
    offset of the first NUL, or [end]. *)
Fixpoint scan_nul (rest : list Z) (s : Z) : Z :=
  match rest with
  | [] => s
  | b :: rest' => if b =? 0 then s else scan_nul rest' (s + 1)
  end.

(** The C string at offset [s] whose terminator is at offset [e]. *)
Definition c_string (data : list Z) (s e : Z) : string :=
  string_of_bytes (take (Z.to_nat (e - s)) (drop (Z.to_nat s) data)).

(** What one turn of the decoding loop does with the cursor. *)
Inductive aux_step : Type :=
| Continue (s : Z) (read_message : Read)
| Return (status : Status) (read_message : Read).

(** The body of [while (end - s >= 4)], entered with cursor [s]. *)
Definition aux_field (data : list Z) (s : Z) (read_message : Read)
  : outcome aux_step :=
  let end_ := Z.of_nat (length data) in
  t0 ← load data s;
  t1 ← load data (s + 1);
  let tag := string_of_bytes [t0; t1] in
  let s := s + 2 in
  type ← load data s;
  let s := s + 1 in
  if type =? chr "A" then
    v ← load data s;
    Ret (Continue (s + 1)
           (SetInfoField tag (StringValue (string_of_bytes [v])) read_message))
  else if (type =? chr "C") || (type =? chr "c") || (type =? chr "S")
          || (type =? chr "s") || (type =? chr "I") || (type =? chr "i") then
    let size := HtslibAuxSize type in
    if (size <? 0) || (end_ - s <? size) then
      Ret (Return (errors_DataLoss ("Malformed tag " +:+ tag)) read_message)
    else
      '(v, einval) ← bam_aux2i data (s - 1);
      let value := int32 v in
      if (value =? 0) && einval then
        Ret (Return (errors_DataLoss ("Malformed tag " +:+ tag)) read_message)
      else
        Ret (Continue (s + size)
               (SetInfoField tag (IntValue value) read_message))
  else if type =? chr "f" then
    if end_ - s <? 4 then
      Ret (Return (errors_DataLoss ("Malformed tag " +:+ tag)) read_message)
    else
      bits ← le_to_u32 data s;
      Ret (Continue (s + 4) (SetInfoField tag (FloatValue bits) read_message))
  else if (type =? chr "Z") || (type =? chr "H") then
    let value := s in
    let s := scan_nul (drop (Z.to_nat s) data) s in
    if s >=? end_ then
      Ret (Return (errors_DataLoss ("Malformed tag " +:+ tag)) read_message)
    else
      Ret (Continue (s + 1)
             (if type =? chr "Z"
              then SetInfoField tag (StringValue (c_string data value s))
                     read_message
              else read_message))
  else if type =? chr "B" then
    sub_type ← load data s;
    let s := s + 1 in
    let element_size := HtslibAuxSize sub_type in
    if element_size <? 0 then
      Ret (Return (errors_DataLoss ("element_size == 0 for tag " +:+ tag))
             read_message)
    else if end_ - s <? 4 then
      Ret (Return (errors_DataLoss ("data too short for tag " +:+ tag))
             read_message)
    else
      u ← le_to_u32 data s;
      let n_elements := int32 u in
      if n_elements =? 0 then
        Ret (Return (errors_DataLoss "n_elements is zero") read_message)
      else
        Ret (Continue (s + int32 (4 + int32 (n_elements * element_size)))
               read_message)
  else
    Ret (Return (errors_DataLoss ("Unknown tag " +:+ tag)) read_message).

(** [while (end - s >= 4) { ... } return OK;]  The message is returned
    with the status because the caller keeps it whatever the status. *)
Fixpoint aux_loop (fuel : nat) (data : list Z) (s : Z) (read_message : Read)
  : outcome (Status * Read) :=
  if Z.of_nat (length data) - s >=? 4 then
    match fuel with
    | O => OutOfFuel
    | S fuel' =>
        st ← aux_field data s read_message;
        match st with
        | Continue s' m' => aux_loop fuel' data s' m'
        | Return status m' => Ret (status, m')
        end
    end
  else Ret (Status_OK, read_message).

(** Modelled from the spec: the requirements message is not in this file;
    "optional read-acceptance requirements (e.g., minimum base quality with
    an enforcement-responsibility flag)". *)
Inductive MinBaseQualityMode : Type :=
| UNSPECIFIED | ENFORCED_BY_CLIENT | ENFORCED_BY_READER.

Record ReadRequirements : Type := mkRequirements {
  min_mapping_quality : Z;
  min_base_quality : Z;
  min_base_quality_mode : MinBaseQualityMode
}.

(** A [double] is the rational it denotes (the sampler's fraction is
    finite, between 0 and 1). *)
Record SamReaderOptions : Type := mkOptions {
  aux_field_handling : AuxFieldHandling;
  downsample_fraction : Q;
  random_seed : Z;
  read_requirements : option ReadRequirements;
  hts_block_size : Z
}.

Definition ParseAuxFields (fuel : nat) (b : bam1_t) (options : SamReaderOptions)
    (read_message : Read) : outcome (Status * Read) :=
  if negb (AuxFieldHandling_eqb (aux_field_handling options)
             PARSE_ALL_AUX_FIELDS)
  then Ret (Status_OK, read_message)
  else aux_loop fuel (data b) (bam_get_aux b) read_message.

(* ================================================================== *)
(** ** The record converter *)

Record bam_hdr_t : Type := mkHdr {
  n_targets : Z;
  target_name : list string;
  target_len : list Z;
  text : string
}.

(** [a[i]] for a C array holding the elements of [a]. *)
Definition array_get {A} (a : list A) (i : Z) : outcome A :=
  if i <? 0 then Fault BadIndex
  else match a !! Z.to_nat i with
       | Some x => Ret x
       | None => Fault BadIndex
       end.

(** A [const char*] at offset [s] used as a string: the bytes up to the
    first NUL. *)
Definition load_c_string (data : list Z) (s : Z) : outcome string :=
  if s <? 0 then Fault ReadBeforeStart
  else
    let e := scan_nul (drop (Z.to_nat s) data) s in
    if e >=? Z.of_nat (length data) then Fault ReadPastEnd
    else Ret (c_string data s e).

(** htslib: [seq_nt16_str] and [bam_seqi]. *)
Definition seq_nt16_str : list ascii :=
  list_ascii_of_string "=ACMGRSVTWYHKDBN".

Definition bam_seqi (data : list Z) (seq i : Z) : outcome Z :=
  b ← load data (seq + Z.shiftr i 1);
  Ret (Z.land (Z.shiftr b (Z.shiftl (Z.land (Z.lnot i) 1) 2)) 15).

Definition bam_cigar_op (c : Z) : Z := Z.land c 15.
Definition bam_cigar_oplen (c : Z) : Z := Z.shiftr c 4.

(** Modelled from the spec: the table of sam_utils.h is not in this file;
    "operation kind (enumerated: match, insertion, deletion, skip,
    soft-clip, hard-clip, padding, sequence-match, sequence-mismatch)",
    indexed by htslib's operation code. *)
Definition kHtslibCigarToProto : list CigarUnit_Operation :=
  [ALIGNMENT_MATCH; INSERT; DELETE; SKIP; CLIP_SOFT; CLIP_HARD; PAD;
   SEQUENCE_MATCH; SEQUENCE_MISMATCH].

(** [if (c->l_qseq) { ... }]: the sequence and the qualities. *)
Definition convert_sequence (b : bam1_t) (read_message : Read) : outcome Read :=
  let c := core b in
  if l_qseq c =? 0 then Ret read_message
  else
    let seq := bam_get_seq b in
    read_seq ← mapM (fun i => x ← bam_seqi (data b) seq i;
                              array_get seq_nt16_str x)
                    (seqZ 0 (l_qseq c));
    let read_message :=
      set_aligned_sequence (string_of_list_ascii read_seq) read_message in
    let quals := bam_get_qual b in
    q0 ← load (data b) quals;
    if q0 =? 255 then Ret read_message
    else
      quality ← mapM (fun i => load (data b) (quals + i)) (seqZ 0 (l_qseq c));
      Ret (set_aligned_quality quality read_message).

Definition convert_cigar (b : bam1_t) : outcome (list CigarUnit) :=
  let c := core b in
  let cigar := bam_get_cigar b in
  mapM (fun i => w ← le_to_u32 (data b) (cigar + 4 * i);
                 op ← array_get kHtslibCigarToProto (bam_cigar_op w);
                 Ret (mkCigarUnit op (bam_cigar_oplen w)))
       (seqZ 0 (n_cigar c)).

(** [if (!(c->flag & BAM_FUNMAP)) { ... }]: the mapping information. *)
Definition convert_alignment (h : bam_hdr_t) (b : bam1_t) (read_message : Read)
  : outcome Read :=
  let c := core b in
  if has_flag c BAM_FUNMAP then Ret read_message
  else
    units ← convert_cigar b;
    if tid c >=? 0 then
      name ← array_get (target_name h) (tid c);
      Ret (set_alignment
             (Some (mkLinearAlignment (qual c) units
                      (Some (mkPosition name (pos c)
                               (has_flag c BAM_FREVERSE)))))
             read_message)
    else
      Ret (set_alignment (Some (mkLinearAlignment (qual c) units None))
             read_message).

(** The process-wide state [ConvertToPb] touches: its static counter and
    the warnings written so far. *)
Record LogState : Type := mkLog { counter : Z; warnings : list string }.

Definition Code_name (c : Code) : string :=
  match c with
  | OK => "OK"
  | DataLoss => "Data loss"
  | FailedPrecondition => "Failed precondition"
  | NotFound => "Not found"
  | Internal => "Internal"
  | InvalidArgument => "Invalid argument"
  | Unknown => "Unknown"
  end.

Definition Status_ToString (st : Status) : string :=
  if ok st then "OK" else Code_name (code st) +:+ ": " +:+ error_message st.

Section Converter.

(** protobuf's text rendering of a message, used in one error message. *)
Variable ShortDebugString : Read -> string.

(** Lines 337-356: clear the output and copy the basic fields. *)
Definition convert_basic (b : bam1_t) : outcome Read :=
  let c := core b in
  name ← load_c_string (data b) (bam_get_qname b);
  let paired := has_flag c BAM_FPAIRED in
  Ret (mkRead name (isize c)
         (has_flag c BAM_FPROPER_PAIR)
         (has_flag c BAM_FDUP)
         (has_flag c BAM_FQCFAIL)
         (has_flag c BAM_FSECONDARY)
         (has_flag c BAM_FSUPPLEMENTARY)
         (if has_flag c BAM_FREAD1 || negb paired then 0 else 1)
         (if paired then 2 else 1)
         (aligned_sequence Read_Clear) (aligned_quality Read_Clear)
         (alignment Read_Clear) (next_mate_position Read_Clear)
         (info Read_Clear)).

(** Lines 337-402: everything before the mate's position. *)
Definition convert_fields (h : bam_hdr_t) (b : bam1_t) : outcome Read :=
  read_message ← convert_basic b;
  read_message ← convert_sequence b read_message;
  convert_alignment h b read_message.

(** Lines 404-414: the mate's position. A status that is not OK is the
    early [return]. *)
Definition convert_mate (h : bam_hdr_t) (b : bam1_t) (read_message : Read)
  : outcome (Status * Read) :=
  let c := core b in
  if has_flag c BAM_FPAIRED && negb (has_flag c BAM_FMUNMAP) then
    let read_message :=
      set_next_mate_position (Some Position_default) read_message in
    if mtid c <? 0 then
      Ret (errors_DataLoss
             ("Expected mtid >= 0 as mate is supposedly mapped: "
              +:+ ShortDebugString read_message),
           read_message)
    else
      name ← array_get (target_name h) (mtid c);
      Ret (Status_OK,
           set_next_mate_position
             (Some (mkPosition name (mpos c) (has_flag c BAM_FMREVERSE)))
             read_message)
  else Ret (Status_OK, read_message).

(** Lines 416-427: the aux fields; a failure is logged the first time. *)
Definition convert_aux (fuel : nat) (b : bam1_t) (options : SamReaderOptions)
    (read_message : Read) (g : LogState)
  : outcome (Status * Read * LogState) :=
  '(status, read_message) ← ParseAuxFields fuel b options read_message;
  if negb (ok status) then
    let g' := mkLog (int32 (counter g + 1)) (warnings g) in
    if counter g <? 1 then
      name ← load_c_string (data b) (bam_get_qname b);
      Ret (Status_OK, read_message,
           mkLog (counter g')
             (warnings g ++ ["Aux field parsing failure in read " +:+ name
                             +:+ ": " +:+ Status_ToString status]))
    else Ret (Status_OK, read_message, g')
  else Ret (Status_OK, read_message, g).

(** [read_message] is the caller's object as it is on entry; the result
    carries it as it is on return, whatever the status. *)
Definition ConvertToPb (fuel : nat) (h : bam_hdr_t) (b : bam1_t)
    (options : SamReaderOptions) (read_message : Read) (g : LogState)
  : outcome (Status * Read * LogState) :=
  read_message ← convert_fields h b;
  '(status, read_message) ← convert_mate h b read_message;
  if negb (ok status) then Ret (status, read_message, g)
  else convert_aux fuel b options read_message g.

End Converter.

(* ================================================================== *)
(** ** The keep-predicate and the iteration engine *)

Inductive StatusOr (A : Type) : Type :=
| Value (a : A)
| Error (st : Status).
Arguments Value {A} a.
Arguments Error {A} st.

Section Iteration.

Variable ShortDebugString : Read -> string.

(** [ReadSatisfiesRequirements] is declared in another file. *)
Variable ReadSatisfiesRequirements : Read -> ReadRequirements -> bool.

(** The random generator the sampler owns, seeded at construction, and
    its uniform draw from [0, 1). *)
Variable Generator : Type.
Variable seed_generator : Z -> Generator.
Variable uniform : Generator -> Q * Generator.

(** Modelled from the spec: the sampler class is not in this file;
    "configured with a fraction in [0,1] and a seed". *)
Record FractionalSampler : Type := mkSampler {
  fraction_ : Q;
  generator_ : Generator
}.

(** [sampler_(options.downsample_fraction(), options.random_seed())] *)
Definition make_sampler (options : SamReaderOptions) : FractionalSampler :=
  mkSampler (downsample_fraction options)
    (seed_generator (random_seed options)).

(** Modelled from the spec: the sampler class is not in this file;
    "Keep() returns true with probability fraction using the seeded
    generator's state, advancing its internal state exactly once per
    call": one draw, kept when it is at most the fraction. *)
Definition Keep (sampler : FractionalSampler) : bool * FractionalSampler :=
  let '(u, g') := uniform (generator_ sampler) in
  (Qle_bool u (fraction_ sampler), mkSampler (fraction_ sampler) g').

(** Returns true if read should be returned to the client.  The sampler
    is [mutable]: its state after the call is returned too. *)
Definition KeepRead (options : SamReaderOptions) (sampler : FractionalSampler)
    (read : Read) : bool * FractionalSampler :=
  if match read_requirements options with
     | None => true
     | Some requirements => ReadSatisfiesRequirements read requirements
     end
  then
    if Qeq_bool (downsample_fraction options) 0 then (true, sampler)
    else Keep sampler
  else (false, sampler).

(** The decisions taken for a sequence of records, in order. *)
Fixpoint keep_decisions (options : SamReaderOptions)
    (sampler : FractionalSampler) (reads : list Read) : list bool :=
  match reads with
  | [] => []
  | read :: reads' =>
      let '(keep, sampler') := KeepRead options sampler read in
      keep :: keep_decisions options sampler' reads'
  end.

(** The underlying cursor: what the successive calls of
    [next_sam_record()] return and load into [bam1_]; once the list is
    used up the stream is at its end and the call returns -1. *)
Definition cursor_t : Type := list (Z * bam1_t).

Record IterState : Type := mkIter {
  cursor : cursor_t;
  sampler_ : FractionalSampler;
  log_ : LogState
}.

(** The loop of [Next]: do ... while the record read is not kept. *)
Fixpoint Next_loop (fuel : nat) (h : bam_hdr_t) (options : SamReaderOptions)
    (cur : cursor_t) (out : Read) (sampler : FractionalSampler)
    (g : LogState) : outcome (StatusOr bool * Read * IterState) :=
  match cur with
  | [] => Ret (Value false, out, mkIter [] sampler g)
  | (code, b) :: cur' =>
      if code =? -1 then Ret (Value false, out, mkIter cur' sampler g)
      else if code <? -1 then
        Ret (Error (errors_DataLoss "Failed to parse SAM record"), out,
             mkIter cur' sampler g)
      else
        '(status, out, g) ← ConvertToPb ShortDebugString fuel h b options out g;
        if negb (ok status) then Ret (Error status, out, mkIter cur' sampler g)
        else
          let '(keep, sampler) := KeepRead options sampler out in
          if keep then Ret (Value true, out, mkIter cur' sampler g)
          else Next_loop fuel h options cur' out sampler g
  end.

(** Modelled from the spec: [CheckIsAlive] belongs to the iterable base
    class, which is not in this file; "calling any operation after
    Close() fails rather than reopening". *)
Definition CheckIsAlive (alive : bool) : Status :=
  if alive then Status_OK
  else errors_FailedPrecondition "Reader is not alive".

Definition Next (fuel : nat) (alive : bool) (h : bam_hdr_t)
    (options : SamReaderOptions) (it : IterState) (out : Read)
  : outcome (StatusOr bool * Read * IterState) :=
  if negb (ok (CheckIsAlive alive)) then
    Ret (Error (CheckIsAlive alive), out, it)
  else Next_loop fuel h options (cursor it) out (sampler_ it) (log_ it).

End Iteration.

Arguments mkSampler {Generator} _ _.
Arguments fraction_ {Generator} _.
Arguments generator_ {Generator} _.
Arguments make_sampler {Generator} _ _.
Arguments Keep {Generator} _ _.
Arguments KeepRead _ {Generator} _ _ _ _.
Arguments keep_decisions _ {Generator} _ _ _ _.
Arguments mkIter {Generator} _ _ _.
Arguments cursor {Generator} _.
Arguments sampler_ {Generator} _.
Arguments log_ {Generator} _.
Arguments Next_loop _ _ {Generator} _ _ _ _ _ _ _ _.
Arguments Next _ _ {Generator} _ _ _ _ _ _ _.

(* ================================================================== *)
(** ** The reader: Iterate, Query, Close *)

Record Range : Type := mkRange {
  range_reference_name : string;
  range_start : Z;
  range_end : Z
}.

(** htslib's [bam_name2id]: the index of the reference called [name], or
    -1 when the header has none. *)
Fixpoint name2id (names : list string) (name : string) (i : Z) : Z :=
  match names with
  | [] => -1
  | n :: names' => if String.eqb n name then i else name2id names' name (i + 1)
  end.

Definition bam_name2id (h : bam_hdr_t) (name : string) : Z :=
  name2id (target_name h) name 0.

(** [s.c_str()] as the C library reads it: the characters before the
    first NUL of [s]. *)
Fixpoint c_str (s : string) : string :=
  match s with
  | EmptyString => EmptyString
  | String c s' =>
      if Ascii.eqb c Ascii.zero then EmptyString else String c (c_str s')
  end.

Section Reader.

(** The handles of the underlying library, and the two calls of it whose
    result the reader inspects. *)
Variables htsFile hts_idx_t hts_itr_t : Type.
Variable sam_itr_queryi : hts_idx_t -> Z -> Z -> Z -> option hts_itr_t.
Variable hts_close : htsFile -> Z.

(** The handle members of [SamReader]; [None] is [nullptr]. *)
Record SamReader : Type := mkReader {
  fp_ : option htsFile;
  header_ : option bam_hdr_t;
  idx_ : option hts_idx_t
}.

Inductive SamIterable : Type :=
| SamFullFileIterable (fp : htsFile) (header : option bam_hdr_t)
| SamQueryIterable (fp : htsFile) (header : option bam_hdr_t)
    (iter : hts_itr_t).

Definition Iterate (r : SamReader) : StatusOr SamIterable :=
  match fp_ r with
  | None =>
      Error (errors_FailedPrecondition "Cannot Iterate a closed SamReader.")
  | Some fp => Value (SamFullFileIterable fp (header_ r))
  end.

Definition Query (RangeDebugString : Range -> string) (r : SamReader)
    (region : Range) : outcome (StatusOr SamIterable) :=
  match fp_ r with
  | None =>
      Ret (Error (errors_FailedPrecondition "Cannot Query a closed SamReader."))
  | Some fp =>
      match idx_ r with
      | None =>
          Ret (Error (errors_FailedPrecondition "Cannot query without an index"))
      | Some idx =>
          match header_ r with
          | None => Fault NullDereference
          | Some h =>
              let tid := bam_name2id h (c_str (range_reference_name region)) in
              if tid <? 0 then
                Ret (Error (errors_NotFound
                              ("Unknown reference_name "
                               +:+ RangeDebugString region)))
              else
                match sam_itr_queryi idx tid (range_start region)
                        (range_end region) with
                | None =>
                    Ret (Error (errors_NotFound
                                  ("region '" +:+ RangeDebugString region
                                   +:+ "' specifies an unknown reference interval")))
                | Some iter => Ret (Value (SamQueryIterable fp (header_ r) iter))
                end
          end
      end
  end.

(** [hts_close(fp_)] dereferences its argument. *)
Definition Close (r : SamReader) : outcome (Status * SamReader) :=
  match fp_ r with
  | None => Fault NullDereference
  | Some fp =>
      let retval := hts_close fp in
      Ret (if retval <? 0 then errors_Internal "hts_close() failed"
           else Status_OK,
           mkReader None None None)
  end.

End Reader.

Arguments mkReader {htsFile hts_idx_t} _ _ _.
Arguments fp_ {htsFile hts_idx_t} _.
Arguments header_ {htsFile hts_idx_t} _.
Arguments idx_ {htsFile hts_idx_t} _.
Arguments SamFullFileIterable {htsFile hts_itr_t} _ _.
Arguments SamQueryIterable {htsFile hts_itr_t} _ _ _.
Arguments Iterate {htsFile hts_idx_t hts_itr_t} _.
Arguments Query {htsFile hts_idx_t hts_itr_t} _ _ _ _.
Arguments Close {htsFile hts_idx_t} _ _.

(* ================================================================== *)
(** ** The header parser (run by the constructor of SamReader) *)

(** [s.substr(pos)] and [s.substr(pos, n)], for [std::string] and for
    [string_view]: a position past the end of the string is an error. *)
Definition substr (s : string) (pos : nat) : outcome string :=
  if (String.length s <? pos)%nat then Fault OutOfRange
  else Ret (substring pos (String.length s - pos) s).

Definition substr_n (s : string) (pos n : nat) : outcome string :=
  if (String.length s <? pos)%nat then Fault OutOfRange
  else Ret (substring pos n s).

(** [absl::StrSplit(s, sep)]: the pieces between the separators; never
    empty, and empty pieces are kept. *)
Fixpoint StrSplit (s : string) (sep : ascii) : list string :=
  match s with
  | EmptyString => [EmptyString]
  | String c s' =>
      if Ascii.eqb c sep then EmptyString :: StrSplit s' sep
      else match StrSplit s' sep with
           | piece :: pieces => String c piece :: pieces
           | [] => [String c EmptyString]
           end
  end.

(** [absl::SimpleAtoi] into an [int]: white space around the number is
    dropped, a sign may come first, at least one decimal digit must follow
    and nothing else, and the value must fit 32 bits. *)
Definition ascii_isspace (c : ascii) : bool :=
  let n := chr c in
  (n =? 32) || ((9 <=? n) && (n <=? 13)).

Fixpoint strip_leading (l : list ascii) : list ascii :=
  match l with
  | c :: l' => if ascii_isspace c then strip_leading l' else l
  | [] => []
  end.

Fixpoint parse_digits (l : list ascii) (acc : Z) : option Z :=
  match l with
  | [] => Some acc
  | c :: l' =>
      let n := chr c in
      if (48 <=? n) && (n <=? 57) then parse_digits l' (10 * acc + (n - 48))
      else None
  end.

Definition SimpleAtoi (s : string) : option Z :=
  let l := rev (strip_leading (rev (strip_leading (list_ascii_of_string s)))) in
  let '(negative, digits) :=
    match l with
    | c :: l' => if Ascii.eqb c "-" then (true, l')
                 else if Ascii.eqb c "+" then (false, l') else (false, l)
    | [] => (false, [])
    end in
  match digits with
  | [] => None
  | _ =>
      match parse_digits digits 0 with
      | Some v =>
          let v := if negative then - v else v in
          if (- 2 ^ 31 <=? v) && (v <? 2 ^ 31) then Some v else None
      | None => None
      end
  end.

Inductive SamHeader_SortingOrder : Type :=
| SO_UNKNOWN | SO_UNSORTED | SO_QUERYNAME | SO_COORDINATE.

Inductive SamHeader_AlignmentGrouping : Type :=
| GO_NONE | GO_QUERY | GO_REFERENCE.

Record ReadGroup : Type := mkReadGroup {
  rg_name : string;
  sequencing_center : string;
  rg_description : string;
  date : string;
  flow_order : string;
  key_sequence : string;
  library_id : string;
  program_ids : list string;
  predicted_insert_size : Z;
  platform : string;
  platform_model : string;
  platform_unit : string;
  sample_id : string
}.

Record Program : Type := mkProgram {
  pg_id : string;
  pg_name : string;
  command_line : string;
  prev_program_id : string;
  pg_description : string;
  pg_version : string
}.

Record ContigInfo : Type := mkContig {
  contig_name : string;
  n_bases : Z;
  pos_in_fasta : Z
}.

Record SamHeader : Type := mkSamHeader {
  format_version : string;
  sorting_order : SamHeader_SortingOrder;
  alignment_grouping : SamHeader_AlignmentGrouping;
  read_groups : list ReadGroup;
  programs : list Program;
  comments : list string;
  contigs : list ContigInfo
}.

Definition ReadGroup_default : ReadGroup :=
  mkReadGroup "" "" "" "" "" "" "" [] 0 "" "" "" "".
Definition Program_default : Program := mkProgram "" "" "" "" "" "".
Definition SamHeader_default : SamHeader :=
  mkSamHeader "" SO_UNKNOWN GO_NONE [] [] [] [].

Definition set_format_version (v : string) (m : SamHeader) : SamHeader :=
  let 'mkSamHeader x0 x1 x2 x3 x4 x5 x6 := m in
  mkSamHeader v x1 x2 x3 x4 x5 x6.

Definition set_sorting_order (v : SamHeader_SortingOrder) (m : SamHeader) : SamHeader :=
  let 'mkSamHeader x0 x1 x2 x3 x4 x5 x6 := m in
  mkSamHeader x0 v x2 x3 x4 x5 x6.

Definition set_alignment_grouping (v : SamHeader_AlignmentGrouping) (m : SamHeader) : SamHeader :=
  let 'mkSamHeader x0 x1 x2 x3 x4 x5 x6 := m in
  mkSamHeader x0 x1 v x3 x4 x5 x6.

Definition set_read_groups (v : list ReadGroup) (m : SamHeader) : SamHeader :=
  let 'mkSamHeader x0 x1 x2 x3 x4 x5 x6 := m in
  mkSamHeader x0 x1 x2 v x4 x5 x6.

Definition set_programs (v : list Program) (m : SamHeader) : SamHeader :=
  let 'mkSamHeader x0 x1 x2 x3 x4 x5 x6 := m in
  mkSamHeader x0 x1 x2 x3 v x5 x6.

Definition set_comments (v : list string) (m : SamHeader) : SamHeader :=
  let 'mkSamHeader x0 x1 x2 x3 x4 x5 x6 := m in
  mkSamHeader x0 x1 x2 x3 x4 v x6.

Definition set_contigs (v : list ContigInfo) (m : SamHeader) : SamHeader :=
  let 'mkSamHeader x0 x1 x2 x3 x4 x5 x6 := m in
  mkSamHeader x0 x1 x2 x3 x4 x5 v.

Definition set_rg_name (v : string) (m : ReadGroup) : ReadGroup :=
  let 'mkReadGroup x0 x1 x2 x3 x4 x5 x6 x7 x8 x9 x10 x11 x12 := m in
  mkReadGroup v x1 x2 x3 x4 x5 x6 x7 x8 x9 x10 x11 x12.

Definition set_sequencing_center (v : string) (m : ReadGroup) : ReadGroup :=
  let 'mkReadGroup x0 x1 x2 x3 x4 x5 x6 x7 x8 x9 x10 x11 x12 := m in
  mkReadGroup x0 v x2 x3 x4 x5 x6 x7 x8 x9 x10 x11 x12.

Definition set_rg_description (v : string) (m : ReadGroup) : ReadGroup :=
  let 'mkReadGroup x0 x1 x2 x3 x4 x5 x6 x7 x8 x9 x10 x11 x12 := m in
  mkReadGroup x0 x1 v x3 x4 x5 x6 x7 x8 x9 x10 x11 x12.

Definition set_date (v : string) (m : ReadGroup) : ReadGroup :=
  let 'mkReadGroup x0 x1 x2 x3 x4 x5 x6 x7 x8 x9 x10 x11 x12 := m in
  mkReadGroup x0 x1 x2 v x4 x5 x6 x7 x8 x9 x10 x11 x12.

Definition set_flow_order (v : string) (m : ReadGroup) : ReadGroup :=
  let 'mkReadGroup x0 x1 x2 x3 x4 x5 x6 x7 x8 x9 x10 x11 x12 := m in
  mkReadGroup x0 x1 x2 x3 v x5 x6 x7 x8 x9 x10 x11 x12.

Definition set_key_sequence (v : string) (m : ReadGroup) : ReadGroup :=
  let 'mkReadGroup x0 x1 x2 x3 x4 x5 x6 x7 x8 x9 x10 x11 x12 := m in
  mkReadGroup x0 x1 x2 x3 x4 v x6 x7 x8 x9 x10 x11 x12.

Definition set_library_id (v : string) (m : ReadGroup) : ReadGroup :=
  let 'mkReadGroup x0 x1 x2 x3 x4 x5 x6 x7 x8 x9 x10 x11 x12 := m in
  mkReadGroup x0 x1 x2 x3 x4 x5 v x7 x8 x9 x10 x11 x12.

Definition set_program_ids (v : list string) (m : ReadGroup) : ReadGroup :=
  let 'mkReadGroup x0 x1 x2 x3 x4 x5 x6 x7 x8 x9 x10 x11 x12 := m in
  mkReadGroup x0 x1 x2 x3 x4 x5 x6 v x8 x9 x10 x11 x12.

Definition set_predicted_insert_size (v : Z) (m : ReadGroup) : ReadGroup :=
  let 'mkReadGroup x0 x1 x2 x3 x4 x5 x6 x7 x8 x9 x10 x11 x12 := m in
  mkReadGroup x0 x1 x2 x3 x4 x5 x6 x7 v x9 x10 x11 x12.

Definition set_platform (v : string) (m : ReadGroup) : ReadGroup :=
  let 'mkReadGroup x0 x1 x2 x3 x4 x5 x6 x7 x8 x9 x10 x11 x12 := m in
  mkReadGroup x0 x1 x2 x3 x4 x5 x6 x7 x8 v x10 x11 x12.

Definition set_platform_model (v : string) (m : ReadGroup) : ReadGroup :=
  let 'mkReadGroup x0 x1 x2 x3 x4 x5 x6 x7 x8 x9 x10 x11 x12 := m in
  mkReadGroup x0 x1 x2 x3 x4 x5 x6 x7 x8 x9 v x11 x12.

Definition set_platform_unit (v : string) (m : ReadGroup) : ReadGroup :=
  let 'mkReadGroup x0 x1 x2 x3 x4 x5 x6 x7 x8 x9 x10 x11 x12 := m in
  mkReadGroup x0 x1 x2 x3 x4 x5 x6 x7 x8 x9 x10 v x12.

Definition set_sample_id (v : string) (m : ReadGroup) : ReadGroup :=
  let 'mkReadGroup x0 x1 x2 x3 x4 x5 x6 x7 x8 x9 x10 x11 x12 := m in
  mkReadGroup x0 x1 x2 x3 x4 x5 x6 x7 x8 x9 x10 x11 v.

Definition set_pg_id (v : string) (m : Program) : Program :=
  let 'mkProgram x0 x1 x2 x3 x4 x5 := m in
  mkProgram v x1 x2 x3 x4 x5.

Definition set_pg_name (v : string) (m : Program) : Program :=
  let 'mkProgram x0 x1 x2 x3 x4 x5 := m in
  mkProgram x0 v x2 x3 x4 x5.

Definition set_command_line (v : string) (m : Program) : Program :=
  let 'mkProgram x0 x1 x2 x3 x4 x5 := m in
  mkProgram x0 x1 v x3 x4 x5.

Definition set_prev_program_id (v : string) (m : Program) : Program :=
  let 'mkProgram x0 x1 x2 x3 x4 x5 := m in
  mkProgram x0 x1 x2 v x4 x5.

Definition set_pg_description (v : string) (m : Program) : Program :=
  let 'mkProgram x0 x1 x2 x3 x4 x5 := m in
  mkProgram x0 x1 x2 x3 v x5.

Definition set_pg_version (v : string) (m : Program) : Program :=
  let 'mkProgram x0 x1 x2 x3 x4 x5 := m in
  mkProgram x0 x1 x2 x3 x4 v.

(** Modelled from the spec: the tag constants of sam_utils.h are not in
    this file; "each a tab-separated sequence of TAG:VALUE tokens
    (3-character tag including colon, e.g. VN:), starting with one of a
    fixed set of 3-character line-type prefixes", with the names the SAM
    format gives them. *)
Definition kSamHeaderTag : string := "@HD".
Definition kSamReferenceSequenceTag : string := "@SQ".
Definition kSamReadGroupTag : string := "@RG".
Definition kSamProgramTag : string := "@PG".
Definition kSamCommentTag : string := "@CO".
Definition kVNTag : string := "VN:".
Definition kSOTag : string := "SO:".
Definition kGOTag : string := "GO:".
Definition kIDTag : string := "ID:".
Definition kCNTag : string := "CN:".
Definition kDSTag : string := "DS:".
Definition kDTTag : string := "DT:".
Definition kFOTag : string := "FO:".
Definition kKSTag : string := "KS:".
Definition kLBTag : string := "LB:".
Definition kPGTag : string := "PG:".
Definition kPITag : string := "PI:".
Definition kPLTag : string := "PL:".
Definition kPMTag : string := "PM:".
Definition kPUTag : string := "PU:".
Definition kSMTag : string := "SM:".
Definition kPNTag : string := "PN:".
Definition kCLTag : string := "CL:".
Definition kPPTag : string := "PP:".

Definition tab : ascii := ascii_of_nat 9.
Definition newline : ascii := ascii_of_nat 10.

Definition sorting_order_map (value : string)
  : option SamHeader_SortingOrder :=
  if String.eqb value "coordinate" then Some SO_COORDINATE
  else if String.eqb value "queryname" then Some SO_QUERYNAME
  else if String.eqb value "unknown" then Some SO_UNKNOWN
  else if String.eqb value "unsorted" then Some SO_UNSORTED
  else None.

Definition alignment_grouping_map (value : string)
  : option SamHeader_AlignmentGrouping :=
  if String.eqb value "none" then Some GO_NONE
  else if String.eqb value "query" then Some GO_QUERY
  else if String.eqb value "reference" then Some GO_REFERENCE
  else None.

(** A [for] loop over a range, threading the state it updates. *)
Fixpoint for_each {A S : Type} (body : A -> S -> outcome S) (l : list A)
    (st : S) : outcome S :=
  match l with
  | [] => Ret st
  | a :: l' => st' ← body a st; for_each body l' st'
  end.

(** The body of the loop of [AddHeaderLineToHeader]; the state is the
    header and the warnings logged so far. *)
Definition header_line_token (line token : string)
    (st : SamHeader * list string) : outcome (SamHeader * list string) :=
  let '(header, log) := st in
  if String.eqb token kSamHeaderTag then Ret st
  else
    tag ← substr_n token 0 3;
    value ← substr token 3;
    if String.eqb tag kVNTag then Ret (set_format_version value header, log)
    else if String.eqb tag kSOTag then
      match sorting_order_map value with
      | None =>
          Ret (set_sorting_order SO_UNKNOWN header,
               log ++ ["Unknown sorting order, defaulting to unknown: "
                       +:+ line])
      | Some order => Ret (set_sorting_order order header, log)
      end
    else if String.eqb tag kGOTag then
      match alignment_grouping_map value with
      | None =>
          Ret (set_alignment_grouping GO_NONE header,
               log ++ ["Unknown alignment grouping, defaulting to none: "
                       +:+ line])
      | Some grouping => Ret (set_alignment_grouping grouping header, log)
      end
    else if String.eqb tag kSamHeaderTag then Ret st
    else
      Ret (header,
           log ++ ["Unknown tag " +:+ tag +:+ " in header line, ignoring: "
                   +:+ line]).

Definition AddHeaderLineToHeader (line : string) (header : SamHeader)
    (log : list string) : outcome (SamHeader * list string) :=
  for_each (header_line_token line) (StrSplit line tab) (header, log).

(** The body of the loop of [AddReadGroupToHeader]. *)
Definition read_group_token (line token : string)
    (st : ReadGroup * list string) : outcome (ReadGroup * list string) :=
  let '(readgroup, log) := st in
  if String.eqb token kSamReadGroupTag then Ret st
  else
    tag ← substr_n token 0 3;
    value ← substr token 3;
    if String.eqb tag kIDTag then Ret (set_rg_name value readgroup, log)
    else if String.eqb tag kCNTag then
      Ret (set_sequencing_center value readgroup, log)
    else if String.eqb tag kDSTag then
      Ret (set_rg_description value readgroup, log)
    else if String.eqb tag kDTTag then Ret (set_date value readgroup, log)
    else if String.eqb tag kFOTag then Ret (set_flow_order value readgroup, log)
    else if String.eqb tag kKSTag then
      Ret (set_key_sequence value readgroup, log)
    else if String.eqb tag kLBTag then Ret (set_library_id value readgroup, log)
    else if String.eqb tag kPGTag then
      Ret (set_program_ids (program_ids readgroup ++ [value]) readgroup, log)
    else if String.eqb tag kPITag then
      match SimpleAtoi value with
      | None => Fault CheckFailure
      | Some size => Ret (set_predicted_insert_size size readgroup, log)
      end
    else if String.eqb tag kPLTag then Ret (set_platform value readgroup, log)
    else if String.eqb tag kPMTag then
      Ret (set_platform_model value readgroup, log)
    else if String.eqb tag kPUTag then
      Ret (set_platform_unit value readgroup, log)
    else if String.eqb tag kSMTag then Ret (set_sample_id value readgroup, log)
    else
      Ret (readgroup,
           log ++ ["Unknown tag " +:+ tag +:+ " in RG line, ignoring: "
                   +:+ line]).

Definition AddReadGroupToHeader (line : string) (readgroup : ReadGroup)
    (log : list string) : outcome (ReadGroup * list string) :=
  for_each (read_group_token line) (StrSplit line tab) (readgroup, log).

(** The body of the loop of [AddProgramToHeader]. *)
Definition program_token (line token : string) (program : Program)
  : outcome Program :=
  if String.eqb token kSamProgramTag then Ret program
  else
    tag ← substr_n token 0 3;
    value ← substr token 3;
    if String.eqb tag kIDTag then Ret (set_pg_id value program)
    else if String.eqb tag kPNTag then Ret (set_pg_name value program)
    else if String.eqb tag kCLTag then Ret (set_command_line value program)
    else if String.eqb tag kPPTag then Ret (set_prev_program_id value program)
    else if String.eqb tag kDSTag then Ret (set_pg_description value program)
    else if String.eqb tag kVNTag then Ret (set_pg_version value program)
    else Ret program.

Definition AddProgramToHeader (line : string) (program : Program)
  : outcome Program :=
  for_each (program_token line) (StrSplit line tab) program.

(** The body of the loop over the header lines in the constructor. *)
Definition header_line (line : string) (st : SamHeader * list string)
  : outcome (SamHeader * list string) :=
  let '(sam_header, log) := st in
  header_tag ← substr_n line 0 3;
  if String.eqb header_tag kSamHeaderTag then
    AddHeaderLineToHeader line sam_header log
  else if String.eqb header_tag kSamReferenceSequenceTag then Ret st
  else if String.eqb header_tag kSamReadGroupTag then
    '(readgroup, log) ← AddReadGroupToHeader line ReadGroup_default log;
    Ret (set_read_groups (read_groups sam_header ++ [readgroup]) sam_header,
         log)
  else if String.eqb header_tag kSamProgramTag then
    program ← AddProgramToHeader line Program_default;
    Ret (set_programs (programs sam_header ++ [program]) sam_header, log)
  else if String.eqb header_tag kSamCommentTag then
    comment ← substr line 4;
    Ret (set_comments (comments sam_header ++ [comment]) sam_header, log)
  else
    Ret (sam_header,
         log ++ ["Unrecognized SAM header type, ignoring: " +:+ line]).

(** The contig of index [i], from the header's tables. *)
Definition add_contig (h : bam_hdr_t) (i : Z) (sam_header : SamHeader)
  : outcome SamHeader :=
  name ← array_get (target_name h) i;
  len ← array_get (target_len h) i;
  Ret (set_contigs (contigs sam_header ++ [mkContig name len i]) sam_header).

(** What the constructor of [SamReader] makes of [header_]: the parsed
    header [sam_header_] and the warnings logged on the way. *)
Definition SamReader_sam_header (h : bam_hdr_t)
  : outcome (SamHeader * list string) :=
  '(sam_header, log) ←
    for_each header_line (StrSplit (text h) newline) (SamHeader_default, []);
  sam_header ← for_each (add_contig h) (seqZ 0 (n_targets h)) sam_header;
  Ret (sam_header, log).

(* ================================================================== *)
(** ** Notions used to state the properties *)

(** The decoder gets from cursor [s] with message [m] to cursor [s'] with
    message [m'] by decoding whole fields. *)
Inductive reaches (data : list Z) : Z -> Read -> Z -> Read -> Prop :=
| reaches_here s m : reaches data s m s m
| reaches_field s m s1 m1 s' m' :
    Z.of_nat (length data) - s >= 4 ->
    aux_field data s m = Ret (Continue s1 m1) ->
    reaches data s1 m1 s' m' ->
    reaches data s m s' m'.

(** The bytes from offset [s] to the end of the buffer begin a field but
    are not a whole one: with [k] bytes left, the tag or the type byte is
    cut ([k < 3]); or a value of fixed size is cut ([k] below 3 plus the
    size of the type); or a string has no terminator; or an array is cut
    in its sub-type and count ([k < 8]) or in its elements. *)
Definition field_truncated (data : list Z) (s : Z) : bool :=
  let k := Z.of_nat (length data) - s in
  (0 <? k) &&
  ((k <? 3) ||
   match load data (s + 2) with
   | Ret type =>
       if (type =? chr "Z") || (type =? chr "H") then
         forallb (fun b => negb (b =? 0)) (drop (Z.to_nat (s + 3)) data)
       else if type =? chr "B" then
         (k <? 8) ||
         match load data (s + 3), le_to_u32 data (s + 4) with
         | Ret sub_type, Ret count =>
             (0 <=? HtslibAuxSize sub_type)
             && (k <? 8 + count * HtslibAuxSize sub_type)
         | _, _ => false
         end
       else (0 <=? HtslibAuxSize type) && (k <? 3 + HtslibAuxSize type)
   | _ => false
   end).

(** The field at [s] is an array whose sub-type and count are whole. *)
Definition array_header_whole (data : list Z) (s : Z) : bool :=
  match load data (s + 2) with
  | Ret type => (type =? chr "B") && (8 <=? Z.of_nat (length data) - s)
  | _ => false
  end.

(** A computation that did not read at or after the end of the buffer. *)
Definition not_past_end {A} (o : outcome A) : Prop := o <> Fault ReadPastEnd.

(** A computation that ran to its end: no fault, and fuel to spare. *)
Definition returns {A} (o : outcome A) : Prop := exists a, o = Ret a.

(** Options that ask for the aux fields, and a record that is nothing but
    its aux bytes. *)
Definition parse_all : SamReaderOptions :=
  mkOptions PARSE_ALL_AUX_FIELDS 0 0 None 0.

Definition aux_only (bytes : list Z) : bam1_t :=
  mkBam (mkCore 0 0 0 0 0 0 0 0 0 0) bytes.

(** The decoder writes to the info map only. *)
Definition same_but_info (m m' : Read) : Prop :=
  fragment_name m' = fragment_name m
  /\ fragment_length m' = fragment_length m
  /\ proper_placement m' = proper_placement m
  /\ duplicate_fragment m' = duplicate_fragment m
  /\ failed_vendor_quality_checks m' = failed_vendor_quality_checks m
  /\ secondary_alignment m' = secondary_alignment m
  /\ supplementary_alignment m' = supplementary_alignment m
  /\ read_number m' = read_number m
  /\ number_reads m' = number_reads m
  /\ aligned_sequence m' = aligned_sequence m
  /\ aligned_quality m' = aligned_quality m
  /\ alignment m' = alignment m
  /\ next_mate_position m' = next_mate_position m.

(** A record as the underlying library hands it over: the name ends with
    a NUL; the CIGAR, the sequence and the qualities lie in the buffer,
    before the aux fields; the CIGAR operations are among the nine of the
    table; the reference index is below the number of references. *)
Definition record_well_formed (h : bam_hdr_t) (b : bam1_t) : Prop :=
  let c := core b in
  scan_nul (data b) 0 < l_data b
  /\ 0 <= l_qname c /\ 0 <= n_cigar c /\ 0 <= l_qseq c
  /\ bam_get_aux b <= l_data b
  /\ (forall i w,
        0 <= i < n_cigar c ->
        le_to_u32 (data b) (bam_get_cigar b + 4 * i) = Ret w ->
        bam_cigar_op w < 9)
  /\ tid c < Z.of_nat (length (target_name h)).

(** The record is paired and its mate is not flagged unmapped. *)
Definition mate_mapped_pair (b : bam1_t) : bool :=
  has_flag (core b) BAM_FPAIRED && negb (has_flag (core b) BAM_FMUNMAP).

(** Tokens joined by tabs, lines joined by newlines. *)
Fixpoint join (sep : ascii) (pieces : list string) : string :=
  match pieces with
  | [] => EmptyString
  | [piece] => piece
  | piece :: pieces' => piece +:+ String sep (join sep pieces')
  end.

(** A header with one reference, and a record with a name, two bases and
    their qualities, followed by [aux]. *)
Definition one_contig : bam_hdr_t :=
  mkHdr 1 ["chr1"] [1000] (join tab ["@HD"; "VN:1.0"; "SO:coordinate"]).

Definition small_record (flag tid mtid : Z) (aux : list Z) : bam1_t :=
  mkBam (mkCore tid 10 30 3 flag 0 2 mtid 20 0)
    ([chr "r"; chr "1"; 0; 18; 40; 41] ++ aux).

Definition no_debug_string (r : Read) : string := "".

(** The first conjunct of [KeepRead]: no requirements, or satisfied ones. *)
Definition meets_requirements
    (ReadSatisfiesRequirements : Read -> ReadRequirements -> bool)
    (options : SamReaderOptions) (read : Read) : bool :=
  match read_requirements options with
  | None => true
  | Some requirements => ReadSatisfiesRequirements read requirements
  end.

Section IterationNotions.

Variable ShortDebugString : Read -> string.
Variable ReadSatisfiesRequirements : Read -> ReadRequirements -> bool.
Variable Generator : Type.
Variable uniform : Generator -> Q * Generator.
Variables (fuel : nat) (h : bam_hdr_t) (options : SamReaderOptions).

(** [skipped cur out s g out' s' g']: every raw record of [cur] was read
    (code >= 0), converted with status OK and rejected by [KeepRead];
    [out], [s], [g] are the output record, the sampler and the log
    state before the first of them, [out'], [s'], [g'] after the last. *)
Inductive skipped :
  cursor_t -> Read -> FractionalSampler Generator -> LogState ->
  Read -> FractionalSampler Generator -> LogState -> Prop :=
| skipped_nil out s g : skipped [] out s g out s g
| skipped_cons code b rest out s g status out1 g1 s1 out' s' g' :
    0 <= code ->
    ConvertToPb ShortDebugString fuel h b options out g
    = Ret (status, out1, g1) ->
    ok status = true ->
    KeepRead ReadSatisfiesRequirements uniform options s out1 = (false, s1) ->
    skipped rest out1 s1 g1 out' s' g' ->
    skipped ((code, b) :: rest) out s g out' s' g'.

End IterationNotions.

Arguments skipped _ _ {Generator} _ _ _ _ _ _ _ _ _ _ _.
Arguments skipped_nil _ _ {Generator} _ _ _ _ _ _ _.

(** A generator with two states, drawing 1/2 and 0 in turn. *)
Definition flip_seed (seed : Z) : bool := Z.even seed.
Definition flip_uniform (g : bool) : Q * bool :=
  ((if g then 1 # 2 else 0)%Q, negb g).

(** Requirements that turn duplicates away, and a cursor with a duplicate
    followed by a record that is none. *)
Definition no_duplicates (read : Read) (requirements : ReadRequirements)
  : bool :=
  negb (duplicate_fragment read).

Definition with_requirements : SamReaderOptions :=
  mkOptions PARSE_ALL_AUX_FIELDS 0 0 (Some (mkRequirements 0 0 UNSPECIFIED)) 0.

Definition duplicate_then_plain : cursor_t :=
  [(0, small_record 1024 0 (-1) []); (0, small_record 0 0 (-1) [])].

Definition full_options : SamReaderOptions :=
  mkOptions SKIP_AUX_FIELDS 1 7 None 0.

(** A reader whose handles are plain values: the file is closed without
    error, and the index knows no interval of reference 0 that starts
    below 0. *)
Definition unit_close (fp : unit) : Z := 0.
Definition unit_queryi (idx : unit) (tid beg end_ : Z) : option unit :=
  if beg <? 0 then None else Some tt.
Definition whole_range (r : Range) : string := range_reference_name r.

(** The shape of a header text on which the parser runs to its end. *)
Definition token_long_enough (token : string) : bool :=
  (3 <=? String.length token)%nat.

Definition tag_of (token : string) : string := substring 0 3 token.
Definition value_of (token : string) : string :=
  substring 3 (String.length token - 3) token.

Definition read_group_token_ok (token : string) : bool :=
  token_long_enough token
  && (if String.eqb (tag_of token) kPITag
      then match SimpleAtoi (value_of token) with
           | Some _ => true
           | None => false
           end
      else true).

Definition header_line_ok (line : string) : bool :=
  let header_tag := tag_of line in
  if String.eqb header_tag kSamHeaderTag then
    forallb token_long_enough (StrSplit line tab)
  else if String.eqb header_tag kSamReferenceSequenceTag then true
  else if String.eqb header_tag kSamReadGroupTag then
    forallb read_group_token_ok (StrSplit line tab)
  else if String.eqb header_tag kSamProgramTag then
    forallb token_long_enough (StrSplit line tab)
  else if String.eqb header_tag kSamCommentTag then
    (4 <=? String.length line)%nat
  else true.

Definition header_text_ok (text : string) : bool :=
  forallb header_line_ok (StrSplit text newline).


(* ================================================================== *)
(** ** The wire form of the aux fields *)

(** The [n] low bytes of [v], least significant first. *)
Fixpoint le_bytes (n : nat) (v : Z) : list Z :=
  match n with
  | O => []
  | S n' => v mod 256 :: le_bytes n' (v / 256)
  end.

(** One field as it lies in the buffer: "[tag char 1, tag char 2, type
    byte, ...] where the ... contents depends on the type". *)
Inductive AuxField : Type :=
| CharField (t0 t1 c : Z)
| IntField (t0 t1 type v : Z)
| FloatField (t0 t1 bits : Z)
| StringField (t0 t1 : Z) (chars : list Z)
| HexField (t0 t1 : Z) (chars : list Z)
| ArrayField (t0 t1 sub_type count : Z) (elements : list Z).

Definition encode_field (f : AuxField) : list Z :=
  match f with
  | CharField t0 t1 c => [t0; t1; chr "A"; c]
  | IntField t0 t1 type v =>
      [t0; t1; type] ++ le_bytes (Z.to_nat (HtslibAuxSize type)) v
  | FloatField t0 t1 bits => [t0; t1; chr "f"] ++ le_bytes 4 bits
  | StringField t0 t1 chars => [t0; t1; chr "Z"] ++ chars ++ [0]
  | HexField t0 t1 chars => [t0; t1; chr "H"] ++ chars ++ [0]
  | ArrayField t0 t1 sub_type count elements =>
      [t0; t1; chr "B"; sub_type] ++ le_bytes 4 count ++ elements
  end.

(** The values a field of each integer type can hold. *)
Definition int_in_range (type v : Z) : Prop :=
  (type = chr "c" /\ - 2 ^ 7 <= v < 2 ^ 7)
  \/ (type = chr "C" /\ 0 <= v < 2 ^ 8)
  \/ (type = chr "s" /\ - 2 ^ 15 <= v < 2 ^ 15)
  \/ (type = chr "S" /\ 0 <= v < 2 ^ 16)
  \/ (type = chr "i" /\ - 2 ^ 31 <= v < 2 ^ 31)
  \/ (type = chr "I" /\ 0 <= v < 2 ^ 32).

(** A field whose bytes say what its type promises: integers in range,
    strings without a NUL inside, an array with as many element bytes as
    its count and sub-type ask for, the count positive and the array
    shorter than 2^31 bytes. *)
Definition field_whole (f : AuxField) : Prop :=
  match f with
  | CharField _ _ _ => True
  | IntField _ _ type v => int_in_range type v
  | FloatField _ _ bits => 0 <= bits < 2 ^ 32
  | StringField _ _ chars | HexField _ _ chars =>
      Forall (fun c => c <> 0) chars
  | ArrayField _ _ sub_type count elements =>
      0 <= HtslibAuxSize sub_type
      /\ 0 < count
      /\ 4 + count * HtslibAuxSize sub_type < 2 ^ 31
      /\ Z.of_nat (length elements) = count * HtslibAuxSize sub_type
  end.

(** What a whole field adds to the message. *)
Definition field_effect (f : AuxField) (m : Read) : Read :=
  match f with
  | CharField t0 t1 c =>
      SetInfoField (string_of_bytes [t0; t1])
        (StringValue (string_of_bytes [c])) m
  | IntField t0 t1 type v =>
      SetInfoField (string_of_bytes [t0; t1]) (IntValue (int32 v)) m
  | FloatField t0 t1 bits =>
      SetInfoField (string_of_bytes [t0; t1]) (FloatValue bits) m
  | StringField t0 t1 chars =>
      SetInfoField (string_of_bytes [t0; t1])
        (StringValue (string_of_bytes chars)) m
  | HexField _ _ _ | ArrayField _ _ _ _ _ => m
  end.

Definition encode_fields (fields : list AuxField) : list Z :=
  concat (map encode_field fields).

(** An edit distance, a read group, an array of two 16-bit numbers and an
    alignment score. *)
Definition four_fields : list AuxField :=
  [IntField (chr "N") (chr "M") (chr "C") 3;
   StringField (chr "R") (chr "G") [chr "g"; chr "1"];
   ArrayField (chr "B") (chr "Q") (chr "s") 2 [1; 0; 2; 0];
   IntField (chr "A") (chr "S") (chr "i") (-7)].

(** If the field at [s] is an array, its count is one an array that fits a
    record can have: not negative as an [int], and such that the bytes to
    skip do not overflow. *)
Definition array_count_sane (data : list Z) (s : Z) : Prop :=
  forall u,
    load data (s + 2) = Ret (chr "B") ->
    le_to_u32 data (s + 4) = Ret u ->
    0 <= u /\ 4 + 4 * u < 2 ^ 31.

(** The eleven type bytes the decoder knows. *)
Definition known_types : list Z :=
  [chr "A"; chr "C"; chr "c"; chr "S"; chr "s"; chr "I"; chr "i"; chr "f";
   chr "Z"; chr "H"; chr "B"].

(** The character of base [i] of a packed sequence whose byte [i / 2] is
    [byte]: the high half of the byte for an even [i], the low half for
    an odd one, looked up in [seq_nt16_str]. *)
Definition base_of_byte (byte i : Z) : option ascii :=
  seq_nt16_str !! Z.to_nat (if Z.even i then (byte / 16) mod 16
                            else byte mod 16).

(** Two messages that differ in the mate position and the info map at
    most. *)
Definition same_but_mate_and_info (m m' : Read) : Prop :=
  fragment_name m' = fragment_name m
  /\ fragment_length m' = fragment_length m
  /\ proper_placement m' = proper_placement m
  /\ duplicate_fragment m' = duplicate_fragment m
  /\ failed_vendor_quality_checks m' = failed_vendor_quality_checks m
  /\ secondary_alignment m' = secondary_alignment m
  /\ supplementary_alignment m' = supplementary_alignment m
  /\ read_number m' = read_number m
  /\ number_reads m' = number_reads m
  /\ aligned_sequence m' = aligned_sequence m
  /\ aligned_quality m' = aligned_quality m
  /\ alignment m' = alignment m.

(** The record is paired, its mate is not flagged unmapped, and it has no
    mate reference. *)
Definition mate_inconsistent (b : bam1_t) : Prop :=
  has_flag (core b) BAM_FPAIRED = true
  /\ has_flag (core b) BAM_FMUNMAP = false
  /\ mtid (core b) < 0.

(** A record with a name, one CIGAR word (2 bases matched), two bases and
    their qualities. *)
Definition matched_record (flag tid mtid : Z) : bam1_t :=
  mkBam (mkCore tid 10 30 3 flag 1 2 mtid 20 0)
    [chr "r"; chr "1"; 0; 32; 0; 0; 0; 18; 40; 41].

(** An unpaired record whose aux bytes are an edit distance and an array
    of two bytes. *)
Definition record_with_aux : bam1_t :=
  small_record 0 0 (-1)
    [chr "N"; chr "M"; chr "C"; 3;
     chr "X"; chr "1"; chr "B"; chr "c"; 2; 0; 0; 0; 9; 9].

(** A record with a name and two bases whose qualities are missing. *)
Definition record_without_qualities : bam1_t :=
  mkBam (mkCore 0 10 30 3 0 0 2 (-1) 20 0)
    [chr "r"; chr "1"; 0; 18; 255; 255].



(* ================================================================== *)
(** ** Runs of the keep-predicate and of Next *)

Section IterationRuns.

Variable ReadSatisfiesRequirements : Read -> ReadRequirements -> bool.
Variable Generator : Type.
Variable uniform : Generator -> Q * Generator.

(** The sampler after [KeepRead] has been asked about [reads], in order. *)
Fixpoint sampler_after (options : SamReaderOptions)
    (sampler : FractionalSampler Generator) (reads : list Read)
  : FractionalSampler Generator :=
  match reads with
  | [] => sampler
  | read :: reads' =>
      sampler_after options
        (snd (KeepRead ReadSatisfiesRequirements uniform options sampler read))
        reads'
  end.

(** The generator after [n] draws. *)
Fixpoint draws (n : nat) (g : Generator) : Generator :=
  match n with
  | O => g
  | S n' => draws n' (snd (uniform g))
  end.

End IterationRuns.

Arguments sampler_after _ {Generator} _ _ _ _.
Arguments draws {Generator} _ _ _.

(** A raw record the converter takes without a fault: an error code, or a
    well-formed record with a mate reference the header knows. *)
Definition raw_record_ok (h : bam_hdr_t) (raw : Z * bam1_t) : Prop :=
  fst raw < 0
  \/ (record_well_formed h (snd raw)
      /\ mtid (core (snd raw)) < Z.of_nat (length (target_name h))).

(** Requirements that turn duplicates away, with half of the records that
    meet them kept; and a record flagged as a duplicate. *)
Definition half_with_requirements : SamReaderOptions :=
  mkOptions SKIP_AUX_FIELDS (1 # 2) 7 (Some (mkRequirements 0 0 UNSPECIFIED)) 0.

Definition duplicate_read : Read :=
  mkRead "" 0 false true false false false 0 0 "" [] None None ∅.

(* ================================================================== *)
(** ** The lines of a header text *)

(** The lines of [text] whose first three characters are [tag], in
    order. *)
Definition lines_of_type (tag : string) (text : string) : list string :=
  List.filter (fun line => String.eqb (tag_of line) tag)
    (StrSplit text newline).

(** The header [h] with [text] for its text. *)
Definition with_text (h : bam_hdr_t) (text : string) : bam_hdr_t :=
  mkHdr (n_targets h) (target_name h) (target_len h) text.

(** A header text with a line of each type. *)
Definition five_lines : string :=
  join newline
    [join tab ["@HD"; "VN:1.6"; "SO:coordinate"];
     join tab ["@SQ"; "SN:chr1"; "LN:1000"];
     join tab ["@RG"; "ID:g1"; "PI:300"];
     join tab ["@PG"; "ID:p1"; "PN:aligner"];
     join tab ["@CO"; "first"];
     join tab ["@CO"; "second"]].

(* ================================================================== *)
(** ** Opening and destroying a reader *)

Definition errors_InvalidArgument (msg : string) : Status :=
  mkStatus InvalidArgument msg.
Definition errors_Unknown (msg : string) : Status := mkStatus Unknown msg.

(** The values of htslib's [htsExactFormat] that the reader tells apart;
    [other_format] stands for the remaining ones. *)
Inductive htsExactFormat : Type :=
| sam | bam | cram | other_format.

Definition FileTypeIsIndexable (format : htsExactFormat) : bool :=
  match format with
  | bam | cram => true
  | _ => false
  end.

(** [query.compare(0, prefix_len, prefix) == 0]: the first [prefix_len]
    characters of [query], or all of it when it has fewer, are compared
    with the whole of [prefix]; the [int] is converted to a [size_t] of 64
    bits. *)
Definition StartsWith (query prefix : string) (prefix_len : Z) : bool :=
  String.eqb (substring 0 (Z.to_nat (prefix_len mod 2 ^ 64)) query) prefix.

Section Opening.

(** The handles of the underlying library and the calls of it that
    [FromFile] and the destructor make; a null result is [None].  A call
    that is passed [c_str()] of a path is a function of the path.  The
    [LOG(INFO)] lines of [FromFile] are left out. *)
Variables htsFile hts_idx_t : Type.
Variable hts_open_x : string -> option htsFile.
Variable hts_set_opt_block_size : htsFile -> Z -> Z.
Variable sam_hdr_read : htsFile -> option bam_hdr_t.
Variable fn : htsFile -> string.
Variable format : htsFile -> htsExactFormat.
Variable sam_index_load : htsFile -> option hts_idx_t.
Variable cram_set_option_reference : htsFile -> string -> Z.
Variable hts_close : htsFile -> Z.
Variable OptionsDebugString : SamReaderOptions -> string.

(** The constructor: the reader, its parsed header and the warnings
    logged while parsing. *)
Definition SamReader_new (fp : option htsFile) (header : option bam_hdr_t)
    (idx : option hts_idx_t)
  : outcome (SamReader htsFile hts_idx_t * SamHeader * list string) :=
  match fp, header with
  | None, _ => Fault CheckFailure
  | Some _, None => Fault CheckFailure
  | Some _, Some h =>
      '(sam_header, log) ← SamReader_sam_header h;
      Ret (mkReader fp header idx, sam_header, log)
  end.

Definition FromFile (reads_path ref_path : string)
    (options : SamReaderOptions)
  : outcome (StatusOr (SamReader htsFile hts_idx_t * SamHeader)
             * list string) :=
  if match read_requirements options with
     | Some requirements =>
         match min_base_quality_mode requirements with
         | UNSPECIFIED | ENFORCED_BY_CLIENT => false
         | _ => true
         end
     | None => false
     end
  then
    Ret (Error (errors_InvalidArgument
                  ("Unsupported min_base_quality mode in options "
                   +:+ OptionsDebugString options)), [])
  else
    match hts_open_x reads_path with
    | None => Ret (Error (errors_NotFound ("Could not open " +:+ reads_path)),
                   [])
    | Some fp =>
        if (0 <? hts_block_size options)
           && negb (hts_set_opt_block_size fp (hts_block_size options) =? 0)
        then Ret (Error (errors_Unknown "Failed to set HTS_OPT_BLOCK_SIZE"),
                  [])
        else
          match sam_hdr_read fp with
          | None =>
              Ret (Error (errors_Unknown
                            ("Couldn't parse header for " +:+ fn fp)), [])
          | Some header =>
              let idx := if FileTypeIsIndexable (format fp)
                         then sam_index_load fp else None in
              if match format fp with
                 | cram =>
                     negb (String.eqb ref_path EmptyString)
                     && negb (cram_set_option_reference fp ref_path =? 0)
                 | _ => false
                 end
              then
                Ret (Error (errors_Unknown
                              ("Failed to set the CRAM_OPT_REFERENCE value to "
                               +:+ ref_path)), [])
              else
                '(reader, sam_header, log) ←
                  SamReader_new (Some fp) (Some header) idx;
                Ret (Value (reader, sam_header), log)
          end
    end.

(** The destructor: [if (fp_) TF_CHECK_OK(Close())]. *)
Definition SamReader_destroy (r : SamReader htsFile hts_idx_t)
  : outcome (SamReader htsFile hts_idx_t) :=
  match fp_ r with
  | Some _ =>
      '(status, r') ← Close hts_close r;
      if ok status then Ret r' else Fault CheckFailure
  | None => Ret r
  end.

End Opening.

Arguments SamReader_new {htsFile hts_idx_t} _ _ _.
Arguments FromFile {htsFile hts_idx_t} _ _ _ _ _ _ _ _ _ _ _.
Arguments SamReader_destroy {htsFile hts_idx_t} _ _.

(** A library that knows one file, a SAM text file with the header
    [one_contig]. *)
Definition one_file_open (path : string) : option unit :=
  if String.eqb path "reads.sam" then Some tt else None.
Definition one_file_set_opt (fp : unit) (value : Z) : Z := 0.
Definition one_file_hdr_read (fp : unit) : option bam_hdr_t := Some one_contig.
Definition one_file_fn (fp : unit) : string := "reads.sam".
Definition one_file_format (fp : unit) : htsExactFormat := sam.
Definition one_file_index_load (fp : unit) : option unit := Some tt.
Definition one_file_set_reference (fp : unit) (ref_path : string) : Z := 0.
Definition options_debug_string (options : SamReaderOptions) : string := "".

(* ================================================================== *)
(* ================================================================== *)
(** * Properties *)

(** ** Reading the buffer *)

Lemma load_inside (data : list Z) (i : Z) :
  0 <= i < Z.of_nat (length data) -> exists b, load data i = Ret b.
Proof.
  intros [Hlo Hhi]. unfold load.
  destruct (Z.ltb_spec i 0) as [?|_]; [lia|].
  destruct (data !! Z.to_nat i) as [b|] eqn:E; [by exists b|].
  apply lookup_ge_None in E. lia.
Qed.

Lemma load_Ret_inv (data : list Z) (i b : Z) :
  load data i = Ret b -> 0 <= i < Z.of_nat (length data).
Proof.
  unfold load. destruct (Z.ltb_spec i 0); [done|].
  destruct (data !! Z.to_nat i) eqn:E; [|done].
  intros _. apply lookup_lt_Some in E. lia.
Qed.

Lemma not_past_end_Ret {A} (a : A) : not_past_end (Ret a).
Proof. done. Qed.

Lemma not_past_end_bind {A B} (o : outcome A) (k : A -> outcome B) :
  not_past_end o -> (forall a, o = Ret a -> not_past_end (k a)) ->
  not_past_end (o ≫= k).
Proof.
  unfold not_past_end. destruct o as [a|f|]; simpl; intros Ho Hk.
  - by apply Hk.
  - congruence.
  - done.
Qed.

Lemma load_not_past_end (data : list Z) (i : Z) :
  i < Z.of_nat (length data) -> not_past_end (load data i).
Proof.
  intros Hi. unfold not_past_end, load.
  destruct (Z.ltb_spec i 0); [done|].
  destruct (data !! Z.to_nat i) eqn:E; [done|].
  apply lookup_ge_None in E. lia.
Qed.

Lemma le_to_u16_not_past_end (data : list Z) (i : Z) :
  i + 1 < Z.of_nat (length data) -> not_past_end (le_to_u16 data i).
Proof.
  intros Hi. unfold le_to_u16.
  repeat (apply not_past_end_bind; [apply load_not_past_end; lia | intros ? _]).
  apply not_past_end_Ret.
Qed.

Lemma le_to_u32_not_past_end (data : list Z) (i : Z) :
  i + 3 < Z.of_nat (length data) -> not_past_end (le_to_u32 data i).
Proof.
  intros Hi. unfold le_to_u32.
  repeat (apply not_past_end_bind; [apply load_not_past_end; lia | intros ? _]).
  apply not_past_end_Ret.
Qed.

Lemma le_to_u32_inside (data : list Z) (i : Z) :
  0 <= i -> i + 3 < Z.of_nat (length data) -> exists u, le_to_u32 data i = Ret u.
Proof.
  intros Hlo Hhi. unfold le_to_u32.
  destruct (load_inside data i) as [b0 ->]; [lia|].
  destruct (load_inside data (i + 1)) as [b1 ->]; [lia|].
  destruct (load_inside data (i + 2)) as [b2 ->]; [lia|].
  destruct (load_inside data (i + 3)) as [b3 ->]; [lia|].
  eauto.
Qed.

Lemma array_get_inside {A} (a : list A) (i : Z) :
  0 <= i < Z.of_nat (length a) -> returns (array_get a i).
Proof.
  intros [Hlo Hhi]. unfold array_get.
  destruct (Z.ltb_spec i 0); [lia|].
  destruct (a !! Z.to_nat i) eqn:E; [by eexists|].
  apply lookup_ge_None in E. lia.
Qed.

(** ** The aux-field decoder *)

Lemma HtslibAuxSize_cases (t : Z) :
  HtslibAuxSize t = -1 \/ HtslibAuxSize t = 1 \/ HtslibAuxSize t = 2 \/ HtslibAuxSize t = 4.
Proof. unfold HtslibAuxSize. repeat case_match; auto. Qed.

Ltac bool_facts :=
  repeat match goal with
  | H : (_ || _) = false |- _ => apply orb_false_elim in H; destruct H
  | H : (_ && _) = true |- _ => apply andb_prop in H; destruct H
  | H : negb _ = true |- _ => apply negb_true_iff in H
  | H : negb _ = false |- _ => apply negb_false_iff in H
  | H : (_ <? _) = true |- _ => apply Z.ltb_lt in H
  | H : (_ <? _) = false |- _ => apply Z.ltb_ge in H
  | H : (_ <=? _) = true |- _ => apply Z.leb_le in H
  | H : (_ <=? _) = false |- _ => apply Z.leb_gt in H
  | H : (_ >=? _) = true |- _ => rewrite Z.geb_leb in H
  | H : (_ >=? _) = false |- _ => rewrite Z.geb_leb in H
  | H : (_ =? _) = true |- _ => apply Z.eqb_eq in H
  | H : (_ =? _) = false |- _ => apply Z.eqb_neq in H
  end.

Lemma bam_aux2i_not_past_end (data : list Z) (p type : Z) :
  load data p = Ret type ->
  0 <= HtslibAuxSize type ->
  p + HtslibAuxSize type < Z.of_nat (length data) ->
  not_past_end (bam_aux2i data p).
Proof.
  intros Hp Hsz Hlen. unfold bam_aux2i. rewrite Hp. simpl.
  repeat case_match; bool_facts; subst; try done;
    vm_compute (HtslibAuxSize _) in Hlen;
    (apply not_past_end_bind;
     [ first [ apply load_not_past_end | apply le_to_u16_not_past_end
             | apply le_to_u32_not_past_end ]; lia
     | intros; apply not_past_end_Ret ]).
Qed.

Lemma aux_field_not_past_end (data : list Z) (s : Z) (m : Read) :
  Z.of_nat (length data) - s >= 4 -> not_past_end (aux_field data s m).
Proof.
  intros Hk. unfold aux_field.
  apply not_past_end_bind; [apply load_not_past_end; lia | intros t0 _].
  apply not_past_end_bind; [apply load_not_past_end; lia | intros t1 _].
  apply not_past_end_bind; [apply load_not_past_end; lia | intros type Htype].
  pose proof (HtslibAuxSize_cases type) as Hsz.
  repeat match goal with
  | |- not_past_end (Ret _) => apply not_past_end_Ret
  | |- not_past_end (if ?c then _ else _) => destruct c eqn:?
  | |- not_past_end (load _ _ ≫= _) =>
      apply not_past_end_bind; [apply load_not_past_end; bool_facts; lia | intros ? ?]
  | |- not_past_end (le_to_u32 _ _ ≫= _) =>
      apply not_past_end_bind; [apply le_to_u32_not_past_end; bool_facts; lia | intros ? ?]
  | |- not_past_end (bam_aux2i _ _ ≫= _) =>
      apply not_past_end_bind;
      [ apply (bam_aux2i_not_past_end _ _ type);
        [ by replace (s + 2 + 1 - 1) with (s + 2) by lia
        | bool_facts; lia | bool_facts; lia ]
      | intros [? ?] ?]
  end.
Qed.

Lemma aux_loop_not_past_end (fuel : nat) (data : list Z) (s : Z) (m : Read) :
  not_past_end (aux_loop fuel data s m).
Proof.
  revert s m. induction fuel as [|fuel IH]; intros s m; simpl.
  - by case_match.
  - destruct (Z.of_nat (length data) - s >=? 4) eqn:Hk; [|done].
    apply not_past_end_bind.
    + apply aux_field_not_past_end. bool_facts. lia.
    + intros [s' m'|st m'] _; [apply IH | done].
Qed.

Lemma aux_loop_reaches (data : list Z) (s : Z) (m : Read) (s' : Z) (m' : Read) :
  reaches data s m s' m' ->
  exists k, forall fuel,
    aux_loop (k + fuel) data s m = aux_loop fuel data s' m'.
Proof.
  induction 1 as [s m|s m s1 m1 s' m' Hk Hf _ [k IH]].
  - by exists O.
  - exists (S k). intros fuel. simpl.
    destruct (Z.geb_spec (Z.of_nat (length data) - s) 4) as [_|?]; [|lia].
    rewrite Hf. simpl. apply IH.
Qed.

Ltac chr_consts :=
  change (chr "A") with 65 in *; change (chr "B") with 66 in *;
  change (chr "C") with 67 in *; change (chr "H") with 72 in *;
  change (chr "I") with 73 in *; change (chr "S") with 83 in *;
  change (chr "Z") with 90 in *; change (chr "c") with 99 in *;
  change (chr "f") with 102 in *; change (chr "i") with 105 in *;
  change (chr "s") with 115 in *.

Lemma scan_nul_no_nul (rest : list Z) (s : Z) :
  forallb (fun b => negb (b =? 0)) rest = true ->
  scan_nul rest s = s + Z.of_nat (length rest).
Proof.
  revert s. induction rest as [|b rest IH]; intros s H; simpl in *.
  - lia.
  - apply andb_prop in H as [Hb Hrest]. apply negb_true_iff in Hb.
    rewrite Hb, IH by done. lia.
Qed.

Lemma aux_field_truncated (data : list Z) (s : Z) (m : Read) :
  0 <= s -> 4 <= Z.of_nat (length data) - s ->
  field_truncated data s = true ->
  array_header_whole data s = false ->
  exists msg, aux_field data s m = Ret (Return (errors_DataLoss msg) m).
Proof.
  intros Hs Hk Ht Ha. unfold aux_field, field_truncated, array_header_whole in *.
  destruct (load_inside data s) as [t0 ->]; [lia|].
  destruct (load_inside data (s + 1)) as [t1 ->]; [lia|].
  destruct (load_inside data (s + 2)) as [type Htype]; [lia|].
  destruct (load_inside data (s + 3)) as [t3 H3]; [lia|].
  rewrite Htype in *. simpl.
  replace (s + 2 + 1) with (s + 3) by lia. rewrite ?H3 in *. simpl.
  pose proof (HtslibAuxSize_cases t3) as Hsz3.
  revert Ht Ha. unfold HtslibAuxSize. chr_consts.
  repeat match goal with
  | |- context [type =? ?c] => destruct (Z.eqb_spec type c); [subst type|]
  end; simpl; intros Ht Ha; bool_facts; try lia; eauto.
  all: try (destruct (Z.ltb_spec (Z.of_nat (length data) - (s + 3)) 2); [eauto|lia]).
  all: try (destruct (Z.ltb_spec (Z.of_nat (length data) - (s + 3)) 4); [eauto|lia]).
  - apply orb_prop in H0 as [H0|H0]; bool_facts; [lia|].
    rewrite scan_nul_no_nul, length_drop by done.
    destruct (Z.geb_spec (s + 3 + Z.of_nat (length data - Z.to_nat (s + 3)))
                (Z.of_nat (length data))); [eauto|lia].
  - apply orb_prop in H0 as [H0|H0]; bool_facts; [lia|].
    rewrite scan_nul_no_nul, length_drop by done.
    destruct (Z.geb_spec (s + 3 + Z.of_nat (length data - Z.to_nat (s + 3)))
                (Z.of_nat (length data))); [eauto|lia].
  - match goal with
    | |- context [if ?c <? 0 then _ else _] => destruct (Z.ltb_spec c 0)
    end; [eauto|].
    destruct (Z.ltb_spec (Z.of_nat (length data) - (s + 3 + 1)) 4); [eauto|lia].
Qed.

Lemma returns_bind {A B} (o : outcome A) (k : A -> outcome B) :
  returns o -> (forall a, o = Ret a -> returns (k a)) -> returns (o ≫= k).
Proof. intros [a ->] Hk. simpl. by apply Hk. Qed.

Lemma load_returns (data : list Z) (i : Z) :
  0 <= i < Z.of_nat (length data) -> returns (load data i).
Proof. apply load_inside. Qed.

Lemma le_to_u16_returns (data : list Z) (i : Z) :
  0 <= i -> i + 1 < Z.of_nat (length data) -> returns (le_to_u16 data i).
Proof.
  intros Hlo Hhi. unfold le_to_u16.
  repeat (apply returns_bind; [apply load_returns; lia | intros ? _]).
  by eexists.
Qed.

Lemma le_to_u32_returns (data : list Z) (i : Z) :
  0 <= i -> i + 3 < Z.of_nat (length data) -> returns (le_to_u32 data i).
Proof. apply le_to_u32_inside. Qed.

Lemma bam_aux2i_returns (data : list Z) (p type : Z) :
  load data p = Ret type ->
  0 <= HtslibAuxSize type ->
  p + HtslibAuxSize type < Z.of_nat (length data) ->
  returns (bam_aux2i data p).
Proof.
  intros Hp Hsz Hlen. pose proof (load_Ret_inv _ _ _ Hp) as Hin.
  unfold bam_aux2i. rewrite Hp. simpl.
  repeat case_match; bool_facts; subst; try (by eexists);
    vm_compute (HtslibAuxSize _) in Hlen;
    (apply returns_bind;
     [ first [ apply load_returns | apply le_to_u16_returns
             | apply le_to_u32_returns ]; lia
     | intros; by eexists ]).
Qed.

(** A turn of the loop entered with the cursor inside the buffer reads
    inside the buffer only. *)
Lemma aux_field_returns (data : list Z) (s : Z) (m : Read) :
  0 <= s -> Z.of_nat (length data) - s >= 4 -> returns (aux_field data s m).
Proof.
  intros Hs Hk. unfold aux_field.
  apply returns_bind; [apply load_returns; lia | intros t0 _].
  apply returns_bind; [apply load_returns; lia | intros t1 _].
  apply returns_bind; [apply load_returns; lia | intros type Htype].
  pose proof (HtslibAuxSize_cases type) as Hsz.
  repeat match goal with
  | |- returns (Ret _) => by eexists
  | |- returns (if ?c then _ else _) => destruct c eqn:?
  | |- returns (load _ _ ≫= _) =>
      apply returns_bind; [apply load_returns; bool_facts; lia | intros ? ?]
  | |- returns (le_to_u32 _ _ ≫= _) =>
      apply returns_bind; [apply le_to_u32_returns; bool_facts; lia | intros ? ?]
  | |- returns (bam_aux2i _ _ ≫= _) =>
      apply returns_bind;
      [ apply (bam_aux2i_returns _ _ type);
        [ by replace (s + 2 + 1 - 1) with (s + 2) by lia
        | bool_facts; lia | bool_facts; lia ]
      | intros [? ?] ?]
  end.
Qed.

Lemma le_to_u32_Ret_inv (data : list Z) (i u : Z) :
  le_to_u32 data i = Ret u -> 0 <= i /\ i + 3 < Z.of_nat (length data).
Proof.
  unfold le_to_u32. intros H.
  destruct (load data i) as [b0| |] eqn:H0; [|done..].
  destruct (load data (i + 1)) as [b1| |] eqn:H1; [|done..].
  destruct (load data (i + 2)) as [b2| |] eqn:H2; [|done..].
  destruct (load data (i + 3)) as [b3| |] eqn:H3; [|done..].
  apply load_Ret_inv in H0, H3. lia.
Qed.

Lemma aux_loop_stops (fuel : nat) (data : list Z) (s : Z) (m : Read) :
  Z.of_nat (length data) - s < 4 -> aux_loop fuel data s m = Ret (Status_OK, m).
Proof.
  intros Hk.
  destruct fuel; simpl;
    (destruct (Z.geb_spec (Z.of_nat (length data) - s) 4); [lia|done]).
Qed.

Lemma aux_loop_returns (fuel : nat) (data : list Z) (s : Z) (m : Read)
    (status : Status) :
  Z.of_nat (length data) - s >= 4 ->
  aux_field data s m = Ret (Return status m) ->
  aux_loop (S fuel) data s m = Ret (status, m).
Proof.
  intros Hk Hf. simpl.
  destruct (Z.geb_spec (Z.of_nat (length data) - s) 4); [|lia].
  by rewrite Hf.
Qed.

(** Once the decoder has got to [s], what the loop does from [s] is what
    the whole call returns, given enough fuel. *)
Lemma ParseAuxFields_from (b : bam1_t) (options : SamReaderOptions)
    (m0 : Read) (s : Z) (m : Read) (r : Status * Read) :
  aux_field_handling options = PARSE_ALL_AUX_FIELDS ->
  reaches (data b) (bam_get_aux b) m0 s m ->
  (forall fuel, aux_loop (S fuel) (data b) s m = Ret r) ->
  exists n, forall fuel, (n <= fuel)%nat -> ParseAuxFields fuel b options m0 = Ret r.
Proof.
  intros Hopt Hreach Hr. apply aux_loop_reaches in Hreach as [k Hk].
  exists (k + 1)%nat. intros fuel Hfuel. unfold ParseAuxFields.
  rewrite Hopt. simpl.
  replace fuel with (k + S (fuel - k - 1))%nat by lia.
  by rewrite Hk.
Qed.

(** C1, as amended. Whatever the buffer, the decoder never reads at or
    after its end.  Once it has got to a cursor [s] by decoding whole
    fields: a turn of the loop entered at [s >= 0] reads inside the buffer
    only; if the field at [s] is truncated with at least 4 of its bytes
    left, and is not an array cut in its elements, decoding fails with a
    data-loss error; if fewer than 4 bytes are left at [s], the loop ends
    and decoding returns OK. *)
Theorem ParseAuxFields_bounds_and_truncation
    (b : bam1_t) (options : SamReaderOptions) (m0 : Read) (s : Z) (m : Read)
    (Hopt : aux_field_handling options = PARSE_ALL_AUX_FIELDS)
    (Hreach : reaches (data b) (bam_get_aux b) m0 s m) :
  (forall fuel, ParseAuxFields fuel b options m0 <> Fault ReadPastEnd)
  /\ (0 <= s -> 4 <= l_data b - s ->
      exists step, aux_field (data b) s m = Ret step)
  /\ (0 <= s -> 4 <= l_data b - s ->
      field_truncated (data b) s = true ->
      array_header_whole (data b) s = false ->
      exists msg n, forall fuel, (n <= fuel)%nat ->
        ParseAuxFields fuel b options m0 = Ret (errors_DataLoss msg, m))
  /\ (l_data b - s < 4 ->
      exists n, forall fuel, (n <= fuel)%nat ->
        ParseAuxFields fuel b options m0 = Ret (Status_OK, m)).
Proof.
  unfold l_data. repeat split.
  - intros fuel. unfold ParseAuxFields. case_match; [done|].
    apply aux_loop_not_past_end.
  - intros Hs Hk. apply aux_field_returns; lia.
  - intros Hs Hk Ht Ha.
    destruct (aux_field_truncated (data b) s m Hs Hk Ht Ha) as [msg Hf].
    exists msg. apply (ParseAuxFields_from b options m0 s m); [done..|].
    intros fuel. apply aux_loop_returns; [lia|done].
  - intros Hk. apply (ParseAuxFields_from b options m0 s m); [done..|].
    intros fuel. by apply aux_loop_stops.
Qed.

Lemma ParseAuxFields_bounds_and_truncation_witness :
  let b := aux_only [chr "X"; chr "1"; chr "C"; 7;
                     chr "Y"; chr "2"; chr "i"; 5; 0; 0] in
  let m := SetInfoField "X1" (IntValue 7) Read_Clear in
  (forall fuel, ParseAuxFields fuel b parse_all Read_Clear <> Fault ReadPastEnd)
  /\ (exists step, aux_field (data b) 4 m = Ret step)
  /\ (exists msg n, forall fuel, (n <= fuel)%nat ->
        ParseAuxFields fuel b parse_all Read_Clear
        = Ret (errors_DataLoss msg, m)).
Proof.
  intros b m.
  assert (reaches (data b) (bam_get_aux b) Read_Clear 4 m) as Hreach.
  { eapply reaches_field; [vm_compute; discriminate | reflexivity | constructor]. }
  destruct (ParseAuxFields_bounds_and_truncation b parse_all Read_Clear 4 m
              eq_refl Hreach) as (H1 & H2 & H3 & _).
  split; [exact H1|]. split.
  - apply H2; vm_compute; discriminate.
  - apply H3; [vm_compute; discriminate.. | reflexivity | reflexivity].
Defined.

(** C1 as stated fails: a field cut to its tag and type byte and an array
    cut in its elements are both decoded with status OK, and an array
    whose count has its top bit set sends the cursor below the buffer,
    where the next turn of the loop reads. *)
Lemma truncated_stream_accepted :
  let tail_cut := aux_only [chr "X"; chr "1"; chr "C"] in
  let array_cut :=
    aux_only [chr "X"; chr "2"; chr "B"; chr "c"; 5; 0; 0; 0; 1; 2] in
  let array_back :=
    aux_only [chr "X"; chr "3"; chr "B"; chr "c"; 0; 0; 0; 128] in
  (field_truncated (data tail_cut) (bam_get_aux tail_cut) = true
   /\ forall fuel,
        ParseAuxFields fuel tail_cut parse_all Read_Clear
        = Ret (Status_OK, Read_Clear))
  /\ (field_truncated (data array_cut) (bam_get_aux array_cut) = true
      /\ forall fuel,
           ParseAuxFields (S fuel) array_cut parse_all Read_Clear
           = Ret (Status_OK, Read_Clear))
  /\ (forall fuel,
        ParseAuxFields (S (S fuel)) array_back parse_all Read_Clear
        = Fault ReadBeforeStart).
Proof.
  split; [|split]; [split; [reflexivity|] | split; [reflexivity|] | ].
  - intros [|fuel]; reflexivity.
  - intros [|fuel]; reflexivity.
  - intros fuel. reflexivity.
Qed.

(** An array whose count is -8 as an [int] sends the cursor back to the
    start of the field: the loop never ends. *)
Example array_count_negative_loops :
  forall fuel,
    ParseAuxFields fuel
      (aux_only [chr "X"; chr "4"; chr "B"; chr "c"; 248; 255; 255; 255])
      parse_all Read_Clear
    = OutOfFuel.
Proof. induction fuel as [|fuel IH]; [reflexivity|exact IH]. Qed.

(** The examples of the format: an integer, a string, and the string
    without its terminator. *)
Example decode_integer :
  ParseAuxFields 1 (aux_only [chr "X"; chr "1"; chr "i"; 5; 0; 0; 0])
    parse_all Read_Clear
  = Ret (Status_OK, SetInfoField "X1" (IntValue 5) Read_Clear).
Proof. reflexivity. Qed.

Example decode_string :
  ParseAuxFields 1 (aux_only [chr "Z"; chr "1"; chr "Z"; chr "h"; chr "i"; 0])
    parse_all Read_Clear
  = Ret (Status_OK, SetInfoField "Z1" (StringValue "hi") Read_Clear).
Proof. reflexivity. Qed.

Example decode_string_without_terminator :
  ParseAuxFields 1 (aux_only [chr "Z"; chr "1"; chr "Z"; chr "h"; chr "i"])
    parse_all Read_Clear
  = Ret (errors_DataLoss "Malformed tag Z1", Read_Clear).
Proof. reflexivity. Qed.

(** C9. When the decoder gets to an array field whose sub-type is one of
    the known ones and whose 4-byte count decodes to 0, decoding fails
    with the data-loss error "n_elements is zero": the empty array is not
    skipped. *)
Theorem empty_array_is_data_loss
    (b : bam1_t) (options : SamReaderOptions) (m0 : Read) (s : Z) (m : Read)
    (sub_type u : Z)
    (Hopt : aux_field_handling options = PARSE_ALL_AUX_FIELDS)
    (Hreach : reaches (data b) (bam_get_aux b) m0 s m)
    (Hs : 0 <= s)
    (Htype : load (data b) (s + 2) = Ret (chr "B"))
    (Hsub : load (data b) (s + 3) = Ret sub_type)
    (Hrec : 0 <= HtslibAuxSize sub_type)
    (Hcount : le_to_u32 (data b) (s + 4) = Ret u)
    (Hzero : int32 u = 0) :
  exists n, forall fuel, (n <= fuel)%nat ->
    ParseAuxFields fuel b options m0
    = Ret (errors_DataLoss "n_elements is zero", m).
Proof.
  pose proof (le_to_u32_Ret_inv _ _ _ Hcount) as [_ Hlen].
  apply (ParseAuxFields_from b options m0 s m); [done..|].
  intros fuel. apply aux_loop_returns; [lia|].
  unfold aux_field.
  destruct (load_inside (data b) s) as [t0 ->]; [lia|].
  destruct (load_inside (data b) (s + 1)) as [t1 ->]; [lia|].
  rewrite Htype. simpl.
  replace (s + 2 + 1) with (s + 3) by lia. rewrite Hsub. simpl.
  destruct (Z.ltb_spec (HtslibAuxSize sub_type) 0); [lia|].
  destruct (Z.ltb_spec (Z.of_nat (length (data b)) - (s + 3 + 1)) 4); [lia|].
  replace (s + 3 + 1) with (s + 4) by lia. rewrite Hcount. simpl.
  by rewrite Hzero.
Qed.

Lemma empty_array_is_data_loss_witness :
  exists n, forall fuel, (n <= fuel)%nat ->
    ParseAuxFields fuel
      (aux_only [chr "X"; chr "5"; chr "B"; chr "C"; 0; 0; 0; 0; 9; 9; 9; 9])
      parse_all Read_Clear
    = Ret (errors_DataLoss "n_elements is zero", Read_Clear).
Proof.
  apply (empty_array_is_data_loss
           (aux_only [chr "X"; chr "5"; chr "B"; chr "C"; 0; 0; 0; 0; 9; 9; 9; 9])
           parse_all Read_Clear 0 Read_Clear
           (chr "C") 0 eq_refl (reaches_here _ _ _));
    [lia | reflexivity | reflexivity | vm_compute; discriminate
    | reflexivity | reflexivity].
Defined.

(** ** The record converter *)

Ltac bind_inv H :=
  match type of H with
  | (?o ≫= _) = Ret _ =>
      let E := fresh "E" in
      destruct o eqn:E; simpl in H; [|discriminate H..]
  end.

Lemma convert_sequence_keeps (b : bam1_t) (m m' : Read) :
  convert_sequence b m = Ret m' ->
  fragment_name m' = fragment_name m
  /\ fragment_length m' = fragment_length m
  /\ proper_placement m' = proper_placement m
  /\ duplicate_fragment m' = duplicate_fragment m
  /\ failed_vendor_quality_checks m' = failed_vendor_quality_checks m
  /\ secondary_alignment m' = secondary_alignment m
  /\ supplementary_alignment m' = supplementary_alignment m
  /\ read_number m' = read_number m
  /\ number_reads m' = number_reads m
  /\ alignment m' = alignment m
  /\ next_mate_position m' = next_mate_position m
  /\ info m' = info m.
Proof.
  unfold convert_sequence. intros H.
  destruct (l_qseq (core b) =? 0); [by inversion H|].
  bind_inv H. bind_inv H.
  destruct (_ =? 255); [by inversion H|].
  bind_inv H. by inversion H.
Qed.

(** What the output holds once the name, the flags, the sequence and the
    alignment have been converted. *)
Lemma convert_fields_spec (h : bam_hdr_t) (b : bam1_t) (m : Read) :
  convert_fields h b = Ret m ->
  let c := core b in
  load_c_string (data b) (bam_get_qname b) = Ret (fragment_name m)
  /\ fragment_length m = isize c
  /\ proper_placement m = has_flag c BAM_FPROPER_PAIR
  /\ duplicate_fragment m = has_flag c BAM_FDUP
  /\ failed_vendor_quality_checks m = has_flag c BAM_FQCFAIL
  /\ secondary_alignment m = has_flag c BAM_FSECONDARY
  /\ supplementary_alignment m = has_flag c BAM_FSUPPLEMENTARY
  /\ read_number m
     = (if has_flag c BAM_FREAD1 || negb (has_flag c BAM_FPAIRED) then 0 else 1)
  /\ number_reads m = (if has_flag c BAM_FPAIRED then 2 else 1)
  /\ next_mate_position m = None
  /\ info m = ∅
  /\ (has_flag c BAM_FUNMAP = true -> alignment m = None)
  /\ (has_flag c BAM_FUNMAP = false ->
      exists units,
        convert_cigar b = Ret units
        /\ ((tid c < 0
             /\ alignment m = Some (mkLinearAlignment (qual c) units None))
            \/ (0 <= tid c
                /\ exists name,
                     array_get (target_name h) (tid c) = Ret name
                     /\ alignment m
                        = Some (mkLinearAlignment (qual c) units
                                  (Some (mkPosition name (pos c)
                                           (has_flag c BAM_FREVERSE))))))).
Proof.
  intros H c. unfold convert_fields in H.
  bind_inv H. rename a into m1.
  bind_inv H. rename a into m2.
  unfold convert_basic in E. bind_inv E. inversion E as [Hm1]. clear E.
  apply convert_sequence_keeps in E0
    as (F1 & F2 & F3 & F4 & F5 & F6 & F7 & F8 & F9 & F10 & F11 & F12).
  rewrite <- Hm1 in *. simpl in *. fold c in H |- *.
  unfold convert_alignment in H. fold c in H.
  destruct (has_flag c BAM_FUNMAP) eqn:Hun.
  - inversion H; subst m. rewrite F1, F2, F3, F4, F5, F6, F7, F8, F9, F10, F11, F12.
    repeat split; try done.
  - bind_inv H. rename a0 into units.
    destruct (Z.geb_spec (tid c) 0) as [Ht|Ht].
    + bind_inv H. inversion H; subst m. simpl.
      rewrite F1, F2, F3, F4, F5, F6, F7, F8, F9, F11, F12.
      repeat split; try done.
      intros _. exists units. split; [done|]. right. split; [lia|]. eauto.
    + inversion H; subst m. simpl.
      rewrite F1, F2, F3, F4, F5, F6, F7, F8, F9, F11, F12.
      repeat split; try done.
      intros _. exists units. split; [done|]. left. split; [lia|done].
Qed.

Ltac outcome_inv H :=
  repeat match type of H with
  | (?o ≫= _) = Ret _ =>
      let E := fresh "E" in
      destruct o eqn:E; simpl in H; [|discriminate H..]
  | (if ?c then _ else _) = Ret _ => let E := fresh "E" in destruct c eqn:E
  | (let '(_, _) := ?p in _) = Ret _ => destruct p
  | (match ?p with (_, _) => _ end) = Ret _ => destruct p
  end.

(** A failure of a turn of the loop is a data-loss error, and it leaves
    the message as it was when the turn began. *)
Lemma aux_field_Return (data : list Z) (s : Z) (m : Read) (st : Status)
    (m' : Read) :
  aux_field data s m = Ret (Return st m') -> m' = m /\ code st = DataLoss.
Proof.
  unfold aux_field. intros H. outcome_inv H; by inversion H.
Qed.

Lemma same_but_info_refl (m : Read) : same_but_info m m.
Proof. by repeat split. Qed.

Lemma same_but_info_trans (m1 m2 m3 : Read) :
  same_but_info m1 m2 -> same_but_info m2 m3 -> same_but_info m1 m3.
Proof.
  unfold same_but_info. intros H12 H23.
  destruct_and!. repeat split; congruence.
Qed.

Lemma aux_field_Continue (data : list Z) (s : Z) (m : Read) (s' : Z)
    (m' : Read) :
  aux_field data s m = Ret (Continue s' m') -> same_but_info m m'.
Proof.
  unfold aux_field. intros H.
  outcome_inv H; inversion H; subst;
    unfold same_but_info, SetInfoField, set_info; simpl;
    try case_match; by repeat split.
Qed.

Lemma reaches_same_but_info (data : list Z) (s : Z) (m : Read) (s' : Z)
    (m' : Read) :
  reaches data s m s' m' -> same_but_info m m'.
Proof.
  induction 1 as [|s m s1 m1 s' m' _ Hf _ IH].
  - apply same_but_info_refl.
  - eapply same_but_info_trans; [|exact IH]. by eapply aux_field_Continue.
Qed.

(** What the loop returns, it returns at a cursor the decoder got to by
    whole fields: either the loop ended there, or the field there failed. *)
Lemma aux_loop_Ret (fuel : nat) (data : list Z) (s : Z) (m : Read)
    (st : Status) (m' : Read) :
  aux_loop fuel data s m = Ret (st, m') ->
  exists s',
    reaches data s m s' m'
    /\ ((st = Status_OK /\ Z.of_nat (length data) - s' < 4)
        \/ (code st = DataLoss /\ 4 <= Z.of_nat (length data) - s'
            /\ aux_field data s' m' = Ret (Return st m'))).
Proof.
  revert s m. induction fuel as [|fuel IH]; intros s m; simpl;
    destruct (Z.geb_spec (Z.of_nat (length data) - s) 4) as [Hk|Hk];
    intros H; try discriminate H.
  - inversion H; subst. exists s. split; [constructor|]. left. split; [done|lia].
  - destruct (aux_field data s m) as [[s1 m1|st1 m1]| |] eqn:Hf;
      simpl in H; try discriminate H.
    + destruct (IH _ _ H) as (s' & Hr & Hs'). exists s'. split; [|done].
      eapply reaches_field; [lia|done|done].
    + inversion H; subst.
      pose proof (aux_field_Return _ _ _ _ _ Hf) as [-> Hc].
      exists s. split; [constructor|]. right. repeat split; [done|lia|done].
  - inversion H; subst. exists s. split; [constructor|]. left. split; [done|lia].
Qed.

Lemma ParseAuxFields_Ret (fuel : nat) (b : bam1_t) (options : SamReaderOptions)
    (m : Read) (st : Status) (m' : Read) :
  ParseAuxFields fuel b options m = Ret (st, m') ->
  same_but_info m m'
  /\ (ok st = false ->
      exists s, reaches (data b) (bam_get_aux b) m s m'
                /\ aux_field (data b) s m' = Ret (Return st m')).
Proof.
  unfold ParseAuxFields. destruct (negb _).
  - intros H; inversion H; subst. split; [apply same_but_info_refl|done].
  - intros H. apply aux_loop_Ret in H as (s & Hr & Hs). split.
    + by eapply reaches_same_but_info.
    + intros Hok. destruct Hs as [[-> _]|(_ & _ & Hf)]; [done|eauto].
Qed.

Section ConverterProperties.

Variable ShortDebugString : Read -> string.

Lemma convert_mate_spec (h : bam_hdr_t) (b : bam1_t) (m : Read)
    (st : Status) (m' : Read) :
  convert_mate ShortDebugString h b m = Ret (st, m') ->
  (mate_mapped_pair b = false /\ st = Status_OK /\ m' = m)
  \/ (mate_mapped_pair b = true /\ mtid (core b) < 0
      /\ m' = set_next_mate_position (Some Position_default) m
      /\ st = errors_DataLoss
                ("Expected mtid >= 0 as mate is supposedly mapped: "
                 +:+ ShortDebugString m'))
  \/ (mate_mapped_pair b = true /\ 0 <= mtid (core b) /\ st = Status_OK
      /\ exists name,
           array_get (target_name h) (mtid (core b)) = Ret name
           /\ m' = set_next_mate_position
                     (Some (mkPosition name (mpos (core b))
                              (has_flag (core b) BAM_FMREVERSE)))
                     (set_next_mate_position (Some Position_default) m)).
Proof.
  unfold convert_mate, mate_mapped_pair. intros H.
  destruct (has_flag (core b) BAM_FPAIRED
            && negb (has_flag (core b) BAM_FMUNMAP)).
  - destruct (Z.ltb_spec (mtid (core b)) 0).
    + inversion H; subst. right. left. by repeat split.
    + bind_inv H. inversion H; subst. right. right. repeat split; eauto.
  - inversion H; subst. by left.
Qed.

Lemma convert_aux_spec (fuel : nat) (b : bam1_t) (options : SamReaderOptions)
    (m : Read) (g : LogState) (st : Status) (out : Read) (g' : LogState) :
  convert_aux fuel b options m g = Ret (st, out, g') ->
  st = Status_OK
  /\ exists status, ParseAuxFields fuel b options m = Ret (status, out).
Proof.
  unfold convert_aux. intros H. bind_inv H. destruct a as [status m'].
  outcome_inv H; inversion H; subst; eauto.
Qed.

Lemma ConvertToPb_inv (fuel : nat) (h : bam_hdr_t) (b : bam1_t)
    (options : SamReaderOptions) (old : Read) (g : LogState)
    (st : Status) (out : Read) (g' : LogState) :
  ConvertToPb ShortDebugString fuel h b options old g = Ret (st, out, g') ->
  exists m st1 m2,
    convert_fields h b = Ret m
    /\ convert_mate ShortDebugString h b m = Ret (st1, m2)
    /\ ((ok st1 = false /\ st = st1 /\ out = m2 /\ g' = g)
        \/ (ok st1 = true /\ convert_aux fuel b options m2 g = Ret (st, out, g'))).
Proof.
  unfold ConvertToPb. intros H. bind_inv H. bind_inv H.
  destruct a0 as [st1 m2]. exists a, st1, m2.
  split; [done|]. split; [done|].
  destruct (ok st1); simpl in H.
  - right. by split.
  - left. by inversion H.
Qed.

(** The output's mate position and alignment, whatever the status. *)
Lemma ConvertToPb_mate_and_alignment (fuel : nat) (h : bam_hdr_t)
    (b : bam1_t) (options : SamReaderOptions) (old : Read) (g : LogState)
    (st : Status) (out : Read) (g' : LogState) :
  ConvertToPb ShortDebugString fuel h b options old g = Ret (st, out, g') ->
  exists m m2,
    convert_fields h b = Ret m
    /\ convert_mate ShortDebugString h b m = Ret (if ok st then Status_OK else st, m2)
    /\ alignment out = alignment m
    /\ next_mate_position out = next_mate_position m2.
Proof.
  intros H. apply ConvertToPb_inv in H as (m & st1 & m2 & Hf & Hm & H).
  exists m, m2. split; [done|].
  assert (alignment m2 = alignment m) as Ha.
  { apply convert_mate_spec in Hm
      as [(_ & _ & ->)|[(_ & _ & -> & _)|(_ & _ & _ & n & _ & ->)]]; done. }
  destruct H as [(Hok & -> & -> & ->)|(Hok & H)].
  - rewrite Hok. by repeat split.
  - apply convert_aux_spec in H as (-> & status & H). simpl.
    apply ParseAuxFields_Ret in H as [Hs _]. unfold same_but_info in Hs.
    destruct_and!. repeat split; try congruence.
    apply convert_mate_spec in Hm as Hm'.
    destruct Hm' as [(_ & -> & _)|[(_ & _ & _ & ->)|(_ & _ & -> & _)]];
      done.
Qed.

Lemma convert_fields_sequence (h : bam_hdr_t) (b : bam1_t) (m : Read) :
  convert_fields h b = Ret m ->
  exists m1 m2,
    convert_basic b = Ret m1 /\ convert_sequence b m1 = Ret m2
    /\ aligned_sequence m = aligned_sequence m2
    /\ aligned_quality m = aligned_quality m2.
Proof.
  unfold convert_fields. intros H. bind_inv H. bind_inv H.
  exists a, a0. split; [done|]. split; [done|].
  unfold convert_alignment in H. outcome_inv H; by inversion H.
Qed.

(** C2. For every record that ConvertToPb converts, the output has a
    next-mate position exactly when the record is paired and its mate is
    not flagged unmapped; a paired record with a mapped mate and a
    negative mate reference index makes the conversion fail with a
    data-loss error; and a mate position that comes with status OK is
    the one of a non-negative mate reference index, never a default. *)
Theorem mate_position_iff_mate_mapped_pair
    (h : bam_hdr_t) (b : bam1_t) (options : SamReaderOptions) (m : Read)
    (Hfields : convert_fields h b = Ret m) :
  (forall fuel old g st out g',
      ConvertToPb ShortDebugString fuel h b options old g = Ret (st, out, g') ->
      (is_Some (next_mate_position out)
       <-> has_flag (core b) BAM_FPAIRED = true
           /\ has_flag (core b) BAM_FMUNMAP = false)
      /\ (ok st = true ->
          forall p, next_mate_position out = Some p ->
            0 <= mtid (core b)
            /\ array_get (target_name h) (mtid (core b))
               = Ret (reference_name p)
            /\ position p = mpos (core b)))
  /\ (has_flag (core b) BAM_FPAIRED = true ->
      has_flag (core b) BAM_FMUNMAP = false ->
      mtid (core b) < 0 ->
      forall fuel old g,
      exists msg out,
        ConvertToPb ShortDebugString fuel h b options old g
        = Ret (errors_DataLoss msg, out, g)).
Proof.
  pose proof (convert_fields_spec h b m Hfields) as Hspec. simpl in Hspec.
  destruct Hspec as (_ & _ & _ & _ & _ & _ & _ & _ & _ & Hnone & _).
  split.
  - intros fuel old g st out g' H.
    apply ConvertToPb_mate_and_alignment in H as (m' & m2 & Hf & Hm & _ & Hn).
    rewrite Hfields in Hf. inversion Hf; subst m'. rewrite Hn.
    apply convert_mate_spec in Hm. unfold mate_mapped_pair in Hm.
    destruct Hm as [(Hp & Hst & ->)|[(Hp & Hlt & -> & Hst)
                                    |(Hp & Hge & Hst & name & Hname & ->)]].
    + rewrite Hnone. split.
      * split; [by intros [? ?]|]. intros [H1 H2]. by rewrite H1, H2 in Hp.
      * by intros.
    + apply andb_prop in Hp as [H1 H2%negb_true_iff]. simpl. split.
      * split; [done|by eexists].
      * intros Hok. rewrite Hok in Hst. by destruct (ok st).
    + apply andb_prop in Hp as [H1 H2%negb_true_iff]. simpl. split.
      * split; [done|by eexists].
      * intros _ p [= <-]. by simpl.
  - intros Hp Hm Hlt fuel old g. unfold ConvertToPb, convert_mate.
    rewrite Hfields. simpl. rewrite Hp, Hm. simpl.
    destruct (Z.ltb_spec (mtid (core b)) 0); [|lia]. simpl. eauto.
Qed.

(** C3, as amended. For every successfully converted record the output
    has an alignment exactly when the record's unmapped flag is clear; a
    record flagged unmapped gets no alignment, hence no position; a
    record not flagged unmapped gets a mapping quality, and a position
    exactly when its reference index is not negative. *)
Theorem alignment_iff_mapped
    (fuel : nat) (h : bam_hdr_t) (b : bam1_t) (options : SamReaderOptions)
    (old : Read) (g : LogState) (st : Status) (out : Read) (g' : LogState)
    (Hconv : ConvertToPb ShortDebugString fuel h b options old g
             = Ret (st, out, g'))
    (Hok : ok st = true) :
  (is_Some (alignment out) <-> has_flag (core b) BAM_FUNMAP = false)
  /\ (has_flag (core b) BAM_FUNMAP = true -> alignment out = None)
  /\ (has_flag (core b) BAM_FUNMAP = false ->
      exists a,
        alignment out = Some a
        /\ mapping_quality a = qual (core b)
        /\ (is_Some (alignment_position a) <-> 0 <= tid (core b))).
Proof.
  apply ConvertToPb_mate_and_alignment in Hconv
    as (m & m2 & Hf & _ & Ha & _).
  apply convert_fields_spec in Hf. simpl in Hf.
  destruct Hf as (_ & _ & _ & _ & _ & _ & _ & _ & _ & _ & _ & Hun & Hmap).
  rewrite Ha. clear Ha.
  assert (has_flag (core b) BAM_FUNMAP = false ->
          exists a, alignment m = Some a
                    /\ mapping_quality a = qual (core b)
                    /\ (is_Some (alignment_position a) <-> 0 <= tid (core b)))
    as Hmapped.
  { intros Hc. destruct (Hmap Hc) as (units & _ & [[Hlt ->]|(Hge & n & _ & ->)]);
      eexists; (split; [done|]); simpl; (split; [done|]).
    - split; [by intros [? ?]|lia].
    - split; [done|by eexists]. }
  split; [|by split].
  destruct (has_flag (core b) BAM_FUNMAP).
  - rewrite Hun by done. split; [by intros [? ?]|done].
  - destruct Hmapped as (a & -> & _); [done|]. split; [done|by eexists].
Qed.

(** C4. When the aux fields of a record fail to decode, ConvertToPb
    still returns OK with the record as the decoder left it: what the
    whole fields before the failing one put in it.  The failure bumps
    the counter and is logged only while the counter is below 1. *)
Theorem aux_failure_does_not_abort
    (fuel : nat) (h : bam_hdr_t) (b : bam1_t) (options : SamReaderOptions)
    (old : Read) (g : LogState) (m : Read) (st1 : Status) (m2 : Read)
    (status : Status) (m3 : Read)
    (Hfields : convert_fields h b = Ret m)
    (Hmate : convert_mate ShortDebugString h b m = Ret (st1, m2))
    (Hmate_ok : ok st1 = true)
    (Haux : ParseAuxFields fuel b options m2 = Ret (status, m3))
    (Hfail : ok status = false) :
  exists g',
    ConvertToPb ShortDebugString fuel h b options old g
    = Ret (Status_OK, m3, g')
    /\ counter g' = int32 (counter g + 1)
    /\ (counter g < 1 -> exists w, warnings g' = warnings g ++ [w])
    /\ (1 <= counter g -> warnings g' = warnings g)
    /\ exists s,
         reaches (data b) (bam_get_aux b) m2 s m3
         /\ aux_field (data b) s m3 = Ret (Return status m3).
Proof.
  pose proof (convert_fields_spec h b m Hfields) as Hspec. simpl in Hspec.
  destruct Hspec as (Hname & _).
  apply ParseAuxFields_Ret in Haux as Hshape. destruct Hshape as [_ Hs].
  unfold ConvertToPb, convert_aux. rewrite Hfields. simpl.
  rewrite Hmate. simpl. rewrite Hmate_ok. simpl.
  rewrite Haux. simpl. rewrite Hfail. simpl.
  destruct (Z.ltb_spec (counter g) 1).
  - rewrite Hname. simpl. eexists. split; [done|]. simpl.
    split; [done|]. split; [eauto|]. split; [lia|]. by apply Hs.
  - eexists. split; [done|]. simpl.
    split; [done|]. split; [lia|]. split; [done|]. by apply Hs.
Qed.

(** C10. When ConvertToPb returns the mate-inconsistency error, the
    caller's record is not what it was: it has been cleared and filled
    with the name, the flags, the pairing, the sequence and qualities
    and the alignment, and it holds a next-mate position with every
    field at its default. *)
Theorem mate_error_leaves_partial_record
    (fuel : nat) (h : bam_hdr_t) (b : bam1_t) (options : SamReaderOptions)
    (old : Read) (g : LogState) (m : Read)
    (Hfields : convert_fields h b = Ret m)
    (Hpaired : has_flag (core b) BAM_FPAIRED = true)
    (Hmate : has_flag (core b) BAM_FMUNMAP = false)
    (Hmtid : mtid (core b) < 0) :
  let out := set_next_mate_position (Some Position_default) m in
  ConvertToPb ShortDebugString fuel h b options old g
  = Ret (errors_DataLoss
           ("Expected mtid >= 0 as mate is supposedly mapped: "
            +:+ ShortDebugString out),
         out, g)
  /\ load_c_string (data b) (bam_get_qname b) = Ret (fragment_name out)
  /\ fragment_length out = isize (core b)
  /\ proper_placement out = has_flag (core b) BAM_FPROPER_PAIR
  /\ duplicate_fragment out = has_flag (core b) BAM_FDUP
  /\ failed_vendor_quality_checks out = has_flag (core b) BAM_FQCFAIL
  /\ secondary_alignment out = has_flag (core b) BAM_FSECONDARY
  /\ supplementary_alignment out = has_flag (core b) BAM_FSUPPLEMENTARY
  /\ read_number out = (if has_flag (core b) BAM_FREAD1 then 0 else 1)
  /\ number_reads out = 2
  /\ (exists m1 m2,
        convert_basic b = Ret m1 /\ convert_sequence b m1 = Ret m2
        /\ aligned_sequence out = aligned_sequence m2
        /\ aligned_quality out = aligned_quality m2)
  /\ (is_Some (alignment out) <-> has_flag (core b) BAM_FUNMAP = false)
  /\ next_mate_position out = Some Position_default
  /\ info out = ∅
  /\ (next_mate_position old <> Some Position_default -> out <> old).
Proof.
  intros out.
  pose proof (convert_fields_spec h b m Hfields) as Hspec. simpl in Hspec.
  destruct Hspec
    as (F1 & F2 & F3 & F4 & F5 & F6 & F7 & F8 & F9 & _ & F11 & Hun & Hmap).
  rewrite Hpaired in F8, F9. rewrite orb_false_r in F8.
  split.
  { unfold ConvertToPb, convert_mate. rewrite Hfields. simpl.
    rewrite Hpaired, Hmate. simpl.
    destruct (Z.ltb_spec (mtid (core b)) 0); [done|lia]. }
  repeat (split; [done|]).
  split; [exact (convert_fields_sequence h b m Hfields)|].
  split.
  { subst out. simpl. destruct (has_flag (core b) BAM_FUNMAP).
    - rewrite Hun by done. split; [by intros [? ?]|done].
    - destruct Hmap as (units & _ & [[_ ->]|(_ & n & _ & ->)]); [done|..];
        (split; [done|by eexists]). }
  repeat (split; [done|]).
  intros Hold Heq. apply Hold. by rewrite <- Heq.
Qed.

End ConverterProperties.

Lemma mate_position_iff_mate_mapped_pair_witness :
  let b := small_record 1 0 (-1) [] in
  (forall fuel old g st out g',
      ConvertToPb no_debug_string fuel one_contig b parse_all old g
      = Ret (st, out, g') ->
      is_Some (next_mate_position out))
  /\ exists msg out,
       ConvertToPb no_debug_string 0 one_contig b parse_all Read_Clear
         (mkLog 0 [])
       = Ret (errors_DataLoss msg, out, mkLog 0 []).
Proof.
  intros b.
  destruct (mate_position_iff_mate_mapped_pair no_debug_string one_contig b
              parse_all _ eq_refl) as [H1 H2].
  split.
  - intros fuel old g st out g' H. apply (H1 _ _ _ _ _ _ H). by split.
  - apply H2; [reflexivity | reflexivity | vm_compute; reflexivity].
Defined.

(** C3 as stated fails: a record whose unmapped flag is clear and whose
    reference index is -1 is converted with an alignment and no position. *)
Lemma mapped_flag_without_position :
  let b := small_record 0 (-1) (-1) [] in
  has_flag (core b) BAM_FUNMAP = false
  /\ exists out g',
       ConvertToPb no_debug_string 0 one_contig b parse_all Read_Clear
         (mkLog 0 [])
       = Ret (Status_OK, out, g')
       /\ alignment out = Some (mkLinearAlignment 30 [] None).
Proof. split; [reflexivity|]. eexists _, _. split; reflexivity. Qed.

Lemma alignment_iff_mapped_witness :
  exists a,
    Some (mkLinearAlignment 30 []
            (Some (mkPosition "chr1" 10 false))) = Some a
    /\ mapping_quality a = 30
    /\ (is_Some (alignment_position a) <-> 0 <= 0).
Proof.
  destruct (alignment_iff_mapped no_debug_string 0 one_contig
              (small_record 0 0 (-1) []) parse_all Read_Clear (mkLog 0 [])
              _ _ _ eq_refl eq_refl) as (_ & _ & H).
  apply H. reflexivity.
Defined.

Lemma aux_failure_does_not_abort_witness :
  exists g',
    ConvertToPb no_debug_string 3 one_contig
      (small_record 0 0 (-1)
         [chr "X"; chr "1"; chr "C"; 7; chr "Y"; chr "1"; chr "q"; 7])
      parse_all Read_Clear (mkLog 0 [])
    = Ret (Status_OK,
           SetInfoField "X1" (IntValue 7)
             (mkRead "r1" 0 false false false false false 0 1 "AC" [40; 41]
                (Some (mkLinearAlignment 30 []
                         (Some (mkPosition "chr1" 10 false))))
                None ∅),
           g')
    /\ counter g' = 1
    /\ exists w, warnings g' = [w].
Proof.
  destruct (aux_failure_does_not_abort no_debug_string 3 one_contig
              (small_record 0 0 (-1)
                 [chr "X"; chr "1"; chr "C"; 7; chr "Y"; chr "1"; chr "q"; 7])
              parse_all Read_Clear (mkLog 0 []) _ _ _ _ _
              eq_refl eq_refl eq_refl eq_refl eq_refl)
    as (g' & H & Hc & Hw & _).
  exists g'. split; [exact H|]. split; [exact Hc|].
  apply Hw. simpl. lia.
Defined.

Lemma mate_error_leaves_partial_record_witness :
  exists out,
    ConvertToPb no_debug_string 0 one_contig (small_record 1 0 (-1) [])
      parse_all Read_Clear (mkLog 0 [])
    = Ret (errors_DataLoss
             "Expected mtid >= 0 as mate is supposedly mapped: ",
           out, mkLog 0 [])
    /\ fragment_name out = "r1" /\ aligned_sequence out = "AC"
    /\ next_mate_position out = Some Position_default
    /\ out <> Read_Clear.
Proof.
  pose proof (mate_error_leaves_partial_record no_debug_string 0 one_contig
                (small_record 1 0 (-1) []) parse_all Read_Clear (mkLog 0 [])
                _ eq_refl eq_refl eq_refl ltac:(reflexivity)) as H.
  eexists. split; [exact (proj1 H)|].
  split; [reflexivity|]. split; [reflexivity|]. split; [reflexivity|].
  do 14 apply proj2 in H. apply H. discriminate.
Defined.

(** *** Well-formed records are converted without a fault *)

Lemma mapM_returns {A B} (f : A -> outcome B) (l : list A) :
  Forall (fun x => returns (f x)) l -> returns (mapM f l).
Proof.
  induction 1 as [|x l [y Hy] _ [ys Hys]]; simpl.
  - by eexists.
  - rewrite Hy. simpl. rewrite Hys. simpl. by eexists.
Qed.

Lemma bam_layout (b : bam1_t) :
  0 <= l_qname (core b) -> 0 <= n_cigar (core b) -> 0 <= l_qseq (core b) ->
  bam_get_cigar b = l_qname (core b)
  /\ bam_get_seq b = 4 * n_cigar (core b) + l_qname (core b)
  /\ bam_get_qual b = bam_get_seq b + (l_qseq (core b) + 1) / 2
  /\ bam_get_aux b = bam_get_qual b + l_qseq (core b).
Proof.
  intros. unfold bam_get_cigar, bam_get_seq, bam_get_qual, bam_get_aux.
  rewrite Z.shiftl_mul_pow2, Z.shiftr_div_pow2 by lia.
  change (2 ^ 2) with 4. change (2 ^ 1) with 2. lia.
Qed.

Lemma convert_sequence_returns (h : bam_hdr_t) (b : bam1_t) (m : Read) :
  record_well_formed h b -> returns (convert_sequence b m).
Proof.
  intros (_ & Hq & Hc & Hs & Haux & _).
  destruct (bam_layout b Hq Hc Hs) as (_ & Eseq & Equal & Eaux).
  unfold convert_sequence, l_data in *.
  destruct (Z.eqb_spec (l_qseq (core b)) 0); [by eexists|].
  assert (0 <= (l_qseq (core b) + 1) / 2) by (apply Z.div_pos; lia).
  apply returns_bind.
  { apply mapM_returns, Forall_seqZ. intros i Hi. apply returns_bind.
    - unfold bam_seqi. apply returns_bind; [|intros; by eexists].
      apply load_returns. rewrite Z.shiftr_div_pow2 by lia.
      change (2 ^ 1) with 2.
      assert (0 <= i / 2) by (apply Z.div_pos; lia).
      assert (i / 2 < (l_qseq (core b) + 1) / 2).
      { apply Z.div_lt_upper_bound; [lia|].
        pose proof (Z.mod_pos_bound (l_qseq (core b) + 1) 2).
        pose proof (Z.div_mod (l_qseq (core b) + 1) 2). lia. }
      lia.
    - intros x Hx. unfold bam_seqi in Hx.
      destruct (load (data b) _) as [byte| |]; simpl in Hx; try done.
      inversion Hx; subst x. apply array_get_inside.
      change 15 with (Z.ones 4). rewrite Z.land_ones by lia.
      change (Z.of_nat (length seq_nt16_str)) with 16.
      change (2 ^ 4) with 16. apply Z.mod_pos_bound. lia. }
  intros seq _. apply returns_bind; [apply load_returns; lia|].
  intros q0 _. destruct (q0 =? 255); [by eexists|].
  apply returns_bind; [|intros; by eexists].
  apply mapM_returns, Forall_seqZ. intros i Hi. apply load_returns. lia.
Qed.

Lemma convert_cigar_returns (h : bam_hdr_t) (b : bam1_t) :
  record_well_formed h b -> returns (convert_cigar b).
Proof.
  intros (_ & Hq & Hc & Hs & Haux & Hops & _).
  destruct (bam_layout b Hq Hc Hs) as (Ecig & Eseq & Equal & Eaux).
  unfold convert_cigar, l_data in *.
  assert (0 <= (l_qseq (core b) + 1) / 2) by (apply Z.div_pos; lia).
  apply mapM_returns, Forall_seqZ. intros i Hi.
  apply returns_bind; [apply le_to_u32_returns; lia|].
  intros w Hw. apply returns_bind; [|intros; by eexists].
  apply array_get_inside. split.
  - apply Z.land_nonneg. lia.
  - change (Z.of_nat (length kHtslibCigarToProto)) with 9.
    apply (Hops i); [lia|done].
Qed.

Lemma convert_alignment_returns (h : bam_hdr_t) (b : bam1_t) (m : Read) :
  record_well_formed h b -> returns (convert_alignment h b m).
Proof.
  intros Hwf. pose proof Hwf as (_ & _ & _ & _ & _ & _ & Htid).
  unfold convert_alignment.
  destruct (has_flag (core b) BAM_FUNMAP); [by eexists|].
  apply returns_bind; [by eapply convert_cigar_returns|].
  intros units _. destruct (Z.geb_spec (tid (core b)) 0); [|by eexists].
  apply returns_bind; [apply array_get_inside; lia|]. intros; by eexists.
Qed.

(** A well-formed record is read without a fault up to the mate's
    position. *)
Lemma convert_fields_returns (h : bam_hdr_t) (b : bam1_t) :
  record_well_formed h b -> returns (convert_fields h b).
Proof.
  intros Hwf. pose proof Hwf as (Hname & _).
  unfold convert_fields.
  apply returns_bind.
  { unfold convert_basic, load_c_string, bam_get_qname, l_data in *.
    simpl. rewrite drop_0.
    destruct (Z.geb_spec (scan_nul (data b) 0) (Z.of_nat (length (data b))));
      [lia|].
    by eexists. }
  intros m1 _. apply returns_bind; [by eapply convert_sequence_returns|].
  intros m2 _. by apply convert_alignment_returns.
Qed.

Example small_record_well_formed :
  record_well_formed one_contig (small_record 1 0 (-1) []).
Proof.
  repeat split; try (vm_compute; congruence).
  intros i w Hi. simpl in Hi. lia.
Qed.

(** ** The keep-predicate and the iteration engine *)

Section IterationProperties.

Variable ShortDebugString : Read -> string.
Variable ReadSatisfiesRequirements : Read -> ReadRequirements -> bool.
Variable Generator : Type.
Variable seed_generator : Z -> Generator.
Variable uniform : Generator -> Q * Generator.

#[local] Abbreviation KeepRead' := (KeepRead ReadSatisfiesRequirements uniform).
#[local] Abbreviation Next_loop' :=
  (Next_loop ShortDebugString ReadSatisfiesRequirements uniform).
#[local] Abbreviation skipped' :=
  (skipped ShortDebugString ReadSatisfiesRequirements uniform).
#[local] Abbreviation ConvertToPb' := (ConvertToPb ShortDebugString).

Lemma ConvertToPb_status (fuel : nat) (h : bam_hdr_t) (b : bam1_t)
    (options : SamReaderOptions) (old : Read) (g : LogState)
    (st : Status) (out : Read) (g' : LogState) :
  ConvertToPb' fuel h b options old g = Ret (st, out, g') ->
  st = Status_OK \/ code st = DataLoss.
Proof.
  intros H. apply ConvertToPb_inv in H as (m & st1 & m2 & _ & Hm & H).
  destruct H as [(Hok & -> & _)|(_ & H)].
  - apply convert_mate_spec in Hm
      as [(_ & -> & _)|[(_ & _ & _ & ->)|(_ & _ & -> & _)]]; auto.
  - apply convert_aux_spec in H as [-> _]. by left.
Qed.

(** Records that are read, converted and rejected do not end the
    iteration: it goes on with what follows them. *)
Lemma Next_loop_skipped (fuel : nat) (h : bam_hdr_t)
    (options : SamReaderOptions) (rejected rest : cursor_t) (out : Read)
    (s : FractionalSampler Generator) (g : LogState) (out1 : Read)
    (s1 : FractionalSampler Generator) (g1 : LogState) :
  skipped' fuel h options rejected out s g out1 s1 g1 ->
  Next_loop' fuel h options (rejected ++ rest) out s g
  = Next_loop' fuel h options rest out1 s1 g1.
Proof.
  induction 1 as [|code b rej out s g status out1 g1 s1 out' s' g'
                   Hcode Hc Hok Hk _ IH]; [done|].
  simpl. destruct (Z.eqb_spec code (-1)); [lia|].
  destruct (Z.ltb_spec code (-1)); [lia|].
  rewrite Hc. simpl. rewrite Hok. simpl. rewrite Hk. apply IH.
Qed.

(** C5. Next() on a live iterable: the raw records it passed over were
    all read, converted and rejected by the keep-predicate; after them it
    yields a record only if the keep-predicate accepts it, says "no more
    records" only when the cursor returns -1, and fails only when the
    cursor returns a code below -1 or the conversion of the record
    fails, each time with a data-loss error. *)
Theorem Next_never_stops_on_rejection
    (fuel : nat) (h : bam_hdr_t) (options : SamReaderOptions)
    (it : IterState Generator) (out : Read) (res : StatusOr bool)
    (out' : Read) (it' : IterState Generator)
    (Hnext : Next ShortDebugString ReadSatisfiesRequirements uniform
               fuel true h options it out = Ret (res, out', it')) :
  exists rejected rest out1 s1 g1,
    cursor it = rejected ++ rest
    /\ skipped' fuel h options rejected out (sampler_ it) (log_ it) out1 s1 g1
    /\ match res with
       | Value true =>
           exists code b status,
             rest = (code, b) :: cursor it' /\ 0 <= code
             /\ ConvertToPb' fuel h b options out1 g1
                = Ret (status, out', log_ it')
             /\ ok status = true
             /\ KeepRead' options s1 out' = (true, sampler_ it')
       | Value false =>
           (rest = [] \/ exists b, rest = (-1, b) :: cursor it')
           /\ out' = out1 /\ sampler_ it' = s1 /\ log_ it' = g1
       | Error st =>
           code st = DataLoss
           /\ exists code b,
                rest = (code, b) :: cursor it'
                /\ (code < -1
                    \/ (0 <= code
                        /\ exists g2,
                             ConvertToPb' fuel h b options out1 g1
                             = Ret (st, out', g2)
                             /\ ok st = false))
       end.
Proof.
  destruct it as [cur s g]. unfold Next in Hnext. simpl in *.
  revert out s g Hnext.
  induction cur as [|[code b] cur IH]; intros out s g H; simpl in H.
  - inversion H; subst. exists [], [], out', s, g.
    split; [done|]. split; [constructor|]. simpl. auto.
  - destruct (Z.eqb_spec code (-1)) as [->|Hne].
    { inversion H; subst. exists [], ((-1, b) :: cur), out', s, g.
      split; [done|]. split; [constructor|]. simpl.
      split; [right; eauto|done]. }
    destruct (Z.ltb_spec code (-1)) as [Hlt|Hge].
    { inversion H; subst. exists [], ((code, b) :: cur), out', s, g.
      split; [done|]. split; [constructor|]. simpl.
      split; [done|]. exists code, b. split; [done|]. by left. }
    destruct (ConvertToPb' fuel h b options out g)
      as [[[status out1] g1]| |] eqn:Hc; simpl in H; try discriminate H.
    destruct (ok status) eqn:Hok; simpl in H.
    + destruct (KeepRead' options s out1) as [keep s1] eqn:Hk.
      destruct keep.
      * inversion H; subst. exists [], ((code, b) :: cur), out, s, g.
        split; [done|]. split; [constructor|]. simpl.
        exists code, b, status. repeat split; try done. lia.
      * apply IH in H as (rej & rest & out2 & s2 & g2 & -> & Hs & Hres).
        exists ((code, b) :: rej), rest, out2, s2, g2.
        split; [done|]. split; [|done].
        eapply skipped_cons; eauto. lia.
    + inversion H; subst. exists [], ((code, b) :: cur), out, s, g.
      split; [done|]. split; [constructor|]. simpl.
      split.
      { apply ConvertToPb_status in Hc as [->|?]; done. }
      exists code, b. split; [done|]. right. split; [lia|]. eauto.
Qed.

#[local] Abbreviation keeps :=
  (keep_decisions ReadSatisfiesRequirements uniform).
#[local] Abbreviation meets := (meets_requirements ReadSatisfiesRequirements).

Lemma KeepRead_fraction_kept (options : SamReaderOptions)
    (s : FractionalSampler Generator) (read : Read) :
  fraction_ (snd (KeepRead' options s read)) = fraction_ s.
Proof.
  unfold KeepRead, Keep. repeat case_match; simpl; try done.
Qed.

Lemma KeepRead_disabled (options : SamReaderOptions)
    (s : FractionalSampler Generator) (read : Read) :
  (downsample_fraction options == 0)%Q ->
  KeepRead' options s read = (meets options read, s).
Proof.
  intros H0. apply Qeq_bool_iff in H0. unfold KeepRead, meets_requirements.
  rewrite H0. by repeat case_match.
Qed.

Lemma keeps_disabled (options : SamReaderOptions)
    (s : FractionalSampler Generator) (reads : list Read) :
  (downsample_fraction options == 0)%Q ->
  keeps options s reads = map (meets options) reads.
Proof.
  intros H0. induction reads as [|read reads IH]; simpl; [done|].
  rewrite KeepRead_disabled by done. by rewrite IH.
Qed.

Lemma keeps_same_options (o1 o2 : SamReaderOptions)
    (s : FractionalSampler Generator) (reads : list Read) :
  downsample_fraction o1 = downsample_fraction o2 ->
  read_requirements o1 = read_requirements o2 ->
  keeps o1 s reads = keeps o2 s reads.
Proof.
  intros Hf Hr. revert s. induction reads as [|read reads IH]; intros s;
    simpl; [done|].
  assert (KeepRead' o1 s read = KeepRead' o2 s read) as ->.
  { unfold KeepRead. by rewrite Hf, Hr. }
  destruct (KeepRead' o2 s read). by rewrite IH.
Qed.

Section UniformDraw.

(** The draw is from [0, 1). *)
Hypothesis uniform_range :
  forall g, (0 <= fst (uniform g) /\ fst (uniform g) < 1)%Q.

Lemma KeepRead_full (options : SamReaderOptions)
    (s : FractionalSampler Generator) (read : Read) :
  (fraction_ s == 1)%Q ->
  fst (KeepRead' options s read) = meets options read.
Proof.
  intros H1. unfold KeepRead, meets_requirements, Keep.
  destruct (match read_requirements options with
            | Some r => ReadSatisfiesRequirements read r
            | None => true
            end); [|done].
  destruct (Qeq_bool (downsample_fraction options) 0); [done|].
  pose proof (uniform_range (generator_ s)) as [_ Hlt].
  destruct (uniform (generator_ s)) as [u g']. simpl in *.
  apply Qle_bool_iff. rewrite H1. by apply Qlt_le_weak.
Qed.

Lemma keeps_full (options : SamReaderOptions)
    (s : FractionalSampler Generator) (reads : list Read) :
  (fraction_ s == 1)%Q ->
  keeps options s reads = map (meets options) reads.
Proof.
  revert s. induction reads as [|read reads IH]; intros s H1; simpl;
    [done|].
  pose proof (KeepRead_full options s read H1) as Hk.
  pose proof (KeepRead_fraction_kept options s read) as Hf.
  destruct (KeepRead' options s read) as [keep s']. simpl in *.
  rewrite Hk, IH; [done|]. by rewrite Hf.
Qed.

(** C6. With fraction 1.0 the sampler turns no record away: every
    record that meets the read requirements is kept, all of them when
    there are no requirements.  With fraction 0.0 the same records are
    kept and the sampler is left in the state it was in: the generator
    is not called.  The decisions are a function of the fraction, the
    seed, the requirements and the records, and of nothing else. *)
Theorem downsampling_full_disabled_deterministic
    (options : SamReaderOptions) (reads : list Read) :
  ((downsample_fraction options == 1)%Q ->
   keeps options (make_sampler seed_generator options) reads
   = map (meets options) reads
   /\ (read_requirements options = None ->
       keeps options (make_sampler seed_generator options) reads
       = map (fun _ => true) reads))
  /\ ((downsample_fraction options == 0)%Q ->
      (forall s read,
          KeepRead' options s read = (meets options read, s))
      /\ (read_requirements options = None ->
          forall s read, KeepRead' options s read = (true, s)))
  /\ (forall options',
        downsample_fraction options' = downsample_fraction options ->
        random_seed options' = random_seed options ->
        read_requirements options' = read_requirements options ->
        keeps options' (make_sampler seed_generator options') reads
        = keeps options (make_sampler seed_generator options) reads).
Proof.
  split; [|split].
  - intros H1. split; [by apply keeps_full|].
    intros Hnone. rewrite keeps_full by done.
    apply map_ext. intros read. unfold meets_requirements.
    by rewrite Hnone.
  - intros H0. split; [intros; by apply KeepRead_disabled|].
    intros Hnone s read. rewrite KeepRead_disabled by done.
    unfold meets_requirements. by rewrite Hnone.
  - intros options' Hf Hs Hr. unfold make_sampler. rewrite Hf, Hs.
    by apply keeps_same_options.
Qed.

End UniformDraw.

End IterationProperties.

Lemma Next_never_stops_on_rejection_witness :
  exists rejected b,
    duplicate_then_plain = rejected ++ [(0, b)]
    /\ length rejected = 1%nat.
Proof.
  destruct (Next_never_stops_on_rejection no_debug_string no_duplicates
              bool flip_uniform 0 one_contig with_requirements
              (mkIter duplicate_then_plain
                 (make_sampler flip_seed with_requirements) (mkLog 0 []))
              Read_Clear (Value true) _ _ eq_refl)
    as (rejected & rest & out1 & s1 & g1 & Hcur & Hskip & Hres).
  destruct Hres as (code & b & status & -> & _).
  simpl in Hcur. exists rejected, b.
  destruct rejected as [|r1 [|r2 rejected]]; simpl in Hcur;
    inversion Hcur; subst; try done.
  by destruct rejected.
Defined.

Lemma flip_uniform_range (g : bool) :
  (0 <= fst (flip_uniform g) /\ fst (flip_uniform g) < 1)%Q.
Proof. destruct g; simpl; split; done. Qed.

Lemma downsampling_full_disabled_deterministic_witness :
  keep_decisions no_duplicates flip_uniform full_options
    (make_sampler flip_seed full_options)
    [Read_Clear; Read_Clear; Read_Clear]
  = [true; true; true].
Proof.
  destruct (downsampling_full_disabled_deterministic no_duplicates bool
              flip_seed flip_uniform flip_uniform_range full_options
              [Read_Clear; Read_Clear; Read_Clear]) as [H _].
  destruct H as [_ H]; [reflexivity|]. apply H. reflexivity.
Defined.

(** ** The reader *)

Lemma name2id_unknown (names : list string) (name : string) (i : Z) :
  name ∉ names -> name2id names name i = -1.
Proof.
  revert i. induction names as [|n names IH]; intros i Hn; simpl; [done|].
  destruct (String.eqb_spec n name) as [->|_].
  - exfalso. apply Hn. by left.
  - apply IH. intros Hin. apply Hn. by right.
Qed.

(** A name without a NUL character is passed to the library whole. *)
Lemma c_str_nul_free (s : string) :
  Ascii.zero ∉ list_ascii_of_string s -> c_str s = s.
Proof.
  induction s as [|c s IH]; simpl; intros Hnul; [done|].
  destruct (Ascii.eqb_spec c Ascii.zero) as [->|_].
  - exfalso. apply Hnul. by left.
  - f_equal. apply IH. intros Hin. apply Hnul. by right.
Qed.

Section ReaderProperties.

Variables htsFile hts_idx_t hts_itr_t : Type.
Variable sam_itr_queryi : hts_idx_t -> Z -> Z -> Z -> option hts_itr_t.
Variable hts_close : htsFile -> Z.
Variable RangeDebugString : Range -> string.

#[local] Abbreviation Query' := (Query sam_itr_queryi RangeDebugString).

(** C7. After Close(), Iterate() and Query() fail with a precondition
    error.  On an open reader Query() fails with a precondition error
    when no index was loaded, and with a not-found error when the header
    does not know the reference name or the index rejects the interval;
    in each case it returns the error.  The reference name is the one the
    library is given, [c_str()] of the region's name: the name itself
    unless it holds a NUL character. *)
Theorem closed_or_unindexed_reader_fails
    (r : SamReader htsFile hts_idx_t) (fp : htsFile) (h : bam_hdr_t)
    (region : Range)
    (Hfp : fp_ r = Some fp) (Hh : header_ r = Some h) :
  (exists st r',
      Close hts_close r = Ret (st, r')
      /\ Iterate (hts_itr_t := hts_itr_t) r'
         = Error (errors_FailedPrecondition
                    "Cannot Iterate a closed SamReader.")
      /\ Query' r' region
         = Ret (Error (errors_FailedPrecondition
                         "Cannot Query a closed SamReader.")))
  /\ (idx_ r = None ->
      Query' r region
      = Ret (Error (errors_FailedPrecondition
                      "Cannot query without an index")))
  /\ (forall idx, idx_ r = Some idx ->
      c_str (range_reference_name region) ∉ target_name h ->
      Query' r region
      = Ret (Error (errors_NotFound
                      ("Unknown reference_name "
                       +:+ RangeDebugString region))))
  /\ (forall idx, idx_ r = Some idx ->
      0 <= bam_name2id h (c_str (range_reference_name region)) ->
      sam_itr_queryi idx (bam_name2id h (c_str (range_reference_name region)))
        (range_start region) (range_end region) = None ->
      Query' r region
      = Ret (Error (errors_NotFound
                      ("region '" +:+ RangeDebugString region
                       +:+ "' specifies an unknown reference interval")))).
Proof.
  split; [|split; [|split]].
  - unfold Close. rewrite Hfp. by eexists _, _.
  - intros Hidx. unfold Query. by rewrite Hfp, Hidx.
  - intros idx Hidx Hname. unfold Query, bam_name2id.
    rewrite Hfp, Hidx, Hh, name2id_unknown by done. done.
  - intros idx Hidx Htid Hq. unfold Query. rewrite Hfp, Hidx, Hh.
    destruct (Z.ltb_spec
                (bam_name2id h (c_str (range_reference_name region))) 0);
      [lia|].
    by rewrite Hq.
Qed.

End ReaderProperties.

Lemma closed_or_unindexed_reader_fails_witness :
  Query unit_queryi whole_range
    (mkReader (Some tt) (Some one_contig) (@None unit))
    (mkRange "chr1" 100 200)
  = Ret (Error (errors_FailedPrecondition "Cannot query without an index"))
  /\ Query unit_queryi whole_range
       (mkReader (Some tt) (Some one_contig) (Some tt))
       (mkRange "chr2" 100 200)
     = Ret (Error (errors_NotFound "Unknown reference_name chr2")).
Proof.
  split.
  - destruct (closed_or_unindexed_reader_fails unit unit unit unit_queryi
                unit_close whole_range
                (mkReader (Some tt) (Some one_contig) None) tt one_contig
                (mkRange "chr1" 100 200) eq_refl eq_refl) as (_ & H & _).
    apply H. reflexivity.
  - destruct (closed_or_unindexed_reader_fails unit unit unit unit_queryi
                unit_close whole_range
                (mkReader (Some tt) (Some one_contig) (Some tt)) tt one_contig
                (mkRange "chr2" 100 200) eq_refl eq_refl) as (_ & _ & H & _).
    apply (H tt eq_refl). simpl. intros Hin.
    apply elem_of_cons in Hin as [Hin|Hin]; [discriminate Hin|].
    by apply elem_of_nil in Hin.
Defined.

(** ** The header parser *)

Lemma substr_n_0 (s : string) (n : nat) : substr_n s 0 n = Ret (substring 0 n s).
Proof. done. Qed.

Lemma substr_inside (s : string) (pos : nat) :
  (pos <= String.length s)%nat ->
  substr s pos = Ret (substring pos (String.length s - pos) s).
Proof.
  intros H. unfold substr.
  destruct (Nat.ltb_spec (String.length s) pos); [lia|done].
Qed.

Lemma for_each_returns {A S : Type} (P : A -> Prop)
    (body : A -> S -> outcome S) (l : list A) :
  (forall a st, P a -> returns (body a st)) ->
  Forall P l -> forall st, returns (for_each body l st).
Proof.
  intros Hbody. induction 1 as [|a l Ha _ IH]; intros st; simpl.
  - by eexists.
  - apply returns_bind; [by apply Hbody|]. intros st' _. apply IH.
Qed.

Lemma forallb_Forall {A} (f : A -> bool) (l : list A) :
  forallb f l = true -> Forall (fun a => f a = true) l.
Proof. intros H. apply Forall_forall. intros a Ha. apply list_elem_of_In in Ha. by eapply forallb_forall in H. Qed.

Lemma header_line_token_returns (line token : string)
    (st : SamHeader * list string) :
  token_long_enough token = true -> returns (header_line_token line token st).
Proof.
  intros Hlen. apply Nat.leb_le in Hlen. destruct st as [header log].
  unfold header_line_token. rewrite substr_n_0, substr_inside by done. simpl.
  repeat case_match; by eexists.
Qed.

Lemma read_group_token_returns (line token : string)
    (st : ReadGroup * list string) :
  read_group_token_ok token = true -> returns (read_group_token line token st).
Proof.
  intros [Hlen Hpi]%andb_prop. apply Nat.leb_le in Hlen.
  destruct st as [readgroup log].
  unfold read_group_token. rewrite substr_n_0, substr_inside by done. simpl.
  fold (tag_of token) (value_of token).
  repeat match goal with
  | |- returns (Ret _) => by eexists
  | |- returns (if String.eqb (tag_of token) kPITag then _ else _) =>
      let E := fresh in
      destruct (String.eqb (tag_of token) kPITag) eqn:E;
      [destruct (SimpleAtoi (value_of token)); [|done] |]
  | |- returns (if ?c then _ else _) => destruct c
  end.
Qed.

Lemma program_token_returns (line token : string) (program : Program) :
  token_long_enough token = true -> returns (program_token line token program).
Proof.
  intros Hlen. apply Nat.leb_le in Hlen.
  unfold program_token. rewrite substr_n_0, substr_inside by done. simpl.
  repeat case_match; by eexists.
Qed.

Lemma header_line_returns (line : string) (st : SamHeader * list string) :
  header_line_ok line = true -> returns (header_line line st).
Proof.
  intros Hok. destruct st as [sam_header log].
  unfold header_line, header_line_ok in *. rewrite substr_n_0. simpl.
  fold (tag_of line) in *.
  destruct (String.eqb (tag_of line) kSamHeaderTag).
  { apply (for_each_returns (fun t => token_long_enough t = true));
      [intros; by apply header_line_token_returns | by apply forallb_Forall]. }
  destruct (String.eqb (tag_of line) kSamReferenceSequenceTag);
    [by eexists|].
  destruct (String.eqb (tag_of line) kSamReadGroupTag).
  { apply returns_bind; [|intros [? ?] _; by eexists].
    apply (for_each_returns (fun t => read_group_token_ok t = true));
      [intros; by apply read_group_token_returns | by apply forallb_Forall]. }
  destruct (String.eqb (tag_of line) kSamProgramTag).
  { apply returns_bind; [|intros ? _; by eexists].
    apply (for_each_returns (fun t => token_long_enough t = true));
      [intros; by apply program_token_returns | by apply forallb_Forall]. }
  destruct (String.eqb (tag_of line) kSamCommentTag); [|by eexists].
  apply Nat.leb_le in Hok. rewrite substr_inside by done. by eexists.
Qed.

Lemma add_contig_returns (h : bam_hdr_t) (i : Z) (sam_header : SamHeader) :
  0 <= i < Z.of_nat (length (target_name h)) ->
  0 <= i < Z.of_nat (length (target_len h)) ->
  returns (add_contig h i sam_header).
Proof.
  intros Hn Hl. unfold add_contig.
  apply returns_bind; [by apply array_get_inside | intros name _].
  apply returns_bind; [by apply array_get_inside | intros len _].
  by eexists.
Qed.

(** C8, as amended. On a header text whose tokens in @HD, @RG and @PG
    lines have at least 3 characters, whose @CO lines have at least 4
    and whose PI values are numbers, parsing runs to its end and gives a
    header.  A line of an unrecognized type leaves the header as it is and
    logs a warning; so does a token of at least 3 characters with an
    unrecognized tag in an @HD or an @RG line; in a @PG line such a token
    leaves the program as it is. *)
Theorem header_parsing_total_on_well_formed_tokens
    (h : bam_hdr_t)
    (Htext : header_text_ok (text h) = true)
    (Hnames : n_targets h <= Z.of_nat (length (target_name h)))
    (Hlens : n_targets h <= Z.of_nat (length (target_len h))) :
  (exists sam_header log, SamReader_sam_header h = Ret (sam_header, log))
  /\ (forall line sam_header log,
        tag_of line ∉ [kSamHeaderTag; kSamReferenceSequenceTag;
                       kSamReadGroupTag; kSamProgramTag; kSamCommentTag] ->
        header_line line (sam_header, log)
        = Ret (sam_header,
               log ++ ["Unrecognized SAM header type, ignoring: " +:+ line]))
  /\ (forall line token sam_header log,
        token_long_enough token = true ->
        tag_of token ∉ [kVNTag; kSOTag; kGOTag; kSamHeaderTag] ->
        header_line_token line token (sam_header, log)
        = Ret (sam_header,
               log ++ ["Unknown tag " +:+ tag_of token
                       +:+ " in header line, ignoring: " +:+ line]))
  /\ (forall line token readgroup log,
        token_long_enough token = true ->
        tag_of token ∉ [kIDTag; kCNTag; kDSTag; kDTTag; kFOTag; kKSTag;
                        kLBTag; kPGTag; kPITag; kPLTag; kPMTag; kPUTag;
                        kSMTag; kSamReadGroupTag] ->
        read_group_token line token (readgroup, log)
        = Ret (readgroup,
               log ++ ["Unknown tag " +:+ tag_of token
                       +:+ " in RG line, ignoring: " +:+ line]))
  /\ (forall line token program,
        token_long_enough token = true ->
        tag_of token ∉ [kIDTag; kPNTag; kCLTag; kPPTag; kDSTag; kVNTag] ->
        program_token line token program = Ret program).
Proof.
  split; [|split; [|split; [|split]]].
  - unfold SamReader_sam_header.
    destruct (for_each_returns (fun l => header_line_ok l = true) header_line
                (StrSplit (text h) newline)
                (fun a st H => header_line_returns a st H)
                (forallb_Forall _ _ Htext) (SamHeader_default, []))
      as [[sam_header log] ->].
    simpl.
    assert (returns (for_each (add_contig h) (seqZ 0 (n_targets h))
                       sam_header)) as [sam_header' ->].
    { apply (for_each_returns (fun i => 0 <= i < n_targets h)).
      - intros i st Hi. apply add_contig_returns; lia.
      - apply Forall_seqZ. intros; lia. }
    simpl. eauto.
  - intros line sam_header log Hnot. unfold header_line.
    rewrite substr_n_0. simpl. fold (tag_of line).
    repeat match goal with
    | |- context [String.eqb (tag_of line) ?k] =>
        destruct (String.eqb_spec (tag_of line) k) as [E|_];
        [exfalso; apply Hnot; rewrite E; set_solver|]
    end.
    done.
  - intros line token sam_header log Hlen Hnot. apply Nat.leb_le in Hlen.
    unfold header_line_token.
    destruct (String.eqb_spec token kSamHeaderTag) as [E|_].
    { exfalso. apply Hnot. rewrite E. set_solver. }
    rewrite substr_n_0, substr_inside by done. simpl. fold (tag_of token).
    repeat match goal with
    | |- context [String.eqb (tag_of token) ?k] =>
        destruct (String.eqb_spec (tag_of token) k) as [E|_];
        [exfalso; apply Hnot; rewrite E; set_solver|]
    end.
    done.
  - intros line token readgroup log Hlen Hnot. apply Nat.leb_le in Hlen.
    unfold read_group_token.
    destruct (String.eqb_spec token kSamReadGroupTag) as [E|_].
    { exfalso. apply Hnot. rewrite E. set_solver. }
    rewrite substr_n_0, substr_inside by done. simpl. fold (tag_of token).
    repeat match goal with
    | |- context [String.eqb (tag_of token) ?k] =>
        destruct (String.eqb_spec (tag_of token) k) as [E|_];
        [exfalso; apply Hnot; rewrite E; set_solver|]
    end.
    done.
  - intros line token program Hlen Hnot. apply Nat.leb_le in Hlen.
    unfold program_token.
    destruct (String.eqb_spec token kSamProgramTag) as [E|_]; [done|].
    rewrite substr_n_0, substr_inside by done. simpl. fold (tag_of token).
    repeat match goal with
    | |- context [String.eqb (tag_of token) ?k] =>
        destruct (String.eqb_spec (tag_of token) k) as [E|_];
        [exfalso; apply Hnot; rewrite E; set_solver|]
    end.
    done.
Qed.

Lemma header_parsing_total_on_well_formed_tokens_witness :
  exists log,
    SamReader_sam_header one_contig
    = Ret (mkSamHeader "1.0" SO_COORDINATE GO_NONE [] [] []
             [mkContig "chr1" 1000 0], log).
Proof.
  destruct (header_parsing_total_on_well_formed_tokens one_contig
              eq_refl ltac:(vm_compute; discriminate)
              ltac:(vm_compute; discriminate))
    as [(sam_header & log & H) _].
  exists log. rewrite H. vm_compute in H. by inversion H.
Defined.

(** C8 as stated fails: a read-group line whose insert size is not a
    number stops the process on the CHECK. *)
Lemma non_numeric_insert_size_aborts :
  SamReader_sam_header
    (mkHdr 0 [] [] (join tab ["@RG"; "ID:grp"; "PI:abc"]))
  = Fault CheckFailure.
Proof. reflexivity. Qed.

Example short_token_aborts :
  SamReader_sam_header (mkHdr 0 [] [] (join tab ["@HD"; "VN"]))
  = Fault OutOfRange.
Proof. reflexivity. Qed.

Example bare_comment_line_aborts :
  SamReader_sam_header (mkHdr 0 [] [] "@CO") = Fault OutOfRange.
Proof. reflexivity. Qed.

Example header_with_unknown_parts :
  SamReader_sam_header
    (mkHdr 0 [] []
       (join newline
          [join tab ["@HD"; "VN:1.0"; "XX:1"; "SO:sideways"];
           join tab ["@XY"; "AB:c"];
           join tab ["@RG"; "ID:grp"; "PI:250"; "nonsense"];
           join tab ["@PG"; "ID:prog"; "ZZ:top"];
           join tab ["@CO"; "free text"]]))
  = Ret (mkSamHeader "1.0" SO_UNKNOWN GO_NONE
           [mkReadGroup "grp" "" "" "" "" "" "" [] 250 "" "" "" ""]
           [mkProgram "prog" "" "" "" "" ""]
           ["free text"] [],
         ["Unknown tag XX: in header line, ignoring: "
            +:+ join tab ["@HD"; "VN:1.0"; "XX:1"; "SO:sideways"];
          "Unknown sorting order, defaulting to unknown: "
            +:+ join tab ["@HD"; "VN:1.0"; "XX:1"; "SO:sideways"];
          "Unrecognized SAM header type, ignoring: "
            +:+ join tab ["@XY"; "AB:c"];
          "Unknown tag non in RG line, ignoring: "
            +:+ join tab ["@RG"; "ID:grp"; "PI:250"; "nonsense"]]).
Proof. reflexivity. Qed.

(** * Further properties *)

(** ** The aux-field decoder on whole fields *)

Lemma load_app (pre l : list Z) (i : nat) (b : Z) :
  l !! i = Some b ->
  load (pre ++ l) (Z.of_nat (length pre) + Z.of_nat i) = Ret b.
Proof.
  intros H. unfold load.
  destruct (Z.ltb_spec (Z.of_nat (length pre) + Z.of_nat i) 0); [lia|].
  replace (Z.to_nat (Z.of_nat (length pre) + Z.of_nat i))
    with (length pre + i)%nat by lia.
  rewrite lookup_app_r by lia.
  replace (length pre + i - length pre)%nat with i by lia. by rewrite H.
Qed.

Lemma lor_shiftl_add (a b k : Z) :
  0 <= k -> 0 <= a < 2 ^ k -> Z.lor a (Z.shiftl b k) = a + b * 2 ^ k.
Proof.
  intros Hk Ha. rewrite Z.shiftl_mul_pow2 by done.
  rewrite <- Z.lxor_lor.
  - symmetry. apply Z.add_nocarry_lxor. apply Z.bits_inj'. intros n Hn.
    rewrite Z.land_spec, Z.bits_0.
    destruct (Z.lt_ge_cases n k).
    + rewrite Z.mul_pow2_bits_low by done. apply andb_false_r.
    + replace a with (a mod 2 ^ k) by (apply Z.mod_small; lia).
      rewrite Z.mod_pow2_bits_high by lia. done.
  - apply Z.bits_inj'. intros n Hn.
    rewrite Z.land_spec, Z.bits_0.
    destruct (Z.lt_ge_cases n k).
    + rewrite Z.mul_pow2_bits_low by done. apply andb_false_r.
    + replace a with (a mod 2 ^ k) by (apply Z.mod_small; lia).
      rewrite Z.mod_pow2_bits_high by lia. done.
Qed.

Lemma le_to_u16_le_bytes (pre rest : list Z) (v : Z) :
  le_to_u16 (pre ++ le_bytes 2 v ++ rest) (Z.of_nat (length pre))
  = Ret (v mod 2 ^ 16).
Proof.
  unfold le_to_u16. simpl le_bytes.
  rewrite <- (Z.add_0_r (Z.of_nat (length pre))) at 1.
  rewrite (load_app pre _ 0 (v mod 256)) by done. simpl.
  rewrite (load_app pre _ 1 ((v / 256) mod 256)) by done. simpl.
  f_equal. rewrite lor_shiftl_add by (try lia; apply Z.mod_pos_bound; lia).
  change (2 ^ 8) with 256. change (2 ^ 16) with (256 * 256).
  rewrite Z.rem_mul_r by lia. lia.
Qed.

Lemma le_to_u32_le_bytes (pre rest : list Z) (v : Z) :
  le_to_u32 (pre ++ le_bytes 4 v ++ rest) (Z.of_nat (length pre))
  = Ret (v mod 2 ^ 32).
Proof.
  unfold le_to_u32. simpl le_bytes.
  rewrite <- (Z.add_0_r (Z.of_nat (length pre))) at 1.
  rewrite (load_app pre _ 0 (v mod 256)) by done. simpl.
  rewrite (load_app pre _ 1 ((v / 256) mod 256)) by done. simpl.
  rewrite (load_app pre _ 2 ((v / 256 / 256) mod 256)) by done. simpl.
  rewrite (load_app pre _ 3 ((v / 256 / 256 / 256) mod 256)) by done. simpl.
  f_equal.
  pose proof (Z.mod_pos_bound v 256).
  pose proof (Z.mod_pos_bound (v / 256) 256).
  pose proof (Z.mod_pos_bound (v / 256 / 256) 256).
  pose proof (Z.mod_pos_bound (v / 256 / 256 / 256) 256).
  rewrite (lor_shiftl_add (v mod 256)) by lia.
  rewrite (Z.shiftl_mul_pow2 _ 16), (Z.shiftl_mul_pow2 _ 24) by lia.
  replace ((v / 256 / 256) mod 256 * 2 ^ 16)
    with (Z.shiftl ((v / 256 / 256) mod 256) 16)
    by (rewrite Z.shiftl_mul_pow2; lia).
  replace (Z.lor (Z.shiftl ((v / 256 / 256) mod 256) 16)
             ((v / 256 / 256 / 256) mod 256 * 2 ^ 24))
    with (Z.shiftl (Z.lor ((v / 256 / 256) mod 256)
                      (Z.shiftl ((v / 256 / 256 / 256) mod 256) 8)) 16).
  2:{ rewrite Z.shiftl_lor, Z.shiftl_shiftl by lia.
      rewrite (Z.shiftl_mul_pow2 _ (8 + 16)) by lia. done. }
  rewrite (lor_shiftl_add ((v / 256 / 256) mod 256)) by lia.
  rewrite lor_shiftl_add.
  2: lia.
  2:{ change (2 ^ 8) with 256. change (2 ^ 16) with 65536. lia. }
  change (2 ^ 32) with (256 * (256 * (256 * 256))).
  rewrite !Z.rem_mul_r by lia.
  change (2 ^ 8) with 256. change (2 ^ 16) with 65536. lia.
Qed.

Lemma load_app_Z (pre l : list Z) (i b : Z) :
  0 <= i -> l !! Z.to_nat i = Some b ->
  load (pre ++ l) (Z.of_nat (length pre) + i) = Ret b.
Proof.
  intros Hi H. rewrite <- (Z2Nat.id i) at 1 by done. by apply load_app.
Qed.

Lemma int32_small (z : Z) : - 2 ^ 31 <= z < 2 ^ 31 -> int32 z = z.
Proof. intros H. unfold int32. Z.div_mod_to_equations. lia. Qed.

Lemma scan_nul_chars (chars rest : list Z) (s : Z) :
  Forall (fun c => c <> 0) chars ->
  scan_nul (chars ++ 0 :: rest) s = s + Z.of_nat (length chars).
Proof.
  intros H. revert s. induction H as [|c chars Hc _ IH]; intros s; simpl.
  - lia.
  - destruct (Z.eqb_spec c 0); [done|]. rewrite IH. lia.
Qed.

Ltac run := cbv beta zeta; cbn [mbind outcome_bind].

Ltac norm_cursor :=
  repeat match goal with
  | |- context [?s + 2 + 1 - 1] => replace (s + 2 + 1 - 1) with (s + 2) by lia
  | |- context [?s + 2 + 1 + 1] => replace (s + 2 + 1 + 1) with (s + 4) by lia
  | |- context [?s + 2 + 1] => replace (s + 2 + 1) with (s + 3) by lia
  end.

(** The first three bytes of a field are its tag and its type. *)
Lemma aux_field_head (pre body : list Z) (t0 t1 type : Z) (m : Read) :
  let data := pre ++ [t0; t1; type] ++ body in
  let s := Z.of_nat (length pre) in
  load data s = Ret t0 /\ load data (s + 1) = Ret t1
  /\ load data (s + 2) = Ret type.
Proof.
  intros data s. subst data s. repeat split.
  - rewrite <- (Z.add_0_r (Z.of_nat (length pre))). by apply load_app_Z.
  - by apply load_app_Z.
  - by apply load_app_Z.
Qed.

Lemma aux_field_char (pre rest : list Z) (t0 t1 c : Z) (m : Read) :
  aux_field (pre ++ encode_field (CharField t0 t1 c) ++ rest)
    (Z.of_nat (length pre)) m
  = Ret (Continue (Z.of_nat (length pre) + 4)
           (field_effect (CharField t0 t1 c) m)).
Proof.
  destruct (aux_field_head pre (c :: rest) t0 t1 (chr "A") m) as (H0 & H1 & H2).
  unfold aux_field. simpl encode_field. simpl app in *.
  rewrite H0, H1. simpl. rewrite H2. simpl. norm_cursor.
  rewrite (load_app_Z pre _ 3 c) by done. simpl.
  do 2 f_equal; try lia.
Qed.

Lemma aux_field_float (pre rest : list Z) (t0 t1 bits : Z) (m : Read) :
  0 <= bits < 2 ^ 32 ->
  aux_field (pre ++ encode_field (FloatField t0 t1 bits) ++ rest)
    (Z.of_nat (length pre)) m
  = Ret (Continue (Z.of_nat (length pre) + 7)
           (field_effect (FloatField t0 t1 bits) m)).
Proof.
  intros Hb.
  destruct (aux_field_head pre (le_bytes 4 bits ++ rest) t0 t1 (chr "f") m)
    as (H0 & H1 & H2).
  unfold aux_field. unfold encode_field. rewrite <- !app_assoc.
  rewrite H0. run. rewrite H1. run. rewrite H2. run. norm_cursor.
  chr_consts. simpl (102 =? _). simpl orb. cbv iota.
  rewrite !length_app. simpl length.
  destruct (Z.ltb_spec
              (Z.of_nat (length pre + (3 + (4 + length rest)))
               - (Z.of_nat (length pre) + 3)) 4); [lia|].
  replace (pre ++ [t0; t1; 102] ++ le_bytes 4 bits ++ rest)
    with ((pre ++ [t0; t1; 102]) ++ le_bytes 4 bits ++ rest)
    by (by rewrite <- app_assoc).
  replace (Z.of_nat (length pre) + 3)
    with (Z.of_nat (length (pre ++ [t0; t1; 102])))
    by (rewrite length_app; simpl; lia).
  rewrite le_to_u32_le_bytes. run.
  rewrite Z.mod_small by done. do 2 f_equal.
  rewrite length_app. simpl. lia.
Qed.

Lemma int8_mod (v : Z) : - 2 ^ 7 <= v < 2 ^ 7 -> int8 (v mod 256) = v.
Proof. intros H. unfold int8. Z.div_mod_to_equations. lia. Qed.

Lemma int16_mod (v : Z) : - 2 ^ 15 <= v < 2 ^ 15 -> int16 (v mod 2 ^ 16) = v.
Proof. intros H. unfold int16. Z.div_mod_to_equations. lia. Qed.

Lemma int32_mod (v : Z) : int32 (v mod 2 ^ 32) = int32 v.
Proof. unfold int32. Z.div_mod_to_equations. lia. Qed.

Ltac int_field_start pre rest t0 t1 type v m size n :=
  change (HtslibAuxSize type) with size;
  change (Z.to_nat size) with n;
  let H0 := fresh "H0" in let H1 := fresh "H1" in let H2 := fresh "H2" in
  destruct (aux_field_head pre (le_bytes n v ++ rest) t0 t1 type m)
    as (H0 & H1 & H2);
  unfold aux_field; rewrite H0; run; rewrite H1; run; rewrite H2; run;
  unfold bam_aux2i; norm_cursor; rewrite H2; run;
  change (HtslibAuxSize type) with size;
  rewrite !length_app; simpl length;
  simpl Z.eqb; simpl orb; cbv iota; simpl Z.ltb; simpl orb; cbv iota;
  match goal with
  | |- context [if ?x - ?y <? ?k then _ else _] =>
      destruct (Z.ltb_spec (x - y) k); [lia|]
  end;
  replace (pre ++ [t0; t1; type] ++ le_bytes n v ++ rest)
    with ((pre ++ [t0; t1; type]) ++ le_bytes n v ++ rest)
    by (by rewrite <- app_assoc);
  replace (Z.of_nat (length pre) + 3)
    with (Z.of_nat (length (pre ++ [t0; t1; type])))
    by (rewrite length_app; simpl; lia).

Lemma aux_field_int (pre rest : list Z) (t0 t1 type v : Z) (m : Read) :
  int_in_range type v ->
  aux_field (pre ++ encode_field (IntField t0 t1 type v) ++ rest)
    (Z.of_nat (length pre)) m
  = Ret (Continue (Z.of_nat (length pre) + 3 + HtslibAuxSize type)
           (field_effect (IntField t0 t1 type v) m)).
Proof.
  intros Hr. unfold encode_field. rewrite <- !app_assoc.
  destruct Hr as [[-> Hv]|[[-> Hv]|[[-> Hv]|[[-> Hv]|[[-> Hv]|[-> Hv]]]]]];
    chr_consts.
  - int_field_start pre rest t0 t1 99 v m 1 1%nat.
    rewrite <- (Z.add_0_r (Z.of_nat (length _))) at 1.
    rewrite (load_app_Z _ _ 0 (v mod 256)) by done. run.
    rewrite int8_mod by done.
    rewrite andb_false_r. cbv iota.
    do 2 f_equal; rewrite ?length_app; simpl; try lia.
  - int_field_start pre rest t0 t1 67 v m 1 1%nat.
    rewrite <- (Z.add_0_r (Z.of_nat (length _))) at 1.
    rewrite (load_app_Z _ _ 0 (v mod 256)) by done. run.
    rewrite Z.mod_small by lia.
    rewrite andb_false_r. cbv iota.
    do 2 f_equal; rewrite ?length_app; simpl; try lia.
  - int_field_start pre rest t0 t1 115 v m 2 2%nat.
    rewrite le_to_u16_le_bytes. run. rewrite int16_mod by done.
    rewrite andb_false_r. cbv iota.
    do 2 f_equal; rewrite ?length_app; simpl; try lia.
  - int_field_start pre rest t0 t1 83 v m 2 2%nat.
    rewrite le_to_u16_le_bytes. run. rewrite Z.mod_small by lia.
    rewrite andb_false_r. cbv iota.
    do 2 f_equal; rewrite ?length_app; simpl; try lia.
  - int_field_start pre rest t0 t1 105 v m 4 4%nat.
    rewrite le_to_u32_le_bytes. run. rewrite int32_mod.
    rewrite (int32_small v) by done.
    rewrite andb_false_r. cbv iota.
    do 2 f_equal; rewrite ?length_app; simpl; try lia.
  - int_field_start pre rest t0 t1 73 v m 4 4%nat.
    rewrite le_to_u32_le_bytes. run. rewrite Z.mod_small by lia.
    rewrite andb_false_r. cbv iota.
    do 2 f_equal; rewrite ?length_app; simpl; try lia.
Qed.

Lemma c_string_chars (pre chars rest : list Z) :
  c_string (pre ++ chars ++ rest) (Z.of_nat (length pre))
    (Z.of_nat (length pre) + Z.of_nat (length chars))
  = string_of_bytes chars.
Proof.
  unfold c_string.
  replace (Z.to_nat (Z.of_nat (length pre) + Z.of_nat (length chars)
                     - Z.of_nat (length pre))) with (length chars) by lia.
  rewrite Nat2Z.id, drop_app_length, take_app_length. done.
Qed.

Lemma aux_field_string (pre rest : list Z) (t0 t1 type : Z)
    (chars : list Z) (m : Read) :
  type = chr "Z" \/ type = chr "H" ->
  Forall (fun c => c <> 0) chars ->
  aux_field (pre ++ ([t0; t1; type] ++ chars ++ [0]) ++ rest)
    (Z.of_nat (length pre)) m
  = Ret (Continue (Z.of_nat (length pre) + 3 + Z.of_nat (length chars) + 1)
           (if type =? chr "Z"
            then SetInfoField (string_of_bytes [t0; t1])
                   (StringValue (string_of_bytes chars)) m
            else m)).
Proof.
  intros Htype Hchars. rewrite <- !app_assoc.
  destruct (aux_field_head pre (chars ++ [0] ++ rest) t0 t1 type m)
    as (H0 & H1 & H2).
  unfold aux_field. rewrite H0. run. rewrite H1. run. rewrite H2. run.
  norm_cursor.
  assert ((type =? chr "A") = false /\ (type =? chr "f") = false
          /\ ((type =? chr "C") || (type =? chr "c") || (type =? chr "S")
              || (type =? chr "s") || (type =? chr "I") || (type =? chr "i"))
             = false
          /\ ((type =? chr "Z") || (type =? chr "H")) = true)
    as (-> & -> & -> & ->) by (by destruct Htype as [-> | ->]).
  replace (pre ++ [t0; t1; type] ++ chars ++ [0] ++ rest)
    with ((pre ++ [t0; t1; type]) ++ chars ++ [0] ++ rest)
    by (by rewrite <- app_assoc).
  replace (Z.of_nat (length pre) + 3)
    with (Z.of_nat (length (pre ++ [t0; t1; type])))
    by (rewrite length_app; simpl; lia).
  rewrite Nat2Z.id, drop_app_length. simpl ([0] ++ rest).
  rewrite scan_nul_chars by done.
  match goal with
  | |- context [if ?x >=? ?y then _ else _] =>
      destruct (Z.geb_spec x y) as [Hge|_];
      [rewrite !length_app in Hge; simpl in Hge; lia|]
  end.
  rewrite c_string_chars. do 2 f_equal; rewrite ?length_app; simpl; try lia.
Qed.

Lemma aux_field_array (pre rest : list Z) (t0 t1 sub_type count : Z)
    (elements : list Z) (m : Read) :
  field_whole (ArrayField t0 t1 sub_type count elements) ->
  aux_field (pre ++ encode_field (ArrayField t0 t1 sub_type count elements)
             ++ rest)
    (Z.of_nat (length pre)) m
  = Ret (Continue (Z.of_nat (length pre) + 8 + Z.of_nat (length elements)) m).
Proof.
  intros (Hsize & Hpos & Hsmall & Hlen). unfold encode_field.
  rewrite <- !app_assoc.
  remember (le_bytes 4 count) as L eqn:HL.
  assert (length L = 4%nat) as Hl4 by (by subst L).
  destruct (aux_field_head pre ([sub_type] ++ L ++ elements ++ rest)
              t0 t1 (chr "B") m) as (H0 & H1 & H2).
  assert (1 <= HtslibAuxSize sub_type)
    by (destruct (HtslibAuxSize_cases sub_type) as [?|[?|[?|?]]]; lia).
  unfold aux_field. simpl ([t0; t1; chr "B"; sub_type] ++ _).
  simpl app in H0, H1, H2.
  rewrite H0. run. rewrite H1. run. rewrite H2. run. norm_cursor.
  chr_consts. simpl (66 =? _). simpl orb. cbv iota.
  rewrite (load_app_Z pre _ 3 sub_type) by done. run.
  destruct (Z.ltb_spec (HtslibAuxSize sub_type) 0); [lia|].
  replace (Z.of_nat (length pre) + 3 + 1)
    with (Z.of_nat (length pre) + 4) by lia.
  rewrite length_app. simpl length. rewrite !length_app, Hl4.
  match goal with
  | |- context [if ?x - ?y <? 4 then _ else _] =>
      destruct (Z.ltb_spec (x - y) 4); [lia|]
  end.
  replace (pre ++ t0 :: t1 :: 66 :: sub_type :: L ++ elements ++ rest)
    with ((pre ++ [t0; t1; 66; sub_type]) ++ L ++ elements ++ rest)
    by (by rewrite <- app_assoc).
  replace (Z.of_nat (length pre) + 4)
    with (Z.of_nat (length (pre ++ [t0; t1; 66; sub_type])))
    by (rewrite length_app; simpl; lia).
  subst L. rewrite le_to_u32_le_bytes. run.
  rewrite Z.mod_small by nia. rewrite (int32_small count) by nia.
  destruct (Z.eqb_spec count 0); [lia|].
  rewrite (int32_small (count * _)) by nia. rewrite int32_small by nia.
  do 2 f_equal. rewrite length_app. simpl. lia.
Qed.

Lemma length_le_bytes (n : nat) (v : Z) : length (le_bytes n v) = n.
Proof. revert v. induction n; intros; simpl; congruence. Qed.

Lemma int_in_range_size (type v : Z) :
  int_in_range type v -> 1 <= HtslibAuxSize type.
Proof.
  intros [[-> _]|[[-> _]|[[-> _]|[[-> _]|[[-> _]|[-> _]]]]]]; done.
Qed.

(** A whole field is decoded in one turn: the cursor lands on the byte
    after it and the message gets what the field holds. *)
Lemma aux_field_whole (pre rest : list Z) (f : AuxField) (m : Read) :
  field_whole f ->
  aux_field (pre ++ encode_field f ++ rest) (Z.of_nat (length pre)) m
  = Ret (Continue (Z.of_nat (length pre) + Z.of_nat (length (encode_field f)))
           (field_effect f m)).
Proof.
  intros Hf. destruct f as [t0 t1 c|t0 t1 type v|t0 t1 bits|t0 t1 chars
                            |t0 t1 chars|t0 t1 sub_type count elements].
  - rewrite aux_field_char. done.
  - rewrite aux_field_int by done. simpl in Hf.
    apply int_in_range_size in Hf. unfold encode_field.
    rewrite length_app, length_le_bytes. simpl length.
    do 2 f_equal. lia.
  - rewrite aux_field_float by done. done.
  - unfold encode_field.
    rewrite (aux_field_string pre rest t0 t1 (chr "Z") chars m);
      [|by left|done].
    rewrite !length_app. simpl. do 2 f_equal. lia.
  - unfold encode_field.
    rewrite (aux_field_string pre rest t0 t1 (chr "H") chars m);
      [|by right|done].
    rewrite !length_app. simpl. do 2 f_equal. lia.
  - rewrite aux_field_array by done. unfold encode_field.
    rewrite !length_app, length_le_bytes. simpl length.
    do 2 f_equal. lia.
Qed.

Lemma encode_field_length (f : AuxField) :
  field_whole f -> (4 <= length (encode_field f))%nat.
Proof.
  destruct f; simpl; intros Hf; rewrite ?length_app, ?length_le_bytes;
    simpl; try lia.
  apply int_in_range_size in Hf. lia.
Qed.

Lemma aux_loop_whole_fields (fields : list AuxField) :
  forall (pre tail : list Z) (m : Read) (fuel : nat),
    Forall field_whole fields ->
    (length tail < 4)%nat ->
    (length fields <= fuel)%nat ->
    aux_loop fuel (pre ++ encode_fields fields ++ tail)
      (Z.of_nat (length pre)) m
    = Ret (Status_OK, fold_left (fun m f => field_effect f m) fields m).
Proof.
  induction fields as [|f fields IH]; intros pre tail m fuel Hw Ht Hfuel.
  - simpl. apply aux_loop_stops. rewrite length_app. lia.
  - inversion Hw as [|? ? Hf Hfs]; subst.
    destruct fuel as [|fuel]; [simpl in Hfuel; lia|].
    pose proof (encode_field_length f Hf) as Hlen.
    unfold encode_fields. simpl concat. fold (encode_fields fields).
    simpl aux_loop.
    destruct (Z.geb_spec
                (Z.of_nat (length (pre ++ (encode_field f
                                           ++ encode_fields fields) ++ tail))
                 - Z.of_nat (length pre)) 4) as [_|Hk].
    2:{ rewrite !length_app in Hk. lia. }
    rewrite <- (app_assoc (encode_field f)).
    rewrite aux_field_whole by done. run.
    rewrite <- Nat2Z.inj_add, <- length_app.
    rewrite (app_assoc pre). apply IH; [done|done|simpl in Hfuel; lia].
Qed.

(** X1. A record whose aux region is a run of whole fields, followed by
    at most 3 stray bytes, decodes with status OK; the message gets the
    value of every character, integer, float and string field, in order,
    and nothing for hex strings and arrays. *)
Theorem ParseAuxFields_whole_fields
    (b : bam1_t) (options : SamReaderOptions) (m : Read)
    (pre tail : list Z) (fields : list AuxField) (fuel : nat)
    (Hopt : aux_field_handling options = PARSE_ALL_AUX_FIELDS)
    (Hdata : data b = pre ++ encode_fields fields ++ tail)
    (Haux : bam_get_aux b = Z.of_nat (length pre))
    (Hwhole : Forall field_whole fields)
    (Htail : (length tail < 4)%nat)
    (Hfuel : (length fields <= fuel)%nat) :
  ParseAuxFields fuel b options m
  = Ret (Status_OK, fold_left (fun m f => field_effect f m) fields m).
Proof.
  unfold ParseAuxFields. rewrite Hopt, Hdata, Haux. simpl.
  by apply aux_loop_whole_fields.
Qed.

Lemma ParseAuxFields_whole_fields_witness :
  ParseAuxFields 4 (aux_only (encode_fields four_fields ++ [0; 0]))
    parse_all Read_Clear
  = Ret (Status_OK,
         SetInfoField "AS" (IntValue (-7))
           (SetInfoField "RG" (StringValue "g1")
              (SetInfoField "NM" (IntValue 3) Read_Clear))).
Proof.
  apply (ParseAuxFields_whole_fields
           (aux_only (encode_fields four_fields ++ [0; 0]))
           parse_all Read_Clear [] [0; 0] four_fields 4
           eq_refl eq_refl eq_refl).
  - constructor; [right; left; split; [reflexivity|lia]|].
    constructor.
    { simpl. repeat (constructor; [discriminate|]). constructor. }
    constructor.
    { simpl. change (HtslibAuxSize (chr "s")) with 2. repeat split; lia. }
    constructor; [|constructor].
    do 4 right. left. split; [reflexivity|lia].
  - simpl. lia.
  - simpl. lia.
Defined.

(** ** The cursor of the decoder *)

Lemma scan_nul_bounds (rest : list Z) (s : Z) :
  s <= scan_nul rest s <= s + Z.of_nat (length rest).
Proof.
  revert s. induction rest as [|b rest IH]; intros s; simpl; [lia|].
  destruct (b =? 0); [lia|]. specialize (IH (s + 1)). lia.
Qed.

(** X2. A field that is not an array moves the cursor forward by at
    least 4 bytes and never beyond the end of the buffer, and it leaves
    everything but the info map as it was. *)
Theorem aux_field_advances
    (data : list Z) (s : Z) (m : Read) (s' : Z) (m' : Read)
    (Hstep : aux_field data s m = Ret (Continue s' m'))
    (Hnot_array : load data (s + 2) <> Ret (chr "B")) :
  s + 4 <= s' <= Z.of_nat (length data) /\ same_but_info m m'.
Proof.
  split; [|by eapply aux_field_Continue].
  unfold aux_field in Hstep.
  destruct (load data s) as [t0| |] eqn:H0; simpl in Hstep; try done.
  destruct (load data (s + 1)) as [t1| |] eqn:H1; simpl in Hstep; try done.
  destruct (load data (s + 2)) as [type| |] eqn:H2; simpl in Hstep; try done.
  apply load_Ret_inv in H0.
  pose proof (HtslibAuxSize_cases type) as Hsz.
  destruct (type =? chr "A").
  { destruct (load data (s + 2 + 1)) as [v| |] eqn:H3; simpl in Hstep;
      try done.
    apply load_Ret_inv in H3. inversion Hstep. lia. }
  destruct (_ || _) eqn:Hint in Hstep.
  { destruct (_ || _) eqn:Hsize in Hstep; [done|].
    apply orb_false_elim in Hsize as [Hs1 Hs2].
    apply Z.ltb_ge in Hs1, Hs2.
    destruct (bam_aux2i data (s + 2 + 1 - 1)) as [[v e]| |]; simpl in Hstep;
      try done.
    destruct (_ && _); inversion Hstep. lia. }
  destruct (type =? chr "f").
  { destruct (Z.ltb_spec (Z.of_nat (length data) - (s + 2 + 1)) 4); [done|].
    destruct (le_to_u32 data (s + 2 + 1)); simpl in Hstep; try done.
    inversion Hstep. lia. }
  destruct (_ || _) eqn:Hstr in Hstep.
  { pose proof (scan_nul_bounds (drop (Z.to_nat (s + 2 + 1)) data)
                  (s + 2 + 1)).
    destruct (Z.geb_spec (scan_nul (drop (Z.to_nat (s + 2 + 1)) data)
                            (s + 2 + 1)) (Z.of_nat (length data)));
      [done|].
    inversion Hstep. lia. }
  destruct (Z.eqb_spec type (chr "B")) as [->|_]; [done|done].
Qed.

Lemma aux_field_witness_step :
  aux_field [chr "X"; chr "1"; chr "i"; 5; 0; 0; 0] 0 Read_Clear
  = Ret (Continue 7 (SetInfoField "X1" (IntValue 5) Read_Clear)).
Proof. reflexivity. Qed.

Lemma aux_field_advances_witness :
  0 + 4 <= 7 <= Z.of_nat (length [chr "X"; chr "1"; chr "i"; 5; 0; 0; 0])
  /\ same_but_info Read_Clear (SetInfoField "X1" (IntValue 5) Read_Clear).
Proof.
  apply (aux_field_advances [chr "X"; chr "1"; chr "i"; 5; 0; 0; 0] 0
           Read_Clear 7 _ eq_refl).
  vm_compute. discriminate.
Defined.

Lemma aux_field_array_advances
    (data : list Z) (s : Z) (m : Read) (s' : Z) (m' : Read) :
  aux_field data s m = Ret (Continue s' m') ->
  load data (s + 2) = Ret (chr "B") ->
  array_count_sane data s ->
  s + 4 <= s'.
Proof.
  intros Hstep HB Hsane. unfold aux_field in Hstep.
  destruct (load data s) as [t0| |] eqn:H0; simpl in Hstep; try done.
  destruct (load data (s + 1)) as [t1| |] eqn:H1; simpl in Hstep; try done.
  rewrite HB in Hstep. simpl in Hstep.
  destruct (load data (s + 2 + 1)) as [sub| |] eqn:H3; simpl in Hstep;
    try done.
  pose proof (HtslibAuxSize_cases sub) as Hsz.
  destruct (Z.ltb_spec (HtslibAuxSize sub) 0); [done|].
  destruct (Z.ltb_spec (Z.of_nat (length data) - (s + 2 + 1 + 1)) 4); [done|].
  replace (s + 2 + 1 + 1) with (s + 4) in * by lia.
  destruct (le_to_u32 data (s + 4)) as [u| |] eqn:Hu; simpl in Hstep;
    try done.
  destruct (Hsane u HB Hu) as [Hu0 Hu1].
  rewrite (int32_small u) in Hstep by lia.
  destruct (Z.eqb_spec u 0); [done|].
  inversion Hstep.
  rewrite (int32_small (u * _)) by nia. rewrite int32_small by nia. nia.
Qed.

Lemma aux_loop_terminates (data : list Z) (fuel : nat) :
  forall (s : Z) (m : Read),
    0 <= s ->
    Z.of_nat (length data) - s <= Z.of_nat fuel ->
    (forall s1 m1, reaches data s m s1 m1 -> array_count_sane data s1) ->
    returns (aux_loop fuel data s m).
Proof.
  induction fuel as [|fuel IH]; intros s m Hs Hfuel Hsane.
  - rewrite aux_loop_stops by lia. by eexists.
  - simpl. destruct (Z.geb_spec (Z.of_nat (length data) - s) 4) as [Hk|Hk];
      [|by eexists].
    destruct (aux_field_returns data s m Hs ltac:(lia)) as [[s' m'|st m'] Hf];
      rewrite Hf; simpl; [|by eexists].
    assert (s + 4 <= s') as Hadv.
    { destruct (load data (s + 2)) as [type| |] eqn:Htype;
        [destruct (Z.eq_dec type (chr "B")) as [->|Hne]|..].
      - eapply aux_field_array_advances; [done..|].
        apply (Hsane s m). constructor.
      - eapply aux_field_advances; [done|]. rewrite Htype. congruence.
      - eapply aux_field_advances; [done|]. by rewrite Htype.
      - eapply aux_field_advances; [done|]. by rewrite Htype. }
    apply IH; [lia|lia|].
    intros s1 m1 Hr. apply (Hsane s1 m1).
    eapply reaches_field; [lia|done|done].
Qed.

(** X3. When the count of every array field the decoder gets to is sane
    (not negative as an int, the skip not overflowing), decoding ends
    without reading outside the buffer, with fuel for as many turns as
    the buffer has bytes: it returns OK or an error. *)
Theorem ParseAuxFields_terminates
    (b : bam1_t) (options : SamReaderOptions) (m : Read) (fuel : nat)
    (Hstart : 0 <= bam_get_aux b)
    (Hfuel : (length (data b) <= fuel)%nat)
    (Hsane : forall s1 m1,
        reaches (data b) (bam_get_aux b) m s1 m1 ->
        array_count_sane (data b) s1) :
  exists status m', ParseAuxFields fuel b options m = Ret (status, m').
Proof.
  unfold ParseAuxFields. destruct (negb _); [by eexists _, _|].
  destruct (aux_loop_terminates (data b) fuel (bam_get_aux b) m)
    as [[status m'] H]; [done|lia|done|].
  by exists status, m'.
Qed.

Lemma ParseAuxFields_terminates_witness :
  exists status m',
    ParseAuxFields 10
      (aux_only [chr "X"; chr "1"; chr "B"; chr "c"; 2; 0; 0; 0; 9; 9])
      parse_all Read_Clear
    = Ret (status, m').
Proof.
  apply (ParseAuxFields_terminates
           (aux_only [chr "X"; chr "1"; chr "B"; chr "c"; 2; 0; 0; 0; 9; 9])
           parse_all Read_Clear 10).
  - vm_compute. discriminate.
  - simpl. lia.
  - intros s1 m1 Hr. inversion Hr as [|? ? s2 m2 ? ? Hk Hf Hr2]; subst.
    + intros u _ Hu. vm_compute in Hu. inversion Hu. lia.
    + vm_compute in Hf. inversion Hf; subst.
      inversion Hr2 as [|? ? s3 m3 ? ? Hk3 Hf3 Hr3]; subst.
      * intros u HB. vm_compute in HB. discriminate.
      * simpl in Hk3. lia.
Defined.

(** ** Values and errors of single fields *)

(** X4. An unsigned 32-bit field (type I) whose value does not fit an int
    is stored as the negative number with the same 32 bits. *)
Theorem unsigned_field_above_int_max_wraps
    (pre rest : list Z) (t0 t1 v : Z) (m : Read)
    (Hv : 2 ^ 31 <= v < 2 ^ 32) :
  aux_field (pre ++ encode_field (IntField t0 t1 (chr "I") v) ++ rest)
    (Z.of_nat (length pre)) m
  = Ret (Continue (Z.of_nat (length pre) + 7)
           (SetInfoField (string_of_bytes [t0; t1]) (IntValue (v - 2 ^ 32))
              m)).
Proof.
  assert (0 < 2 ^ 31) by done.
  rewrite aux_field_int by (do 5 right; split; [done|lia]).
  change (HtslibAuxSize (chr "I")) with 4.
  replace (Z.of_nat (length pre) + 3 + 4) with (Z.of_nat (length pre) + 7)
    by lia.
  unfold field_effect. do 4 f_equal.
  unfold int32. Z.div_mod_to_equations. lia.
Qed.

Lemma unsigned_field_above_int_max_wraps_witness :
  aux_field [chr "X"; chr "U"; chr "I"; 255; 255; 255; 255] 0 Read_Clear
  = Ret (Continue 7 (SetInfoField "XU" (IntValue (-1)) Read_Clear)).
Proof.
  apply (unsigned_field_above_int_max_wraps [] [] (chr "X") (chr "U")
           (2 ^ 32 - 1) Read_Clear).
  lia.
Defined.

(** X5. A field whose type byte is none of the eleven known ones stops
    the decoder with the data-loss error "Unknown tag" followed by the
    two tag characters; the message is left as it was. *)
Theorem unknown_type_is_data_loss
    (data : list Z) (s : Z) (m : Read) (t0 t1 type : Z)
    (H0 : load data s = Ret t0)
    (H1 : load data (s + 1) = Ret t1)
    (H2 : load data (s + 2) = Ret type)
    (Hunknown : type ∉ known_types) :
  aux_field data s m
  = Ret (Return (errors_DataLoss
                   ("Unknown tag " +:+ string_of_bytes [t0; t1])) m).
Proof.
  unfold aux_field. rewrite H0. run. rewrite H1. run. rewrite H2. run.
  unfold known_types in Hunknown.
  repeat match goal with
  | |- context [type =? ?c] =>
      destruct (Z.eqb_spec type c) as [E|_];
      [exfalso; apply Hunknown; rewrite E; set_solver|]
  end.
  done.
Qed.

Lemma unknown_type_is_data_loss_witness :
  aux_field [chr "X"; chr "Q"; chr "q"; 1; 2] 0 Read_Clear
  = Ret (Return (errors_DataLoss "Unknown tag XQ") Read_Clear).
Proof.
  apply (unknown_type_is_data_loss [chr "X"; chr "Q"; chr "q"; 1; 2] 0
           Read_Clear (chr "X") (chr "Q") (chr "q") eq_refl eq_refl eq_refl).
  intros H. unfold known_types in H.
  repeat (apply elem_of_cons in H as [H|H]; [discriminate H|]).
  by apply elem_of_nil in H.
Defined.

(** ** The record converter: what the fields hold *)

Lemma mapM_Ret_length {A B} (f : A -> outcome B) (l : list A) (ys : list B) :
  mapM f l = Ret ys -> length ys = length l.
Proof.
  revert ys. induction l as [|x l IH]; intros ys H; simpl in H.
  - by inversion H.
  - destruct (f x) as [y| |]; simpl in H; try done.
    destruct (mapM f l) as [ys'| |]; simpl in H; try done.
    inversion H; subst. simpl. f_equal. by apply IH.
Qed.

Lemma mapM_Ret_lookup {A B} (f : A -> outcome B) (l : list A) (ys : list B)
    (i : nat) (x : A) :
  mapM f l = Ret ys -> l !! i = Some x ->
  exists y, f x = Ret y /\ ys !! i = Some y.
Proof.
  revert ys i. induction l as [|x0 l IH]; intros ys i H Hi; simpl in H.
  - done.
  - destruct (f x0) as [y0| |] eqn:Hy; simpl in H; try done.
    destruct (mapM f l) as [ys'| |]; simpl in H; try done.
    inversion H; subst. destruct i as [|i]; simpl in *.
    + inversion Hi; subst. eauto.
    + by apply IH.
Qed.

Lemma length_string_of_list_ascii (l : list ascii) :
  String.length (string_of_list_ascii l) = length l.
Proof. induction l; simpl; congruence. Qed.

(** The sequence and the qualities of a converted record. *)
Lemma convert_sequence_lengths (b : bam1_t) (m m' : Read) :
  convert_sequence b m = Ret m' ->
  aligned_sequence m = "" -> aligned_quality m = [] ->
  0 <= l_qseq (core b) ->
  Z.of_nat (String.length (aligned_sequence m')) = l_qseq (core b)
  /\ ((aligned_quality m' = []
       /\ (l_qseq (core b) = 0 \/ load (data b) (bam_get_qual b) = Ret 255))
      \/ (Z.of_nat (length (aligned_quality m')) = l_qseq (core b)
          /\ 0 < l_qseq (core b)
          /\ load (data b) (bam_get_qual b) <> Ret 255
          /\ forall i, 0 <= i < l_qseq (core b) ->
               load (data b) (bam_get_qual b + i)
               = Ret (nth (Z.to_nat i) (aligned_quality m') 0))).
Proof.
  unfold convert_sequence. intros H Hs Hq Hl.
  destruct (Z.eqb_spec (l_qseq (core b)) 0) as [E|E].
  { inversion H; subst. rewrite Hs, Hq, E. split; [done|]. left. auto. }
  match type of H with
  | (?o ≫= _) = _ => destruct o as [read_seq| |] eqn:Hseq
  end; simpl in H; try done.
  apply mapM_Ret_length in Hseq. rewrite length_seqZ in Hseq.
  destruct (load (data b) (bam_get_qual b)) as [q0| |] eqn:Hq0; simpl in H;
    try done.
  destruct (Z.eqb_spec q0 255) as [->|Hq255].
  { inversion H; subst. unfold set_aligned_sequence. simpl.
    rewrite length_string_of_list_ascii, Hq.
    split; [lia|]. left. auto. }
  match type of H with
  | (?o ≫= _) = _ => destruct o as [quality| |] eqn:Hqual
  end; simpl in H; try done.
  inversion H; subst. unfold set_aligned_quality, set_aligned_sequence.
  simpl. rewrite length_string_of_list_ascii.
  split; [lia|]. right.
  pose proof (mapM_Ret_length _ _ _ Hqual) as Hlen.
  rewrite length_seqZ in Hlen. split; [lia|]. split; [lia|].
  split; [congruence|].
  intros i Hi.
  destruct (mapM_Ret_lookup _ _ _ (Z.to_nat i) i Hqual) as (y & Hy & Hyi).
  { rewrite lookup_seqZ. split; lia. }
  rewrite Hy. f_equal. symmetry. by apply nth_lookup_Some with (d := 0) in Hyi.
Qed.

Lemma get_string_of_list_ascii (l : list ascii) (n : nat) :
  String.get n (string_of_list_ascii l) = l !! n.
Proof.
  revert n. induction l as [|c l IH]; intros n; simpl; [done|].
  destruct n; simpl; [done|apply IH].
Qed.

Lemma bam_seqi_nibble (data : list Z) (seq i byte : Z) :
  0 <= i -> 0 <= byte ->
  load data (seq + Z.shiftr i 1) = Ret byte ->
  bam_seqi data seq i
  = Ret (if Z.even i then (byte / 16) mod 16 else byte mod 16).
Proof.
  intros Hi Hb Hload. unfold bam_seqi. rewrite Hload. simpl. f_equal.
  change 15 with (Z.ones 4). rewrite Z.land_ones by lia.
  change 1 with (Z.ones 1) at 1. rewrite Z.land_ones by lia.
  change (2 ^ 1) with 2. change (2 ^ 4) with 16.
  unfold Z.lnot. rewrite Z.shiftl_mul_pow2 by lia. change (2 ^ 2) with 4.
  rewrite (Zmod_even (Z.pred (- i))).
  replace (Z.even (Z.pred (- i))) with (negb (Z.even i)).
  2:{ rewrite Z.even_pred, <- Z.negb_even, Z.even_opp. done. }
  destruct (Z.even i); simpl.
  - rewrite Z.shiftr_div_pow2 by lia. done.
  - by rewrite Z.shiftr_0_r.
Qed.

(** The bases of a converted record, one by one. *)
Lemma convert_sequence_bases (b : bam1_t) (m m' : Read) (i byte : Z) :
  convert_sequence b m = Ret m' ->
  0 <= i < l_qseq (core b) -> 0 <= byte ->
  load (data b) (bam_get_seq b + i / 2) = Ret byte ->
  String.get (Z.to_nat i) (aligned_sequence m') = base_of_byte byte i.
Proof.
  unfold convert_sequence. intros H Hi Hb Hload.
  destruct (Z.eqb_spec (l_qseq (core b)) 0) as [E|E]; [lia|].
  match type of H with
  | (?o ≫= _) = _ => destruct o as [read_seq| |] eqn:Hseq
  end; simpl in H; try done.
  assert (aligned_sequence m' = string_of_list_ascii read_seq) as ->.
  { destruct (load (data b) (bam_get_qual b)); simpl in H; try done.
    destruct (_ =? 255); [by inversion H|].
    match type of H with
    | (?o ≫= _) = _ => destruct o
    end; simpl in H; try done. by inversion H. }
  rewrite get_string_of_list_ascii.
  destruct (mapM_Ret_lookup _ _ _ (Z.to_nat i) i Hseq) as (c & Hc & Hci).
  { rewrite lookup_seqZ. split; lia. }
  rewrite Hci. rewrite (bam_seqi_nibble _ _ _ byte) in Hc; [|lia|lia|].
  2:{ rewrite Z.shiftr_div_pow2 by lia. done. }
  simpl in Hc. unfold array_get in Hc. unfold base_of_byte.
  destruct (_ <? 0); [done|].
  destruct (seq_nt16_str !! _) eqn:E2; [|done]. by inversion Hc.
Qed.

Lemma convert_cigar_units (b : bam1_t) (units : list CigarUnit) :
  convert_cigar b = Ret units ->
  length units = Z.to_nat (n_cigar (core b))
  /\ forall i, 0 <= i < n_cigar (core b) ->
       exists w op,
         le_to_u32 (data b) (bam_get_cigar b + 4 * i) = Ret w
         /\ array_get kHtslibCigarToProto (bam_cigar_op w) = Ret op
         /\ units !! Z.to_nat i = Some (mkCigarUnit op (bam_cigar_oplen w)).
Proof.
  unfold convert_cigar. intros H. split.
  - apply mapM_Ret_length in H. by rewrite length_seqZ in H.
  - intros i Hi.
    destruct (mapM_Ret_lookup _ _ _ (Z.to_nat i) i H) as (u & Hu & Hui).
    { rewrite lookup_seqZ. split; lia. }
    destruct (le_to_u32 _ _) as [w| |] eqn:Hw; simpl in Hu; try done.
    destruct (array_get _ _) as [op| |] eqn:Hop; simpl in Hu; try done.
    inversion Hu; subst. by exists w, op.
Qed.

Section ConverterContents.

Variable ShortDebugString : Read -> string.

#[local] Abbreviation ConvertToPb' := (ConvertToPb ShortDebugString).

Lemma ConvertToPb_fields (fuel : nat) (h : bam_hdr_t) (b : bam1_t)
    (options : SamReaderOptions) (old : Read) (g : LogState)
    (st : Status) (out : Read) (g' : LogState) :
  ConvertToPb' fuel h b options old g = Ret (st, out, g') ->
  exists m, convert_fields h b = Ret m /\ same_but_mate_and_info m out.
Proof.
  intros H. apply ConvertToPb_inv in H as (m & st1 & m2 & Hf & Hm & H).
  exists m. split; [done|].
  assert (same_but_mate_and_info m m2) as H2.
  { apply convert_mate_spec in Hm
      as [(_ & _ & ->)|[(_ & _ & -> & _)|(_ & _ & _ & n & _ & ->)]];
      by repeat split. }
  destruct H as [(_ & _ & -> & _)|(_ & H)]; [done|].
  apply convert_aux_spec in H as (_ & status & H).
  apply ParseAuxFields_Ret in H as [Hs _].
  unfold same_but_info in Hs. unfold same_but_mate_and_info in *.
  destruct_and!. repeat split; congruence.
Qed.

(** X6. In every record ConvertToPb returns, the sequence has l_qseq
    characters, base i being the high half of byte i/2 for an even i and
    the low half for an odd i; the qualities are absent when l_qseq is 0
    or the first quality byte is 0xff, and otherwise, with l_qseq above 0
    and a first quality byte other than 0xff, are the l_qseq quality
    bytes. *)
Theorem converted_sequence_and_qualities
    (fuel : nat) (h : bam_hdr_t) (b : bam1_t) (options : SamReaderOptions)
    (old : Read) (g : LogState) (st : Status) (out : Read) (g' : LogState)
    (Hconv : ConvertToPb' fuel h b options old g = Ret (st, out, g'))
    (Hlen : 0 <= l_qseq (core b)) :
  Z.of_nat (String.length (aligned_sequence out)) = l_qseq (core b)
  /\ (forall i byte,
        0 <= i < l_qseq (core b) -> 0 <= byte ->
        load (data b) (bam_get_seq b + i / 2) = Ret byte ->
        String.get (Z.to_nat i) (aligned_sequence out) = base_of_byte byte i)
  /\ ((aligned_quality out = []
       /\ (l_qseq (core b) = 0 \/ load (data b) (bam_get_qual b) = Ret 255))
      \/ (Z.of_nat (length (aligned_quality out)) = l_qseq (core b)
          /\ 0 < l_qseq (core b)
          /\ load (data b) (bam_get_qual b) <> Ret 255
          /\ forall i, 0 <= i < l_qseq (core b) ->
               load (data b) (bam_get_qual b + i)
               = Ret (nth (Z.to_nat i) (aligned_quality out) 0))).
Proof.
  apply ConvertToPb_fields in Hconv as (m & Hf & Hsame).
  unfold same_but_mate_and_info in Hsame.
  destruct Hsame as (_ & _ & _ & _ & _ & _ & _ & _ & _ & Hs & Hq & _).
  apply convert_fields_sequence in Hf as (m1 & m2 & H1 & H2 & Es & Eq).
  rewrite Hs, Hq, Es, Eq.
  assert (aligned_sequence m1 = "" /\ aligned_quality m1 = []) as [S1 Q1].
  { unfold convert_basic in H1.
    destruct (load_c_string _ _); simpl in H1; try done. by inversion H1. }
  destruct (convert_sequence_lengths b m1 m2 H2 S1 Q1 Hlen) as [L1 L2].
  split; [done|]. split; [|done].
  intros i byte Hi Hb Hload. by eapply convert_sequence_bases.
Qed.

(** X7. In every record converted from one whose unmapped flag is clear,
    the alignment has the mapping quality of the record and one CIGAR
    unit per CIGAR word, in order: the operation the table gives for the
    low 4 bits of the word, and the word shifted right by 4 as length. *)
Theorem converted_cigar
    (fuel : nat) (h : bam_hdr_t) (b : bam1_t) (options : SamReaderOptions)
    (old : Read) (g : LogState) (st : Status) (out : Read) (g' : LogState)
    (Hconv : ConvertToPb' fuel h b options old g = Ret (st, out, g'))
    (Hmapped : has_flag (core b) BAM_FUNMAP = false) :
  exists a,
    alignment out = Some a
    /\ mapping_quality a = qual (core b)
    /\ length (cigar a) = Z.to_nat (n_cigar (core b))
    /\ forall i, 0 <= i < n_cigar (core b) ->
         exists w op,
           le_to_u32 (data b) (bam_get_cigar b + 4 * i) = Ret w
           /\ array_get kHtslibCigarToProto (bam_cigar_op w) = Ret op
           /\ cigar a !! Z.to_nat i
              = Some (mkCigarUnit op (bam_cigar_oplen w)).
Proof.
  apply ConvertToPb_fields in Hconv as (m & Hf & Hsame).
  unfold same_but_mate_and_info in Hsame.
  destruct Hsame as (_ & _ & _ & _ & _ & _ & _ & _ & _ & _ & _ & Ha).
  apply convert_fields_spec in Hf. simpl in Hf.
  destruct Hf as (_ & _ & _ & _ & _ & _ & _ & _ & _ & _ & _ & _ & Hmap).
  destruct (Hmap Hmapped) as (units & Hunits & Hal).
  apply convert_cigar_units in Hunits as [Hlen Hu].
  rewrite Ha.
  destruct Hal as [[_ ->]|(_ & n & _ & ->)]; eexists; by repeat split.
Qed.

(** X8. In every record converted from one whose unmapped flag is clear
    and whose reference index is not negative, the position is the name
    the header gives for that index, the record's offset, and its
    reverse-strand flag. *)
Theorem converted_position
    (fuel : nat) (h : bam_hdr_t) (b : bam1_t) (options : SamReaderOptions)
    (old : Read) (g : LogState) (st : Status) (out : Read) (g' : LogState)
    (Hconv : ConvertToPb' fuel h b options old g = Ret (st, out, g'))
    (Hmapped : has_flag (core b) BAM_FUNMAP = false)
    (Htid : 0 <= tid (core b)) :
  exists a name,
    alignment out = Some a
    /\ target_name h !! Z.to_nat (tid (core b)) = Some name
    /\ alignment_position a
       = Some (mkPosition name (pos (core b))
                 (has_flag (core b) BAM_FREVERSE)).
Proof.
  apply ConvertToPb_fields in Hconv as (m & Hf & Hsame).
  unfold same_but_mate_and_info in Hsame.
  destruct Hsame as (_ & _ & _ & _ & _ & _ & _ & _ & _ & _ & _ & Ha).
  apply convert_fields_spec in Hf. simpl in Hf.
  destruct Hf as (_ & _ & _ & _ & _ & _ & _ & _ & _ & _ & _ & _ & Hmap).
  destruct (Hmap Hmapped) as (units & _ & [[Hlt _]|(_ & n & Hn & Hal)]);
    [lia|].
  rewrite Ha, Hal. eexists _, n. split; [done|]. split; [|done].
  unfold array_get in Hn. destruct (_ <? 0); [done|].
  destruct (target_name h !! _); by inversion Hn.
Qed.

(** X9. Every record ConvertToPb returns, with status OK or not, has the
    name, the insert size and the five flag bits of the native record;
    it is number 0 of 1 when the record is not paired, and of 2 when it
    is paired, number 1 exactly when the first-read flag is clear. *)
Theorem converted_flags
    (fuel : nat) (h : bam_hdr_t) (b : bam1_t) (options : SamReaderOptions)
    (old : Read) (g : LogState) (st : Status) (out : Read) (g' : LogState)
    (Hconv : ConvertToPb' fuel h b options old g = Ret (st, out, g')) :
  load_c_string (data b) (bam_get_qname b) = Ret (fragment_name out)
  /\ fragment_length out = isize (core b)
  /\ proper_placement out = has_flag (core b) BAM_FPROPER_PAIR
  /\ duplicate_fragment out = has_flag (core b) BAM_FDUP
  /\ failed_vendor_quality_checks out = has_flag (core b) BAM_FQCFAIL
  /\ secondary_alignment out = has_flag (core b) BAM_FSECONDARY
  /\ supplementary_alignment out = has_flag (core b) BAM_FSUPPLEMENTARY
  /\ (has_flag (core b) BAM_FPAIRED = false ->
      read_number out = 0 /\ number_reads out = 1)
  /\ (has_flag (core b) BAM_FPAIRED = true ->
      number_reads out = 2
      /\ (read_number out = 1 <-> has_flag (core b) BAM_FREAD1 = false)
      /\ (read_number out = 0 <-> has_flag (core b) BAM_FREAD1 = true)).
Proof.
  apply ConvertToPb_fields in Hconv as (m & Hf & Hsame).
  unfold same_but_mate_and_info in Hsame.
  destruct Hsame as (E1 & E2 & E3 & E4 & E5 & E6 & E7 & E8 & E9 & _).
  apply convert_fields_spec in Hf. simpl in Hf.
  destruct Hf as (F1 & F2 & F3 & F4 & F5 & F6 & F7 & F8 & F9 & _).
  rewrite E1, E2, E3, E4, E5, E6, E7, E8, E9.
  repeat (split; [done|]). rewrite F8, F9. split.
  - intros ->. by rewrite orb_true_r.
  - intros ->. rewrite orb_false_r.
    destruct (has_flag (core b) BAM_FREAD1); by repeat split.
Qed.

End ConverterContents.

Lemma converted_sequence_and_qualities_witness :
  (exists out,
      ConvertToPb no_debug_string 0 one_contig (matched_record 0 0 (-1))
        parse_all Read_Clear (mkLog 0 [])
      = Ret (Status_OK, out, mkLog 0 [])
      /\ String.length (aligned_sequence out) = 2%nat
      /\ String.get 0 (aligned_sequence out) = Some "A"%char
      /\ String.get 1 (aligned_sequence out) = Some "C"%char
      /\ length (aligned_quality out) = 2%nat
      /\ nth 0 (aligned_quality out) 0 = 40
      /\ nth 1 (aligned_quality out) 0 = 41)
  /\ (exists out,
        ConvertToPb no_debug_string 0 one_contig record_without_qualities
          parse_all Read_Clear (mkLog 0 [])
        = Ret (Status_OK, out, mkLog 0 [])
        /\ aligned_quality out = []).
Proof.
  split.
  - eexists. split; [reflexivity|].
    destruct (converted_sequence_and_qualities no_debug_string 0 one_contig
                (matched_record 0 0 (-1)) parse_all Read_Clear (mkLog 0 [])
                _ _ _ eq_refl ltac:(vm_compute; discriminate))
      as (Hlen & Hbase & Hqual).
    split; [apply Nat2Z.inj; exact Hlen|]. split; [|split].
    + apply (Hbase 0 18); [by vm_compute|lia|reflexivity].
    + apply (Hbase 1 18); [by vm_compute|lia|reflexivity].
    + destruct Hqual as [(_ & [H0|Hff])|(Hl & _ & _ & Hq)].
      * vm_compute in H0. discriminate H0.
      * vm_compute in Hff. discriminate Hff.
      * split; [apply Nat2Z.inj; exact Hl|].
        pose proof (Hq 0 ltac:(vm_compute; split; congruence)) as Hq0.
        pose proof (Hq 1 ltac:(vm_compute; split; congruence)) as Hq1.
        vm_compute in Hq0, Hq1. inversion Hq0. inversion Hq1. by split.
  - eexists. split; [reflexivity|].
    destruct (converted_sequence_and_qualities no_debug_string 0 one_contig
                record_without_qualities parse_all Read_Clear (mkLog 0 [])
                _ _ _ eq_refl ltac:(vm_compute; discriminate))
      as (_ & _ & [(Hnone & _)|(_ & _ & Hff & _)]).
    + exact Hnone.
    + exfalso. apply Hff. reflexivity.
Defined.

Lemma converted_cigar_witness :
  exists a,
    mapping_quality a = 30
    /\ cigar a = [mkCigarUnit ALIGNMENT_MATCH 2].
Proof.
  destruct (converted_cigar no_debug_string 0 one_contig
              (matched_record 0 0 (-1)) parse_all Read_Clear (mkLog 0 [])
              _ _ _ eq_refl eq_refl)
    as (a & Ha & Hq & Hlen & Hunits).
  exists a. split; [exact Hq|].
  destruct (Hunits 0) as (w & op & Hw & Hop & Hu); [by vm_compute|].
  vm_compute in Hw. inversion Hw; subst w.
  vm_compute in Hop. inversion Hop; subst op.
  destruct (cigar a) as [|u [|u2 us]]; simpl in Hlen, Hu; try done.
  by inversion Hu.
Defined.

Lemma converted_position_witness :
  exists a,
    alignment_position a = Some (mkPosition "chr1" 10 true).
Proof.
  destruct (converted_position no_debug_string 0 one_contig
              (matched_record 16 0 (-1)) parse_all Read_Clear (mkLog 0 [])
              _ _ _ eq_refl eq_refl ltac:(vm_compute; discriminate))
    as (a & name & Ha & Hname & Hpos).
  exists a. vm_compute in Hname. inversion Hname; subst name. exact Hpos.
Defined.

Lemma converted_flags_witness :
  exists out,
    ConvertToPb no_debug_string 0 one_contig (matched_record 137 0 (-1))
      parse_all Read_Clear (mkLog 0 [])
    = Ret (Status_OK, out, mkLog 0 [])
    /\ number_reads out = 2 /\ read_number out = 1.
Proof.
  eexists. split; [reflexivity|].
  destruct (converted_flags no_debug_string 0 one_contig
              (matched_record 137 0 (-1)) parse_all Read_Clear (mkLog 0 [])
              _ _ _ eq_refl) as (_ & _ & _ & _ & _ & _ & _ & _ & H).
  destruct H as (H2 & H1 & _); [reflexivity|].
  split; [exact H2|]. apply H1. reflexivity.
Defined.

(** ** The record converter: status, log and faults *)

Section ConverterStatus.

Variable ShortDebugString : Read -> string.

#[local] Abbreviation ConvertToPb' := (ConvertToPb ShortDebugString).

(** X10. ConvertToPb returns a status that is not OK exactly for a paired
    record whose mate is not flagged unmapped and has no reference; it
    then has not looked at the aux bytes: the info map is empty and the
    counter and the log are as they were. *)
Theorem ConvertToPb_fails_only_on_mate
    (fuel : nat) (h : bam_hdr_t) (b : bam1_t) (options : SamReaderOptions)
    (old : Read) (g : LogState) (st : Status) (out : Read) (g' : LogState)
    (Hconv : ConvertToPb' fuel h b options old g = Ret (st, out, g')) :
  (ok st = false <-> mate_inconsistent b)
  /\ (ok st = true -> st = Status_OK)
  /\ (ok st = false -> code st = DataLoss /\ info out = ∅ /\ g' = g).
Proof.
  apply ConvertToPb_inv in Hconv as (m & st1 & m2 & Hf & Hm & H).
  apply convert_fields_spec in Hf. simpl in Hf.
  destruct Hf as (_ & _ & _ & _ & _ & _ & _ & _ & _ & _ & Hinfo & _).
  apply convert_mate_spec in Hm. unfold mate_mapped_pair, mate_inconsistent in *.
  destruct Hm as [(Hp & -> & ->)|[(Hp & Hlt & -> & ->)
                                 |(Hp & Hge & -> & name & _ & ->)]].
  - destruct H as [(Hok & _)|(_ & H)]; [done|].
    apply convert_aux_spec in H as [-> _]. simpl.
    split; [|done]. split; [done|]. intros (H1 & H2 & _).
    by rewrite H1, H2 in Hp.
  - destruct H as [(_ & -> & -> & ->)|(Hok & _)]; [|done]. simpl.
    apply andb_prop in Hp as [H1 H2%negb_true_iff].
    split; [by split|]. split; [done|]. by intros _.
  - destruct H as [(Hok & _)|(_ & H)]; [done|].
    apply convert_aux_spec in H as [-> _]. simpl.
    split; [|done]. split; [done|]. intros (_ & _ & ?). lia.
Qed.

(** X11. When the options do not ask for the aux fields, ConvertToPb
    leaves the info map empty and the counter and the log as they were,
    whatever the aux bytes. *)
Theorem aux_parsing_off_leaves_info_empty
    (fuel : nat) (h : bam_hdr_t) (b : bam1_t) (options : SamReaderOptions)
    (old : Read) (g : LogState) (st : Status) (out : Read) (g' : LogState)
    (Hoff : aux_field_handling options <> PARSE_ALL_AUX_FIELDS)
    (Hconv : ConvertToPb' fuel h b options old g = Ret (st, out, g')) :
  info out = ∅ /\ g' = g.
Proof.
  apply ConvertToPb_inv in Hconv as (m & st1 & m2 & Hf & Hm & H).
  apply convert_fields_spec in Hf. simpl in Hf.
  destruct Hf as (_ & _ & _ & _ & _ & _ & _ & _ & _ & _ & Hinfo & _).
  assert (info m2 = ∅) as Hinfo2.
  { apply convert_mate_spec in Hm
      as [(_ & _ & ->)|[(_ & _ & -> & _)|(_ & _ & _ & n & _ & ->)]]; done. }
  destruct H as [(_ & _ & -> & ->)|(_ & H)]; [done|].
  unfold convert_aux, ParseAuxFields in H.
  destruct (aux_field_handling options); simpl in H; [| |done];
    inversion H; by subst.
Qed.

(** X12. One call of ConvertToPb adds at most one warning to the log,
    and none once the counter is 1 or more; the counter stays or goes up
    by one (as an int); and a warning is only ever added together with a
    status OK. *)
Theorem ConvertToPb_logs_at_most_once
    (fuel : nat) (h : bam_hdr_t) (b : bam1_t) (options : SamReaderOptions)
    (old : Read) (g : LogState) (st : Status) (out : Read) (g' : LogState)
    (Hconv : ConvertToPb' fuel h b options old g = Ret (st, out, g')) :
  (g' = g
   \/ (counter g' = int32 (counter g + 1)
       /\ st = Status_OK
       /\ ((1 <= counter g /\ warnings g' = warnings g)
           \/ (counter g < 1 /\ exists w, warnings g' = warnings g ++ [w])))).
Proof.
  apply ConvertToPb_inv in Hconv as (m & st1 & m2 & Hf & Hm & H).
  destruct H as [(_ & _ & _ & ->)|(_ & H)]; [by left|].
  unfold convert_aux in H.
  destruct (ParseAuxFields fuel b options m2) as [[status m3]| |];
    simpl in H; try done.
  destruct (ok status); simpl in H; [by inversion H; left|].
  destruct (Z.ltb_spec (counter g) 1).
  - destruct (load_c_string _ _); simpl in H; try done.
    inversion H; subst. right. simpl. split; [done|]. split; [done|].
    right. split; [done|]. eauto.
  - inversion H; subst. right. simpl. split; [done|]. split; [done|].
    left. by split.
Qed.

Lemma ConvertToPb_returns (fuel : nat) (h : bam_hdr_t) (b : bam1_t)
    (options : SamReaderOptions) (old : Read) (g : LogState) :
  record_well_formed h b ->
  mtid (core b) < Z.of_nat (length (target_name h)) ->
  (forall m, returns (ParseAuxFields fuel b options m)) ->
  returns (ConvertToPb' fuel h b options old g).
Proof.
  intros Hwf Hmtid Haux.
  destruct (convert_fields_returns h b Hwf) as [m Hf].
  pose proof (convert_fields_spec h b m Hf) as Hspec. simpl in Hspec.
  destruct Hspec as (Hname & _).
  unfold ConvertToPb. rewrite Hf. simpl.
  assert (returns (convert_mate ShortDebugString h b m)) as [[st1 m2] Hm].
  { unfold convert_mate. destruct (_ && _); [|by eexists].
    destruct (Z.ltb_spec (mtid (core b)) 0); [by eexists|].
    apply returns_bind; [apply array_get_inside; lia|]. intros; by eexists. }
  rewrite Hm. simpl. destruct (ok st1); simpl; [|by eexists].
  unfold convert_aux. destruct (Haux m2) as [[status m3] ->]. simpl.
  destruct (ok status); simpl; [by eexists|].
  destruct (counter g <? 1); [|by eexists].
  rewrite Hname. simpl. by eexists.
Qed.

(** X13. A well-formed record whose mate reference index is below the
    number of references is converted without a fault, with fuel for as
    many turns as the record has bytes, provided the count of every array
    field the decoder gets to is sane. *)
Theorem ConvertToPb_returns_on_well_formed
    (fuel : nat) (h : bam_hdr_t) (b : bam1_t) (options : SamReaderOptions)
    (old : Read) (g : LogState)
    (Hwf : record_well_formed h b)
    (Hmtid : mtid (core b) < Z.of_nat (length (target_name h)))
    (Hfuel : (length (data b) <= fuel)%nat)
    (Hsane : forall m s1 m1,
        reaches (data b) (bam_get_aux b) m s1 m1 ->
        array_count_sane (data b) s1) :
  exists st out g', ConvertToPb' fuel h b options old g = Ret (st, out, g').
Proof.
  destruct (ConvertToPb_returns fuel h b options old g Hwf Hmtid)
    as [[[st out] g'] H]; [|by exists st, out, g'].
  intros m.
  destruct (ParseAuxFields_terminates b options m fuel) as (status & m' & H);
    [| done | apply Hsane | by eexists].
  destruct Hwf as (_ & Hq & Hc & Hs & _).
  destruct (bam_layout b Hq Hc Hs) as (_ & E1 & E2 & E3).
  assert (0 <= (l_qseq (core b) + 1) / 2) by (apply Z.div_pos; lia). lia.
Qed.

End ConverterStatus.

Lemma ConvertToPb_fails_only_on_mate_witness :
  mate_inconsistent (matched_record 1 0 (-1)).
Proof.
  apply (ConvertToPb_fails_only_on_mate no_debug_string 0 one_contig
           (matched_record 1 0 (-1)) parse_all Read_Clear (mkLog 0 [])
           _ _ _ eq_refl).
  reflexivity.
Defined.

Lemma aux_parsing_off_leaves_info_empty_witness :
  exists out,
    ConvertToPb no_debug_string 0 one_contig
      (small_record 0 0 (-1) [chr "X"; chr "1"; chr "q"; 0])
      full_options Read_Clear (mkLog 0 [])
    = Ret (Status_OK, out, mkLog 0 [])
    /\ info out = ∅.
Proof.
  eexists. split; [reflexivity|].
  apply (aux_parsing_off_leaves_info_empty no_debug_string 0 one_contig
           (small_record 0 0 (-1) [chr "X"; chr "1"; chr "q"; 0])
           full_options Read_Clear (mkLog 0 []) _ _ _
           ltac:(discriminate) eq_refl).
Defined.

Lemma ConvertToPb_logs_at_most_once_witness :
  exists out g',
    ConvertToPb no_debug_string 1 one_contig
      (small_record 0 0 (-1) [chr "X"; chr "1"; chr "q"; 0])
      parse_all Read_Clear (mkLog 1 [])
    = Ret (Status_OK, out, g')
    /\ counter g' = 2 /\ warnings g' = [].
Proof.
  eexists _, _. split; [reflexivity|].
  destruct (ConvertToPb_logs_at_most_once no_debug_string 1 one_contig
              (small_record 0 0 (-1) [chr "X"; chr "1"; chr "q"; 0])
              parse_all Read_Clear (mkLog 1 []) _ _ _ eq_refl)
    as [Heq|(Hc & _ & [[_ Hw]|[Hlt _]])].
  - discriminate Heq.
  - split; [exact Hc|exact Hw].
  - simpl in Hlt. lia.
Defined.

Lemma ConvertToPb_returns_on_well_formed_witness :
  exists st out g',
    ConvertToPb no_debug_string 20 one_contig record_with_aux
      parse_all Read_Clear (mkLog 0 [])
    = Ret (st, out, g').
Proof.
  apply (ConvertToPb_returns_on_well_formed no_debug_string 20 one_contig
           record_with_aux parse_all Read_Clear (mkLog 0 [])).
  - repeat split; try (vm_compute; congruence).
    intros i w Hi. simpl in Hi. lia.
  - simpl. lia.
  - simpl. lia.
  - intros m s1 m1 Hr. inversion Hr as [|? ? s2 m2 ? ? Hk Hf Hr2]; subst.
    { intros u HB. vm_compute in HB. discriminate. }
    vm_compute in Hf. inversion Hf; subst.
    inversion Hr2 as [|? ? s3 m3 ? ? Hk3 Hf3 Hr3]; subst.
    { intros u _ Hu. vm_compute in Hu. inversion Hu. lia. }
    vm_compute in Hf3. inversion Hf3; subst.
    inversion Hr3 as [|? ? s4 m4 ? ? Hk4 Hf4 Hr4]; subst.
    { intros u HB. vm_compute in HB. discriminate. }
    simpl in Hk4. lia.
Defined.

(** ** Runs of the keep-predicate and of Next *)

Section IterationRunProperties.

Variable ShortDebugString : Read -> string.
Variable ReadSatisfiesRequirements : Read -> ReadRequirements -> bool.
Variable Generator : Type.
Variable uniform : Generator -> Q * Generator.

#[local] Abbreviation KeepRead' := (KeepRead ReadSatisfiesRequirements uniform).
#[local] Abbreviation Next' :=
  (Next ShortDebugString ReadSatisfiesRequirements uniform).
#[local] Abbreviation Next_loop' :=
  (Next_loop ShortDebugString ReadSatisfiesRequirements uniform).
#[local] Abbreviation meets := (meets_requirements ReadSatisfiesRequirements).

(** X14. With a fraction other than 0 the generator is drawn from once
    for each record that meets the read requirements and not at all for
    the others: after any run of records its state is the one after as
    many draws as records met the requirements. *)
Theorem sampler_draws_once_per_eligible_record
    (options : SamReaderOptions) (s : FractionalSampler Generator)
    (reads : list Read)
    (Hon : Qeq_bool (downsample_fraction options) 0 = false) :
  generator_ (sampler_after ReadSatisfiesRequirements uniform options s reads)
  = draws uniform (length (List.filter (meets options) reads))
      (generator_ s)
  /\ fraction_ (sampler_after ReadSatisfiesRequirements uniform options s
                  reads)
     = fraction_ s.
Proof.
  revert s. induction reads as [|read reads IH]; intros s; simpl; [done|].
  destruct (IH (snd (KeepRead' options s read))) as [IHg IHf].
  rewrite IHg, IHf. unfold KeepRead, meets_requirements. rewrite Hon.
  destruct (match read_requirements options with
            | Some r => ReadSatisfiesRequirements read r
            | None => true
            end); [|done].
  simpl. unfold Keep. by destruct (uniform (generator_ s)).
Qed.

(** X15. When the cursor begins with records that are read, converted
    and rejected, and the record after them is read, converted and kept,
    Next yields that record: it answers true, the output is the converted
    record, and the iterable is left at the records after it with the
    sampler and the log as the kept record left them. *)
Theorem Next_yields_first_kept_record
    (fuel : nat) (h : bam_hdr_t) (options : SamReaderOptions)
    (rejected rest : cursor_t) (code : Z) (b : bam1_t) (out : Read)
    (s : FractionalSampler Generator) (g : LogState) (out1 : Read)
    (s1 : FractionalSampler Generator) (g1 : LogState)
    (status : Status) (out2 : Read) (g2 : LogState)
    (s2 : FractionalSampler Generator)
    (Hskip : skipped ShortDebugString ReadSatisfiesRequirements uniform
               fuel h options rejected out s g out1 s1 g1)
    (Hcode : 0 <= code)
    (Hconv : ConvertToPb ShortDebugString fuel h b options out1 g1
             = Ret (status, out2, g2))
    (Hok : ok status = true)
    (Hkeep : KeepRead' options s1 out2 = (true, s2)) :
  Next' fuel true h options (mkIter (rejected ++ (code, b) :: rest) s g) out
  = Ret (Value true, out2, mkIter rest s2 g2).
Proof.
  unfold Next. simpl.
  induction Hskip as [|code0 b0 rej out s g status0 out1 g1 s1 out' s' g'
                       Hcode0 Hc Hok0 Hk _ IH]; simpl.
  - destruct (Z.eqb_spec code (-1)); [lia|].
    destruct (Z.ltb_spec code (-1)); [lia|].
    rewrite Hconv. simpl. rewrite Hok. simpl. by rewrite Hkeep.
  - destruct (Z.eqb_spec code0 (-1)); [lia|].
    destruct (Z.ltb_spec code0 (-1)); [lia|].
    rewrite Hc. simpl. rewrite Hok0. simpl. rewrite Hk. by apply IH.
Qed.

(** X16. A call of Next on a live iterable takes at least one raw record
    off a cursor that is not empty, and what it leaves is the end of the
    cursor it was given: no record is read twice and none is put back. *)
Theorem Next_consumes
    (fuel : nat) (h : bam_hdr_t) (options : SamReaderOptions)
    (it : IterState Generator) (out : Read) (res : StatusOr bool)
    (out' : Read) (it' : IterState Generator)
    (Hnext : Next' fuel true h options it out = Ret (res, out', it')) :
  exists taken,
    cursor it = taken ++ cursor it'
    /\ (cursor it <> [] -> taken <> []).
Proof.
  destruct it as [cur s g]. unfold Next in Hnext. simpl in *.
  revert out s g Hnext.
  induction cur as [|[code b] cur IH]; intros out s g H; simpl in H.
  - inversion H; subst. by exists [].
  - assert (exists taken, (code, b) :: cur = taken ++ cursor it') as [t Ht];
      [|exists t; split; [done|]; intros _ ->; simpl in Ht;
        apply (f_equal length) in Ht; revert Ht].
    + destruct (code =? -1); [inversion H; by exists [(code, b)]|].
      destruct (code <? -1); [inversion H; by exists [(code, b)]|].
      destruct (ConvertToPb _ _ _ _ _ _ _) as [[[status out1] g1]| |];
        simpl in H; try done.
      destruct (ok status); simpl in H;
        [|inversion H; by exists [(code, b)]].
      destruct (KeepRead' options s out1) as [keep s1].
      destruct keep; [inversion H; by exists [(code, b)]|].
      apply IH in H as (t & -> & _). by exists ((code, b) :: t).
    + destruct (code =? -1); [inversion H; simpl; lia|].
      destruct (code <? -1); [inversion H; simpl; lia|].
      destruct (ConvertToPb _ _ _ _ _ _ _) as [[[status out1] g1]| |];
        simpl in H; try done.
      destruct (ok status); simpl in H; [|inversion H; simpl; lia].
      destruct (KeepRead' options s out1) as [keep s1].
      destruct keep; [inversion H; simpl; lia|].
      apply IH in H as (t & Ht & _). apply (f_equal length) in Ht.
      rewrite length_app in Ht. simpl. lia.
Qed.

(** X17. With the aux fields not asked for, Next returns for any fuel on
    a cursor whose records are well-formed with mate references the
    header knows: it yields a record, says "no more records" or reports
    an error, and never faults. *)
Theorem Next_returns_without_aux
    (fuel : nat) (alive : bool) (h : bam_hdr_t) (options : SamReaderOptions)
    (it : IterState Generator) (out : Read)
    (Hoff : aux_field_handling options <> PARSE_ALL_AUX_FIELDS)
    (Hrecords : Forall (raw_record_ok h) (cursor it)) :
  exists res out' it', Next' fuel alive h options it out = Ret (res, out', it').
Proof.
  unfold Next. destruct (negb _); [by eexists _, _, _|].
  destruct it as [cur s g]. simpl in *. revert out s g.
  induction Hrecords as [|[code b] cur Hraw _ IH]; intros out s g; simpl.
  - by eexists _, _, _.
  - destruct (Z.eqb_spec code (-1)); [by eexists _, _, _|].
    destruct (Z.ltb_spec code (-1)); [by eexists _, _, _|].
    destruct Hraw as [Hneg|[Hwf Hmtid]]; [simpl in Hneg; lia|].
    simpl in Hwf, Hmtid.
    destruct (ConvertToPb_returns ShortDebugString fuel h b options out g
                Hwf Hmtid) as [[[status out1] g1] ->].
    { intros m. unfold ParseAuxFields.
      destruct (aux_field_handling options); simpl; try done; by eexists. }
    simpl. destruct (ok status); simpl; [|by eexists _, _, _].
    destruct (KeepRead' options s out1) as [keep s1].
    destruct keep; [by eexists _, _, _|]. apply IH.
Qed.

End IterationRunProperties.

Lemma sampler_draws_once_per_eligible_record_witness :
  generator_
    (sampler_after no_duplicates flip_uniform half_with_requirements
       (make_sampler flip_seed half_with_requirements)
       [Read_Clear; duplicate_read; Read_Clear])
  = draws flip_uniform 2 (flip_seed 7)
  /\ fraction_
       (sampler_after no_duplicates flip_uniform half_with_requirements
          (make_sampler flip_seed half_with_requirements)
          [Read_Clear; duplicate_read; Read_Clear])
     = (1 # 2)%Q.
Proof.
  apply (sampler_draws_once_per_eligible_record no_duplicates bool
           flip_uniform half_with_requirements
           (make_sampler flip_seed half_with_requirements)
           [Read_Clear; duplicate_read; Read_Clear]).
  reflexivity.
Defined.

Lemma Next_yields_first_kept_record_witness :
  exists out,
    Next no_debug_string no_duplicates flip_uniform 0 true one_contig
      with_requirements
      (mkIter duplicate_then_plain
         (make_sampler flip_seed with_requirements) (mkLog 0 []))
      Read_Clear
    = Ret (Value true, out,
           mkIter [] (make_sampler flip_seed with_requirements) (mkLog 0 []))
    /\ duplicate_fragment out = false.
Proof.
  eexists. split.
  - eapply (Next_yields_first_kept_record no_debug_string no_duplicates bool
             flip_uniform 0 one_contig with_requirements
             [(0, small_record 1024 0 (-1) [])] [] 0
             (small_record 0 0 (-1) [])).
    + eapply skipped_cons; [lia|reflexivity|reflexivity|reflexivity|].
      apply skipped_nil.
    + lia.
    + reflexivity.
    + reflexivity.
    + reflexivity.
  - reflexivity.
Defined.

Lemma Next_consumes_witness :
  exists taken,
    duplicate_then_plain = taken ++ [] /\ taken <> [].
Proof.
  destruct (Next_consumes no_debug_string no_duplicates bool flip_uniform
              0 one_contig with_requirements
              (mkIter duplicate_then_plain
                 (make_sampler flip_seed with_requirements) (mkLog 0 []))
              Read_Clear (Value true) _ _ eq_refl)
    as (taken & Ht & Hne).
  exists taken. split; [exact Ht|]. by apply Hne.
Defined.

Lemma Next_returns_without_aux_witness :
  exists res out it,
    Next no_debug_string no_duplicates flip_uniform 0 true one_contig
      full_options
      (mkIter [(0, small_record 1 0 (-1) []); (-1, small_record 1 0 (-1) [])]
         (make_sampler flip_seed full_options) (mkLog 0 []))
      Read_Clear
    = Ret (res, out, it).
Proof.
  apply (Next_returns_without_aux no_debug_string no_duplicates bool
           flip_uniform 0 true one_contig full_options).
  - discriminate.
  - constructor; [|constructor; [left; simpl; lia|constructor]].
    right. split; [exact small_record_well_formed|]. simpl. lia.
Defined.

(** ** The header parser, line by line *)

Lemma for_each_app {A S : Type} (body : A -> S -> outcome S)
    (l1 l2 : list A) (st : S) :
  for_each body (l1 ++ l2) st = (st' ← for_each body l1 st; for_each body l2 st').
Proof.
  revert st. induction l1 as [|a l1 IH]; intros st; simpl; [done|].
  destruct (body a st) as [st'| |]; simpl; [apply IH|done|done].
Qed.

Lemma for_each_invariant {A S : Type} (I : S -> Prop)
    (body : A -> S -> outcome S) (l : list A) :
  (forall a st st', body a st = Ret st' -> I st -> I st') ->
  forall st st', for_each body l st = Ret st' -> I st -> I st'.
Proof.
  intros Hbody. induction l as [|a l IH]; intros st st' H Hst; simpl in H.
  - by inversion H; subst.
  - destruct (body a st) as [st1| |] eqn:E; simpl in H; try done.
    eapply IH; [done|]. by eapply Hbody.
Qed.

Lemma for_each_returns_inv {A S : Type} (P : A -> Prop)
    (body : A -> S -> outcome S) (l : list A) :
  (forall a st, returns (body a st) -> P a) ->
  forall st, returns (for_each body l st) -> Forall P l.
Proof.
  intros Hbody. induction l as [|a l IH]; intros st [st' H]; simpl in H;
    [constructor|].
  destruct (body a st) as [st1| |] eqn:E; simpl in H; try done.
  constructor; [apply (Hbody a st); by eexists|].
  apply (IH st1). by eexists.
Qed.

Lemma substr_returns_inv (s : string) (pos : nat) :
  returns (substr s pos) -> (pos <= String.length s)%nat.
Proof.
  intros [v H]. unfold substr in H.
  destruct (Nat.ltb_spec (String.length s) pos); [done|lia].
Qed.

Lemma StrSplit_not_nil (s : string) (sep : ascii) : StrSplit s sep <> [].
Proof.
  destruct s as [|c s]; simpl; [done|].
  destruct (Ascii.eqb c sep); [done|]. by destruct (StrSplit s sep).
Qed.

Lemma StrSplit_snoc_sep (s : string) (sep : ascii) :
  StrSplit (s +:+ String sep EmptyString) sep
  = StrSplit s sep ++ [EmptyString].
Proof.
  induction s as [|c s IH]; simpl.
  - by rewrite Ascii.eqb_refl.
  - destruct (Ascii.eqb c sep); [by rewrite IH|].
    rewrite IH. pose proof (StrSplit_not_nil s sep).
    by destruct (StrSplit s sep).
Qed.

(** The token loops and the line loop write to the fields of their own
    line type only. *)
Lemma header_line_token_keeps (line token : string) (hd hd' : SamHeader)
    (log log' : list string) :
  header_line_token line token (hd, log) = Ret (hd', log') ->
  read_groups hd' = read_groups hd /\ programs hd' = programs hd
  /\ comments hd' = comments hd /\ contigs hd' = contigs hd.
Proof.
  unfold header_line_token. intros H. destruct hd.
  destruct (String.eqb token kSamHeaderTag); [by inversion H|].
  rewrite substr_n_0 in H. simpl in H.
  destruct (substr token 3) as [value| |]; simpl in H; try done.
  repeat case_match; by inversion H.
Qed.

Lemma AddHeaderLineToHeader_keeps (line : string) (hd hd' : SamHeader)
    (log log' : list string) :
  AddHeaderLineToHeader line hd log = Ret (hd', log') ->
  read_groups hd' = read_groups hd /\ programs hd' = programs hd
  /\ comments hd' = comments hd /\ contigs hd' = contigs hd.
Proof.
  intros H.
  apply (for_each_invariant
           (fun st => read_groups st.1 = read_groups hd
                      /\ programs st.1 = programs hd
                      /\ comments st.1 = comments hd
                      /\ contigs st.1 = contigs hd)) in H; [done| |done].
  intros token [hd1 log1] [hd2 log2] Hstep (He1 & He2 & He3 & He4).
  apply header_line_token_keeps in Hstep as (H1 & H2 & H3 & H4). simpl in *.
  by rewrite H1, H2, H3, H4.
Qed.

(** What one line adds to the lists of the header. *)
Lemma header_line_lists (line : string) (hd hd' : SamHeader)
    (log log' : list string) :
  header_line line (hd, log) = Ret (hd', log') ->
  contigs hd' = contigs hd
  /\ comments hd'
     = comments hd
       ++ (if String.eqb (tag_of line) kSamCommentTag
           then [substring 4 (String.length line - 4) line] else [])
  /\ length (read_groups hd')
     = (length (read_groups hd)
        + if String.eqb (tag_of line) kSamReadGroupTag then 1 else 0)%nat
  /\ length (programs hd')
     = (length (programs hd)
        + if String.eqb (tag_of line) kSamProgramTag then 1 else 0)%nat.
Proof.
  unfold header_line. rewrite substr_n_0. simpl. fold (tag_of line).
  intros H.
  destruct (String.eqb_spec (tag_of line) kSamHeaderTag) as [->|_].
  { apply AddHeaderLineToHeader_keeps in H as (-> & -> & -> & ->).
    simpl. rewrite app_nil_r. repeat split; lia. }
  destruct (String.eqb_spec (tag_of line) kSamReferenceSequenceTag) as [->|_].
  { inversion H; subst. simpl. rewrite app_nil_r. repeat split; lia. }
  destruct (String.eqb_spec (tag_of line) kSamReadGroupTag) as [->|_].
  { destruct (AddReadGroupToHeader _ _ _) as [[rg lg]| |]; simpl in H;
      try done.
    inversion H; subst. destruct hd; simpl.
    rewrite app_nil_r, length_app. simpl. repeat split; lia. }
  destruct (String.eqb_spec (tag_of line) kSamProgramTag) as [->|_].
  { destruct (AddProgramToHeader _ _) as [pg| |]; simpl in H; try done.
    inversion H; subst. destruct hd; simpl.
    rewrite app_nil_r, length_app. simpl. repeat split; lia. }
  destruct (String.eqb_spec (tag_of line) kSamCommentTag) as [_|_].
  { unfold substr in H.
    destruct (String.length line <? 4)%nat; simpl in H; [done|].
    inversion H; subst. destruct hd; simpl. repeat split; lia. }
  inversion H; subst. rewrite app_nil_r. repeat split; lia.
Qed.

Lemma header_lines_lists (lines : list string) (hd hd' : SamHeader)
    (log log' : list string) :
  for_each header_line lines (hd, log) = Ret (hd', log') ->
  contigs hd' = contigs hd
  /\ comments hd'
     = comments hd
       ++ map (fun line => substring 4 (String.length line - 4) line)
            (List.filter (fun line => String.eqb (tag_of line) kSamCommentTag)
               lines)
  /\ length (read_groups hd')
     = (length (read_groups hd)
        + length (List.filter
                    (fun line => String.eqb (tag_of line) kSamReadGroupTag)
                    lines))%nat
  /\ length (programs hd')
     = (length (programs hd)
        + length (List.filter
                    (fun line => String.eqb (tag_of line) kSamProgramTag)
                    lines))%nat.
Proof.
  revert hd log.
  induction lines as [|line lines IH]; intros hd log H; cbn [for_each] in H.
  - inversion H; subst. simpl. rewrite app_nil_r. repeat split; lia.
  - destruct (header_line line (hd, log)) as [[hd1 log1]| |] eqn:E;
      simpl in H; try done.
    apply header_line_lists in E as (Ec & Eco & Erg & Epg).
    apply IH in H as (Hc & Hco & Hrg & Hpg).
    rewrite Hc, Hco, Hrg, Hpg, Ec, Eco, Erg, Epg. simpl.
    split; [done|].
    destruct (String.eqb (tag_of line) kSamCommentTag),
      (String.eqb (tag_of line) kSamReadGroupTag),
      (String.eqb (tag_of line) kSamProgramTag); simpl;
      rewrite <- ?app_assoc; simpl; repeat split; try done; lia.
Qed.

Lemma add_contig_spec (h : bam_hdr_t) (i : Z) (hd hd' : SamHeader) :
  add_contig h i hd = Ret hd' ->
  exists name len,
    0 <= i /\ target_name h !! Z.to_nat i = Some name
    /\ target_len h !! Z.to_nat i = Some len
    /\ contigs hd' = contigs hd ++ [mkContig name len i]
    /\ read_groups hd' = read_groups hd /\ programs hd' = programs hd
    /\ comments hd' = comments hd.
Proof.
  unfold add_contig, array_get. intros H.
  destruct (Z.ltb_spec i 0); [done|].
  destruct (target_name h !! Z.to_nat i) as [name|]; simpl in H; [|done].
  destruct (target_len h !! Z.to_nat i) as [len|]; simpl in H; [|done].
  inversion H; subst. destruct hd. by exists name, len.
Qed.

Lemma add_contigs_spec (h : bam_hdr_t) (n : nat) (start : Z)
    (hd hd' : SamHeader) :
  0 <= start ->
  for_each (add_contig h) (seqZ start (Z.of_nat n)) hd = Ret hd' ->
  length (contigs hd') = (length (contigs hd) + n)%nat
  /\ (forall i, (i < length (contigs hd))%nat ->
        contigs hd' !! i = contigs hd !! i)
  /\ (forall k, (k < n)%nat ->
        exists name len,
          target_name h !! (Z.to_nat start + k)%nat = Some name
          /\ target_len h !! (Z.to_nat start + k)%nat = Some len
          /\ contigs hd' !! (length (contigs hd) + k)%nat
             = Some (mkContig name len (start + Z.of_nat k)))
  /\ read_groups hd' = read_groups hd /\ programs hd' = programs hd
  /\ comments hd' = comments hd.
Proof.
  revert start hd. induction n as [|n IH]; intros start hd Hstart H.
  - simpl in H. inversion H; subst. split; [lia|]. split; [done|].
    split; [intros k Hk; lia|done].
  - rewrite seqZ_cons in H by lia. simpl in H.
    destruct (add_contig h start hd) as [hd1| |] eqn:E; simpl in H; try done.
    apply add_contig_spec in E
      as (name & len & _ & En & El & Ec & Erg & Epg & Eco).
    replace (Z.pred (Z.of_nat (S n))) with (Z.of_nat n) in H by lia.
    apply IH in H as (Hlen & Hold & Hnew & Hrg & Hpg & Hco);
      [|unfold Z.succ; lia].
    rewrite Ec, length_app in Hlen, Hold, Hnew. simpl in *.
    split; [lia|]. split; [|split].
    + intros i Hi. rewrite Hold by lia. by rewrite lookup_app_l by lia.
    + intros [|k] Hk.
      * exists name, len. rewrite !Nat.add_0_r, Z.add_0_r.
        split; [done|]. split; [done|]. rewrite Hold by lia.
        rewrite lookup_app_r by lia. by rewrite Nat.sub_diag.
      * destruct (Hnew k) as (name' & len' & Hn' & Hl' & Hc'); [lia|].
        exists name', len'.
        replace (Z.to_nat start + S k)%nat
          with (Z.to_nat (Z.succ start) + k)%nat by lia.
        replace (length (contigs hd) + S k)%nat
          with (length (contigs hd) + 1 + k)%nat by lia.
        replace (start + Z.of_nat (S k)) with (Z.succ start + Z.of_nat k)
          by lia.
        done.
    + by rewrite Hrg, Hpg, Hco, Erg, Epg, Eco.
Qed.

Lemma SamReader_sam_header_inv (h : bam_hdr_t) (hd : SamHeader)
    (log : list string) :
  SamReader_sam_header h = Ret (hd, log) ->
  exists hd1,
    for_each header_line (StrSplit (text h) newline) (SamHeader_default, [])
    = Ret (hd1, log)
    /\ for_each (add_contig h) (seqZ 0 (n_targets h)) hd1 = Ret hd.
Proof.
  unfold SamReader_sam_header. intros H.
  destruct (for_each header_line _ _) as [[hd1 log1]| |]; simpl in H;
    try done.
  destruct (for_each (add_contig h) _ _) as [hd2| |] eqn:E; simpl in H;
    try done.
  inversion H; subst. by exists hd1.
Qed.

(** X18. The contigs of the parsed header are the entries of the header's
    reference tables, in order and with their index as position: there
    are [n_targets] of them (none when it is negative), and the text of
    the header, its [@SQ] lines included, adds none. *)
Theorem header_contigs_from_tables
    (h : bam_hdr_t) (hd : SamHeader) (log : list string)
    (Hparsed : SamReader_sam_header h = Ret (hd, log)) :
  length (contigs hd) = Z.to_nat (n_targets h)
  /\ forall i, (i < Z.to_nat (n_targets h))%nat ->
       exists name len,
         target_name h !! i = Some name /\ target_len h !! i = Some len
         /\ contigs hd !! i = Some (mkContig name len (Z.of_nat i)).
Proof.
  apply SamReader_sam_header_inv in Hparsed as (hd1 & Htext & Htables).
  apply header_lines_lists in Htext as (Hc & _). simpl in Hc.
  destruct (Z.le_gt_cases (n_targets h) 0) as [Hneg|Hpos].
  - rewrite seqZ_nil in Htables by lia. inversion Htables; subst.
    rewrite Hc. split; [simpl; lia|]. intros i Hi. lia.
  - rewrite <- (Z2Nat.id (n_targets h)) in Htables by lia.
    apply add_contigs_spec in Htables as (Hlen & _ & Hnew & _); [|lia].
    rewrite Hc in Hlen, Hnew. simpl in *. split; [done|].
    intros i Hi. destruct (Hnew i Hi) as (name & len & Hn & Hl & Hcg).
    by exists name, len.
Qed.

(** X19. The parsed header has one comment for each [@CO] line of the
    text, in order, which is the line from its fifth character on, one
    read group for each [@RG] line and one program for each [@PG] line. *)
Theorem header_entries_per_line
    (h : bam_hdr_t) (hd : SamHeader) (log : list string)
    (Hparsed : SamReader_sam_header h = Ret (hd, log)) :
  comments hd
  = map (fun line => substring 4 (String.length line - 4) line)
      (lines_of_type kSamCommentTag (text h))
  /\ length (read_groups hd)
     = length (lines_of_type kSamReadGroupTag (text h))
  /\ length (programs hd) = length (lines_of_type kSamProgramTag (text h)).
Proof.
  apply SamReader_sam_header_inv in Hparsed as (hd1 & Htext & Htables).
  apply header_lines_lists in Htext as (_ & Hco & Hrg & Hpg). simpl in *.
  assert (read_groups hd = read_groups hd1 /\ programs hd = programs hd1
          /\ comments hd = comments hd1) as (-> & -> & ->).
  { destruct (Z.le_gt_cases (n_targets h) 0) as [Hneg|Hpos].
    - rewrite seqZ_nil in Htables by lia. by inversion Htables.
    - rewrite <- (Z2Nat.id (n_targets h)) in Htables by lia.
      by apply add_contigs_spec in Htables as (_ & _ & _ & ? & ? & ?). }
  done.
Qed.

(** X20. A newline at the end of the header text changes nothing in the
    parsed header and adds one warning: the empty piece after it is taken
    for a line of an unrecognized type. *)
Theorem trailing_newline_logs_warning
    (h : bam_hdr_t) (hd : SamHeader) (log : list string)
    (Hparsed : SamReader_sam_header h = Ret (hd, log)) :
  SamReader_sam_header
    (with_text h (text h +:+ String newline EmptyString))
  = Ret (hd, log ++ ["Unrecognized SAM header type, ignoring: "]).
Proof.
  apply SamReader_sam_header_inv in Hparsed as (hd1 & Htext & Htables).
  unfold SamReader_sam_header, with_text. simpl.
  rewrite StrSplit_snoc_sep, for_each_app, Htext. simpl.
  assert (for_each (add_contig
                      (mkHdr (n_targets h) (target_name h) (target_len h)
                         (text h +:+ String newline EmptyString)))
            (seqZ 0 (n_targets h)) hd1
          = for_each (add_contig h) (seqZ 0 (n_targets h)) hd1) as ->.
  { reflexivity. }
  by rewrite Htables.
Qed.

Lemma header_line_token_returns_inv (line token : string)
    (st : SamHeader * list string) :
  returns (header_line_token line token st) -> token_long_enough token = true.
Proof.
  destruct st as [hd log]. unfold header_line_token, token_long_enough.
  destruct (String.eqb_spec token kSamHeaderTag) as [->|_]; [done|].
  rewrite substr_n_0. intros [v H]. simpl in H. apply Nat.leb_le.
  apply substr_returns_inv.
  destruct (substr token 3); simpl in H; try done. by eexists.
Qed.

Lemma program_token_returns_inv (line token : string) (program : Program) :
  returns (program_token line token program) -> token_long_enough token = true.
Proof.
  unfold program_token, token_long_enough.
  destruct (String.eqb_spec token kSamProgramTag) as [->|_]; [done|].
  rewrite substr_n_0. intros [v H]. simpl in H. apply Nat.leb_le.
  apply substr_returns_inv.
  destruct (substr token 3); simpl in H; try done. by eexists.
Qed.

Lemma read_group_token_returns_inv (line token : string)
    (st : ReadGroup * list string) :
  returns (read_group_token line token st) -> read_group_token_ok token = true.
Proof.
  destruct st as [rg log]. unfold read_group_token, read_group_token_ok.
  destruct (String.eqb_spec token kSamReadGroupTag) as [->|_]; [done|].
  rewrite substr_n_0. intros [v H]. simpl in H.
  assert (3 <= String.length token)%nat as Hlen.
  { apply substr_returns_inv.
    destruct (substr token 3); simpl in H; try done. by eexists. }
  rewrite substr_inside in H by done. simpl in H.
  unfold token_long_enough. rewrite (proj2 (Nat.leb_le _ _) Hlen). simpl.
  fold (tag_of token) (value_of token) in *.
  destruct (String.eqb_spec (tag_of token) kPITag) as [E|_]; [|done].
  rewrite E in H. simpl in H. by destruct (SimpleAtoi (value_of token)).
Qed.

Lemma Forall_forallb {A} (f : A -> bool) (l : list A) :
  Forall (fun a => f a = true) l -> forallb f l = true.
Proof. induction 1; simpl; [done|]. by apply andb_true_iff. Qed.

Lemma header_line_returns_inv (line : string) (st : SamHeader * list string) :
  returns (header_line line st) -> header_line_ok line = true.
Proof.
  destruct st as [hd log]. unfold header_line, header_line_ok.
  rewrite substr_n_0. intros Hret. simpl in Hret. cbv zeta.
  fold (tag_of line) in Hret.
  destruct (String.eqb (tag_of line) kSamHeaderTag).
  { apply Forall_forallb.
    eapply for_each_returns_inv; [|exact Hret].
    intros a st. apply header_line_token_returns_inv. }
  destruct (String.eqb (tag_of line) kSamReferenceSequenceTag); [done|].
  destruct (String.eqb (tag_of line) kSamReadGroupTag).
  { apply Forall_forallb.
    eapply (for_each_returns_inv _ (read_group_token line) _
              (fun a st => read_group_token_returns_inv line a st)
              (ReadGroup_default, log)).
    destruct Hret as [v H]. unfold AddReadGroupToHeader in H.
    destruct (for_each _ _ _); simpl in H; try done. by eexists. }
  destruct (String.eqb (tag_of line) kSamProgramTag).
  { apply Forall_forallb.
    eapply (for_each_returns_inv _ (program_token line) _
              (fun a st => program_token_returns_inv line a st)
              Program_default).
    destruct Hret as [v H]. unfold AddProgramToHeader in H.
    destruct (for_each _ _ _); simpl in H; try done. by eexists. }
  destruct (String.eqb (tag_of line) kSamCommentTag); [|done].
  apply Nat.leb_le. apply substr_returns_inv.
  destruct Hret as [v H]. destruct (substr line 4); simpl in H; try done.
  by eexists.
Qed.

(** X21. The constructor gets through the header only if every token of
    the [@HD], [@RG] and [@PG] lines has at least 3 characters, every
    [@CO] line at least 4, every PI value is a number, and the reference
    tables hold [n_targets] entries: on any other header it stops with a
    fault. *)
Theorem header_parsing_returns_only_if_well_formed
    (h : bam_hdr_t)
    (Hreturns : returns (SamReader_sam_header h)) :
  header_text_ok (text h) = true
  /\ n_targets h <= Z.of_nat (length (target_name h))
  /\ n_targets h <= Z.of_nat (length (target_len h)).
Proof.
  destruct Hreturns as [[hd log] H].
  pose proof (header_contigs_from_tables h hd log H) as [_ Htab].
  apply SamReader_sam_header_inv in H as (hd1 & Htext & _).
  split.
  - apply Forall_forallb.
    eapply for_each_returns_inv; [|by eexists].
    intros a st. apply header_line_returns_inv.
  - destruct (Z.le_gt_cases (n_targets h) 0) as [Hneg|Hpos]; [lia|].
    destruct (Htab (Z.to_nat (n_targets h) - 1)%nat)
      as (name & len & Hn & Hl & _); [lia|].
    apply lookup_lt_Some in Hn, Hl. lia.
Qed.

Lemma header_contigs_from_tables_witness :
  exists hd log,
    SamReader_sam_header one_contig = Ret (hd, log)
    /\ length (contigs hd) = 1%nat.
Proof.
  eexists _, _. split; [reflexivity|].
  exact (proj1 (header_contigs_from_tables one_contig _ _ eq_refl)).
Defined.

Lemma header_entries_per_line_witness :
  exists hd log,
    SamReader_sam_header (with_text one_contig five_lines) = Ret (hd, log)
    /\ comments hd = ["first"; "second"]
    /\ length (read_groups hd) = 1%nat /\ length (programs hd) = 1%nat.
Proof.
  eexists _, _. split; [reflexivity|].
  apply (header_entries_per_line (with_text one_contig five_lines) _ _
           eq_refl).
Defined.

Lemma trailing_newline_logs_warning_witness :
  exists hd,
    SamReader_sam_header
      (with_text one_contig (text one_contig +:+ String newline EmptyString))
    = Ret (hd, ["Unrecognized SAM header type, ignoring: "]).
Proof.
  eexists.
  apply (trailing_newline_logs_warning one_contig _ [] eq_refl).
Defined.

Lemma header_parsing_returns_only_if_well_formed_witness :
  header_text_ok five_lines = true.
Proof.
  apply (header_parsing_returns_only_if_well_formed
           (with_text one_contig five_lines)).
  eexists. reflexivity.
Defined.

(** ** Opening and destroying a reader *)

Section OpeningProperties.

Variables htsFile hts_idx_t hts_itr_t : Type.
Variable hts_open_x : string -> option htsFile.
Variable hts_set_opt_block_size : htsFile -> Z -> Z.
Variable sam_hdr_read : htsFile -> option bam_hdr_t.
Variable fn : htsFile -> string.
Variable format : htsFile -> htsExactFormat.
Variable sam_index_load : htsFile -> option hts_idx_t.
Variable cram_set_option_reference : htsFile -> string -> Z.
Variable hts_close : htsFile -> Z.
Variable OptionsDebugString : SamReaderOptions -> string.
Variable sam_itr_queryi : hts_idx_t -> Z -> Z -> Z -> option hts_itr_t.
Variable RangeDebugString : Range -> string.

#[local] Abbreviation FromFile' :=
  (FromFile hts_open_x hts_set_opt_block_size sam_hdr_read fn format
     sam_index_load cram_set_option_reference OptionsDebugString).
#[local] Abbreviation QueryR := (Query sam_itr_queryi RangeDebugString).
#[local] Abbreviation closed := (@mkReader htsFile hts_idx_t None None None).

Lemma FromFile_Value (reads_path ref_path : string)
    (options : SamReaderOptions) (r : SamReader htsFile hts_idx_t)
    (hd : SamHeader) (log : list string) :
  FromFile' reads_path ref_path options = Ret (Value (r, hd), log) ->
  exists fp h,
    hts_open_x reads_path = Some fp /\ sam_hdr_read fp = Some h
    /\ r = mkReader (Some fp) (Some h)
             (if FileTypeIsIndexable (format fp) then sam_index_load fp
              else None)
    /\ SamReader_sam_header h = Ret (hd, log).
Proof.
  unfold FromFile. intros H.
  destruct (match read_requirements options with Some _ => _ | None => _ end);
    [done|].
  destruct (hts_open_x reads_path) as [fp|] eqn:Hfp; [|done].
  destruct (_ && _); [done|].
  destruct (sam_hdr_read fp) as [h|] eqn:Hh; [|done].
  cbv zeta in H.
  destruct (match format fp with cram => _ | _ => false end); [done|].
  unfold SamReader_new in H.
  destruct (SamReader_sam_header h) as [[hd1 log1]| |] eqn:Hhd; simpl in H;
    try done.
  inversion H; subst. by exists fp, h.
Qed.

(** X22. A reader that FromFile returns is open: the file was opened and
    its header read, both handles are set, the parsed header is the one
    of that header; so Iterate gives an iterable over the file, and Query
    returns, with an iterable or an error, for every region. *)
Theorem FromFile_reader_is_open
    (reads_path ref_path : string) (options : SamReaderOptions)
    (r : SamReader htsFile hts_idx_t) (hd : SamHeader) (log : list string)
    (Hopen : FromFile' reads_path ref_path options = Ret (Value (r, hd), log)) :
  exists fp h,
    hts_open_x reads_path = Some fp /\ sam_hdr_read fp = Some h
    /\ fp_ r = Some fp /\ header_ r = Some h
    /\ SamReader_sam_header h = Ret (hd, log)
    /\ Iterate (hts_itr_t := hts_itr_t) r
       = Value (SamFullFileIterable fp (Some h))
    /\ forall region, returns (QueryR r region).
Proof.
  apply FromFile_Value in Hopen as (fp & h & Hfp & Hh & -> & Hhd).
  exists fp, h. repeat (split; [done|]).
  intros region. unfold Query. simpl.
  destruct (if FileTypeIsIndexable (format fp) then _ else _);
    [|by eexists].
  destruct (_ <? 0); [by eexists|].
  destruct (sam_itr_queryi _ _ _ _); by eexists.
Qed.

(** X23. A reader opened on a file that is neither BAM nor CRAM, or whose
    index could not be loaded, cannot be queried: Query fails with a
    precondition error for every region, while Iterate succeeds. *)
Theorem Query_needs_indexable_format
    (reads_path ref_path : string) (options : SamReaderOptions)
    (r : SamReader htsFile hts_idx_t) (hd : SamHeader) (log : list string)
    (fp : htsFile) (region : Range)
    (Hopen : FromFile' reads_path ref_path options = Ret (Value (r, hd), log))
    (Hfp : hts_open_x reads_path = Some fp)
    (Hindex : FileTypeIsIndexable (format fp) = false
              \/ sam_index_load fp = None) :
  QueryR r region
  = Ret (Error (errors_FailedPrecondition "Cannot query without an index"))
  /\ exists it, Iterate (hts_itr_t := hts_itr_t) r = Value it.
Proof.
  apply FromFile_Value in Hopen as (fp' & h & Hfp' & Hh & -> & Hhd).
  rewrite Hfp in Hfp'. inversion Hfp'; subst fp'.
  split; [|by eexists].
  unfold Query. simpl.
  destruct Hindex as [-> | Hnone]; [done|].
  rewrite Hnone. by destruct (FileTypeIsIndexable (format fp)).
Qed.

(** X24. The destructor closes a reader exactly when Close has not been
    called: after Close it leaves the reader as it is and calls nothing;
    on an open reader it ends with all handles null when [hts_close]
    succeeds and aborts when it fails.  A second Close dereferences the
    null file handle. *)
Theorem destructor_closes_once
    (r : SamReader htsFile hts_idx_t) (fp : htsFile)
    (Hfp : fp_ r = Some fp) :
  (exists st,
      Close hts_close r = Ret (st, closed)
      /\ (ok st = true <-> 0 <= hts_close fp)
      /\ (ok st = false -> code st = Internal))
  /\ SamReader_destroy hts_close closed
     = Ret closed
  /\ Close hts_close closed = Fault NullDereference
  /\ (0 <= hts_close fp ->
      SamReader_destroy hts_close r = Ret closed)
  /\ (hts_close fp < 0 ->
      SamReader_destroy hts_close r = Fault CheckFailure).
Proof.
  unfold SamReader_destroy, Close. rewrite Hfp. simpl.
  split; [|split; [done|split; [done|split]]].
  - eexists. split; [done|].
    destruct (Z.ltb_spec (hts_close fp) 0); simpl.
    + split; [split; [done|lia]|done].
    + split; [split; [lia|done]|done].
  - intros H. by destruct (Z.ltb_spec (hts_close fp) 0); [lia|].
  - intros H. by destruct (Z.ltb_spec (hts_close fp) 0); [|lia].
Qed.

End OpeningProperties.

Lemma substring_0_spec (n : nat) (query prefix : string) :
  substring 0 n query = prefix
  <-> exists rest,
        query = prefix +:+ rest
        /\ (String.length prefix = n
            \/ (rest = EmptyString /\ (String.length prefix <= n)%nat)).
Proof.
  revert query prefix. induction n as [|n IH]; intros query prefix.
  - assert (substring 0 0 query = EmptyString) as -> by by destruct query.
    split.
    + intros <-. exists query. by split; [|left].
    + intros (rest & _ & [H|[_ H]]); destruct prefix; simpl in *;
        try done; lia.
  - destruct query as [|c query]; simpl.
    + split.
      * intros <-. exists EmptyString. split; [done|]. right. simpl.
        split; [done|lia].
      * intros (rest & H & _). by destruct prefix.
    + split.
      * intros <-. destruct (proj1 (IH query _) eq_refl) as (rest & Hq & Hl).
        exists rest.
        split; [change (String c query
                        = String c (substring 0 n query +:+ rest));
                by f_equal|].
        simpl.
        destruct Hl as [Hl|[-> Hl]]; [left|right]; [|split; [done|]]; lia.
      * intros (rest & Hq & Hl). destruct prefix as [|c' prefix].
        { simpl in Hl. destruct Hl as [Hl|[-> _]]; [lia|done]. }
        change (String c query = String c' (prefix +:+ rest)) in Hq.
        inversion Hq; subst c'. f_equal.
        apply IH. exists rest. split; [done|]. simpl in Hl.
        destruct Hl as [Hl|[-> Hl]]; [left|right]; [|split; [done|]]; lia.
Qed.

(** X25. With a length that is not negative, StartsWith holds exactly when
    the prefix comes first in the query and either has just that length
    or is the whole query and no longer than that length.  So it is the
    prefix test when the length is the length of the prefix, and it never
    holds when the length is smaller than that. *)
Theorem StartsWith_compares_whole_prefix
    (query prefix : string) (prefix_len : Z)
    (Hlen : 0 <= prefix_len < 2 ^ 64) :
  (StartsWith query prefix prefix_len = true
   <-> exists rest,
         query = prefix +:+ rest
         /\ (Z.of_nat (String.length prefix) = prefix_len
             \/ (rest = EmptyString
                 /\ Z.of_nat (String.length prefix) <= prefix_len)))
  /\ (prefix_len < Z.of_nat (String.length prefix) ->
      StartsWith query prefix prefix_len = false).
Proof.
  unfold StartsWith. rewrite Z.mod_small by done.
  assert (String.eqb (substring 0 (Z.to_nat prefix_len) query) prefix = true
          <-> exists rest,
                query = prefix +:+ rest
                /\ (Z.of_nat (String.length prefix) = prefix_len
                    \/ (rest = EmptyString
                        /\ Z.of_nat (String.length prefix) <= prefix_len)))
    as Hiff.
  { rewrite String.eqb_eq, substring_0_spec.
    split; intros (rest & Hq & Hl); exists rest; (split; [done|]);
      destruct Hl as [Hl|[-> Hl]]; [left|right|left|right];
      try (split; [done|]); lia. }
  split; [done|].
  intros Hshort. apply not_true_is_false. intros Htrue.
  apply Hiff in Htrue as (rest & _ & [Hl|[_ Hl]]); lia.
Qed.

Lemma FromFile_reader_is_open_witness :
  exists r hd log,
    FromFile one_file_open one_file_set_opt one_file_hdr_read one_file_fn
      one_file_format one_file_index_load one_file_set_reference
      options_debug_string "reads.sam" "" parse_all
    = Ret (Value (r, hd), log)
    /\ fp_ r = Some tt /\ header_ r = Some one_contig.
Proof.
  eexists _, _, _. split; [reflexivity|].
  destruct (FromFile_reader_is_open unit unit unit one_file_open
              one_file_set_opt one_file_hdr_read one_file_fn one_file_format
              one_file_index_load one_file_set_reference options_debug_string
              unit_queryi whole_range "reads.sam" "" parse_all _ _ _ eq_refl)
    as (fp & h & Hfp & Hh & Hr & Hhd & _).
  destruct fp. inversion Hh; subst h. by split.
Defined.

Lemma Query_needs_indexable_format_witness :
  exists r hd log,
    FromFile one_file_open one_file_set_opt one_file_hdr_read one_file_fn
      one_file_format one_file_index_load one_file_set_reference
      options_debug_string "reads.sam" "" parse_all
    = Ret (Value (r, hd), log)
    /\ Query unit_queryi whole_range r (mkRange "chr1" 0 10)
       = Ret (Error (errors_FailedPrecondition
                       "Cannot query without an index")).
Proof.
  eexists _, _, _. split; [reflexivity|].
  apply (Query_needs_indexable_format unit unit unit one_file_open
           one_file_set_opt one_file_hdr_read one_file_fn one_file_format
           one_file_index_load one_file_set_reference options_debug_string
           unit_queryi whole_range "reads.sam" "" parse_all _ _ _ tt
           (mkRange "chr1" 0 10) eq_refl eq_refl (or_introl eq_refl)).
Defined.

Lemma destructor_closes_once_witness :
  SamReader_destroy unit_close
    (@mkReader unit unit (Some tt) (Some one_contig) None)
  = Ret (mkReader None None None).
Proof.
  apply (destructor_closes_once unit unit unit_close
           (@mkReader unit unit (Some tt) (Some one_contig) None) tt
           eq_refl).
  unfold unit_close. lia.
Defined.

Lemma StartsWith_compares_whole_prefix_witness :
  StartsWith "@RG-line" "@RG" 2 = false.
Proof.
  apply (StartsWith_compares_whole_prefix "@RG-line" "@RG" 2).
  - split; [lia|reflexivity].
  - simpl. lia.
Defined.
